(** * SourceImpl: the input-container wrapper of Humble-Video

    A shallow embedding of [io/humble/video/SourceImpl.cpp].  The class wraps
    one [AVFormatContext] of the demuxing library and guards every call with
    the container's lifecycle state.  The demuxing library, the custom-I/O
    handlers and the sibling classes of the repository are the environment:
    they are gathered in a record [Library] over an abstract [World], and
    every method threads the world, a log of the external calls made, and the
    fields of the object. *)

From Stdlib Require Import ZArith List String Bool Lia ZifyBool.
From stdpp Require Import base tactics decidable option list numbers strings.
Import ListNotations.
Local Open Scope Z_scope.

(** ** Machine integers *)

Definition int32 := Z.
Definition int64 := Z.

Definition INT32_MAX : Z := 2147483647.
Definition INT32_MIN : Z := -2147483648.

(** Two's-complement reduction to 32 bits: what [++] and the cast
    [(int32_t)] produce on the targets the library is built for. *)
Definition wrap32 (z : Z) : int32 := (z + 2147483648) mod 4294967296 - 2147483648.

(** The cast to [uint32_t]. *)
Definition to_uint32 (z : Z) : Z := z mod 4294967296.

(** The conversion of an [int32_t] to [size_t] (64-bit). *)
Definition to_size_t (z : Z) : Z := z mod 18446744073709551616.

(** ** Container states and exceptions *)

(** [Container::State], as far as this file names it. *)
Inductive State : Type :=
| STATE_INITED
| STATE_OPENED
| STATE_PLAYING
| STATE_PAUSED
| STATE_CLOSED
| STATE_ERROR.

#[global] Instance State_eq_dec : EqDecision State.
Proof. solve_decision. Defined.

(** The exceptions the methods raise.  [getFormatCtx] builds a
    [std::runtime_error], copies it into a [std::exception] and throws the
    copy; [runtime_error_copy] stands for that object. *)
Inductive exn : Type :=
| runtime_error_copy (what : string)
| HumbleRuntimeError (msg : string)
| HumbleInvalidArgument (msg : string)
| std_bad_alloc
| std_out_of_range.

(** What a call produces: a value, an exception, or undefined behaviour
    (a null pointer was dereferenced). *)
Inductive Result (A : Type) : Type :=
| Returned (a : A)
| Thrown (e : exn)
| Undefined.
Arguments Returned {A} a.
Arguments Thrown {A} e.
Arguments Undefined {A}.

(** ** Data of the demuxing library *)

(** Objects the wrapper only passes around are named by an opaque handle. *)
Definition handle := N.
Definition AVIOContext := handle.
Definition URLProtocolHandler := handle.
Definition Buffer := handle.
Definition SourceStreamImpl := handle.
Definition KeyValueBagImpl := handle.
Definition AVDictionary := list (string * string).

Record AVRational : Type := { num : Z; den : Z }.
Definition Rational := AVRational.

#[global] Instance AVRational_eq_dec : EqDecision AVRational.
Proof. solve_decision. Defined.

Record AVStream : Type := { time_base : AVRational }.

Record AVInputFormat : Type := { if_name : string; if_flags : Z }.

#[global] Instance AVInputFormat_eq_dec : EqDecision AVInputFormat.
Proof. solve_decision. Defined.

Record AVPacket : Type := {
  pkt_stream_index : int32;
  pkt_size : int32;
  pkt_pts : int64;
  pkt_dts : int64;
  pkt_flags : int32;
  pkt_duration : int64;
  pkt_pos : int64
}.

(** The fields of [AVFormatContext] the wrapper reads or writes.
    [nb_streams] is the length of [streams]; an entry may be null.  A null
    [AVDictionary] pointer is the empty dictionary. *)
Record AVFormatContext : Type := {
  iformat : option AVInputFormat;
  flags : Z;
  ctx_flags : Z;
  pb : option AVIOContext;
  streams : list (option AVStream);
  duration : int64;
  start_time : int64;
  bit_rate : Z;
  filename : string;
  metadata : AVDictionary;
  audio_codec_id : Z;
  video_codec_id : Z;
  subtitle_codec_id : Z;
  max_delay : Z;
  interrupt_callback : bool
}.

Definition nb_streams (c : AVFormatContext) : Z := Z.of_nat (length (streams c)).

Definition set_iformat (v : option AVInputFormat) (c : AVFormatContext) :=
  {| iformat := v; flags := flags c; ctx_flags := ctx_flags c; pb := pb c;
     streams := streams c; duration := duration c; start_time := start_time c;
     bit_rate := bit_rate c; filename := filename c; metadata := metadata c;
     audio_codec_id := audio_codec_id c; video_codec_id := video_codec_id c;
     subtitle_codec_id := subtitle_codec_id c; max_delay := max_delay c;
     interrupt_callback := interrupt_callback c |}.

Definition set_flags (v : Z) (c : AVFormatContext) :=
  {| iformat := iformat c; flags := v; ctx_flags := ctx_flags c; pb := pb c;
     streams := streams c; duration := duration c; start_time := start_time c;
     bit_rate := bit_rate c; filename := filename c; metadata := metadata c;
     audio_codec_id := audio_codec_id c; video_codec_id := video_codec_id c;
     subtitle_codec_id := subtitle_codec_id c; max_delay := max_delay c;
     interrupt_callback := interrupt_callback c |}.

Definition set_ctx_flags (v : Z) (c : AVFormatContext) :=
  {| iformat := iformat c; flags := flags c; ctx_flags := v; pb := pb c;
     streams := streams c; duration := duration c; start_time := start_time c;
     bit_rate := bit_rate c; filename := filename c; metadata := metadata c;
     audio_codec_id := audio_codec_id c; video_codec_id := video_codec_id c;
     subtitle_codec_id := subtitle_codec_id c; max_delay := max_delay c;
     interrupt_callback := interrupt_callback c |}.

Definition set_pb (v : option AVIOContext) (c : AVFormatContext) :=
  {| iformat := iformat c; flags := flags c; ctx_flags := ctx_flags c; pb := v;
     streams := streams c; duration := duration c; start_time := start_time c;
     bit_rate := bit_rate c; filename := filename c; metadata := metadata c;
     audio_codec_id := audio_codec_id c; video_codec_id := video_codec_id c;
     subtitle_codec_id := subtitle_codec_id c; max_delay := max_delay c;
     interrupt_callback := interrupt_callback c |}.

Definition set_streams (v : list (option AVStream)) (c : AVFormatContext) :=
  {| iformat := iformat c; flags := flags c; ctx_flags := ctx_flags c; pb := pb c;
     streams := v; duration := duration c; start_time := start_time c;
     bit_rate := bit_rate c; filename := filename c; metadata := metadata c;
     audio_codec_id := audio_codec_id c; video_codec_id := video_codec_id c;
     subtitle_codec_id := subtitle_codec_id c; max_delay := max_delay c;
     interrupt_callback := interrupt_callback c |}.

Definition set_audio_codec_id (v : Z) (c : AVFormatContext) :=
  {| iformat := iformat c; flags := flags c; ctx_flags := ctx_flags c; pb := pb c;
     streams := streams c; duration := duration c; start_time := start_time c;
     bit_rate := bit_rate c; filename := filename c; metadata := metadata c;
     audio_codec_id := v; video_codec_id := video_codec_id c;
     subtitle_codec_id := subtitle_codec_id c; max_delay := max_delay c;
     interrupt_callback := interrupt_callback c |}.

Definition set_video_codec_id (v : Z) (c : AVFormatContext) :=
  {| iformat := iformat c; flags := flags c; ctx_flags := ctx_flags c; pb := pb c;
     streams := streams c; duration := duration c; start_time := start_time c;
     bit_rate := bit_rate c; filename := filename c; metadata := metadata c;
     audio_codec_id := audio_codec_id c; video_codec_id := v;
     subtitle_codec_id := subtitle_codec_id c; max_delay := max_delay c;
     interrupt_callback := interrupt_callback c |}.

Definition set_subtitle_codec_id (v : Z) (c : AVFormatContext) :=
  {| iformat := iformat c; flags := flags c; ctx_flags := ctx_flags c; pb := pb c;
     streams := streams c; duration := duration c; start_time := start_time c;
     bit_rate := bit_rate c; filename := filename c; metadata := metadata c;
     audio_codec_id := audio_codec_id c; video_codec_id := video_codec_id c;
     subtitle_codec_id := v; max_delay := max_delay c;
     interrupt_callback := interrupt_callback c |}.

Definition set_interrupt_callback (v : bool) (c : AVFormatContext) :=
  {| iformat := iformat c; flags := flags c; ctx_flags := ctx_flags c; pb := pb c;
     streams := streams c; duration := duration c; start_time := start_time c;
     bit_rate := bit_rate c; filename := filename c; metadata := metadata c;
     audio_codec_id := audio_codec_id c; video_codec_id := video_codec_id c;
     subtitle_codec_id := subtitle_codec_id c; max_delay := max_delay c;
     interrupt_callback := v |}.

(** ** Sibling classes of the repository *)

(** [SourceFormat] wraps an input-format descriptor ([getCtx]). *)
Record SourceFormat : Type := { getCtx : option AVInputFormat }.

(** A [MediaPacketImpl]: the library packet it owns ([getCtx] in the source),
    its completeness mark and its time base. *)
Record MediaPacketImpl : Type := {
  mPacket : AVPacket;
  mIsComplete : bool;
  mTimeBase : option Rational
}.

(** A [MediaPacket] argument is a [MediaPacketImpl] or an object of another
    class, for which the [dynamic_cast] in [read] yields null. *)
Inductive MediaPacket : Type :=
| IsMediaPacketImpl (p : MediaPacketImpl)
| OtherMediaPacket (id : handle).

Definition getStreamIndex (p : MediaPacketImpl) : int32 := pkt_stream_index (mPacket p).
Definition getSize (p : MediaPacketImpl) : int32 := pkt_size (mPacket p).

(** Modelled from the spec: [MediaPacketImpl::setComplete] is not under src/;
    it marks the packet complete or incomplete. *)
Definition setComplete (complete : bool) (size : int32) (p : MediaPacketImpl) : MediaPacketImpl :=
  {| mPacket := mPacket p; mIsComplete := complete; mTimeBase := mTimeBase p |}.

(** Modelled from the spec: [MediaPacketImpl::setTimeBase] is not under src/;
    it sets the packet's time base. *)
Definition setTimeBase (tb : Rational) (p : MediaPacketImpl) : MediaPacketImpl :=
  {| mPacket := mPacket p; mIsComplete := mIsComplete p; mTimeBase := Some tb |}.

(** The library writes into the packet's [AVPacket] only. *)
Definition with_packet (a : AVPacket) (p : MediaPacketImpl) : MediaPacketImpl :=
  {| mPacket := a; mIsComplete := mIsComplete p; mTimeBase := mTimeBase p |}.

(** Modelled from the spec: [FFMAX] is a macro of the demuxing library, not
    under src/; the maximum of its two arguments. *)
Definition FFMAX (a b : Z) : Z := if a >? b then a else b.

(** ** The object *)

Record SourceImpl : Type := {
  mState : State;
  mNumStreams : int32;
  mStreamInfoGotten : bool;
  mReadRetryMax : int32;
  mInputBufferLength : int32;
  mIOHandler : option URLProtocolHandler;
  mCtx : option AVFormatContext;
  mStreams : list SourceStreamImpl;
  mFormat : option SourceFormat;
  mMetaData : option KeyValueBagImpl
}.

Definition set_mState (v : State) (o : SourceImpl) :=
  {| mState := v; mNumStreams := mNumStreams o; mStreamInfoGotten := mStreamInfoGotten o;
     mReadRetryMax := mReadRetryMax o; mInputBufferLength := mInputBufferLength o;
     mIOHandler := mIOHandler o; mCtx := mCtx o; mStreams := mStreams o;
     mFormat := mFormat o; mMetaData := mMetaData o |}.

Definition set_mNumStreams (v : int32) (o : SourceImpl) :=
  {| mState := mState o; mNumStreams := v; mStreamInfoGotten := mStreamInfoGotten o;
     mReadRetryMax := mReadRetryMax o; mInputBufferLength := mInputBufferLength o;
     mIOHandler := mIOHandler o; mCtx := mCtx o; mStreams := mStreams o;
     mFormat := mFormat o; mMetaData := mMetaData o |}.

Definition set_mStreamInfoGotten (v : bool) (o : SourceImpl) :=
  {| mState := mState o; mNumStreams := mNumStreams o; mStreamInfoGotten := v;
     mReadRetryMax := mReadRetryMax o; mInputBufferLength := mInputBufferLength o;
     mIOHandler := mIOHandler o; mCtx := mCtx o; mStreams := mStreams o;
     mFormat := mFormat o; mMetaData := mMetaData o |}.

Definition set_mReadRetryMax (v : int32) (o : SourceImpl) :=
  {| mState := mState o; mNumStreams := mNumStreams o; mStreamInfoGotten := mStreamInfoGotten o;
     mReadRetryMax := v; mInputBufferLength := mInputBufferLength o;
     mIOHandler := mIOHandler o; mCtx := mCtx o; mStreams := mStreams o;
     mFormat := mFormat o; mMetaData := mMetaData o |}.

Definition set_mInputBufferLength (v : int32) (o : SourceImpl) :=
  {| mState := mState o; mNumStreams := mNumStreams o; mStreamInfoGotten := mStreamInfoGotten o;
     mReadRetryMax := mReadRetryMax o; mInputBufferLength := v;
     mIOHandler := mIOHandler o; mCtx := mCtx o; mStreams := mStreams o;
     mFormat := mFormat o; mMetaData := mMetaData o |}.

Definition set_mIOHandler (v : option URLProtocolHandler) (o : SourceImpl) :=
  {| mState := mState o; mNumStreams := mNumStreams o; mStreamInfoGotten := mStreamInfoGotten o;
     mReadRetryMax := mReadRetryMax o; mInputBufferLength := mInputBufferLength o;
     mIOHandler := v; mCtx := mCtx o; mStreams := mStreams o;
     mFormat := mFormat o; mMetaData := mMetaData o |}.

Definition set_mCtx (v : option AVFormatContext) (o : SourceImpl) :=
  {| mState := mState o; mNumStreams := mNumStreams o; mStreamInfoGotten := mStreamInfoGotten o;
     mReadRetryMax := mReadRetryMax o; mInputBufferLength := mInputBufferLength o;
     mIOHandler := mIOHandler o; mCtx := v; mStreams := mStreams o;
     mFormat := mFormat o; mMetaData := mMetaData o |}.

Definition set_mStreams (v : list SourceStreamImpl) (o : SourceImpl) :=
  {| mState := mState o; mNumStreams := mNumStreams o; mStreamInfoGotten := mStreamInfoGotten o;
     mReadRetryMax := mReadRetryMax o; mInputBufferLength := mInputBufferLength o;
     mIOHandler := mIOHandler o; mCtx := mCtx o; mStreams := v;
     mFormat := mFormat o; mMetaData := mMetaData o |}.

Definition set_mFormat (v : option SourceFormat) (o : SourceImpl) :=
  {| mState := mState o; mNumStreams := mNumStreams o; mStreamInfoGotten := mStreamInfoGotten o;
     mReadRetryMax := mReadRetryMax o; mInputBufferLength := mInputBufferLength o;
     mIOHandler := mIOHandler o; mCtx := mCtx o; mStreams := mStreams o;
     mFormat := v; mMetaData := mMetaData o |}.

Definition set_mMetaData (v : option KeyValueBagImpl) (o : SourceImpl) :=
  {| mState := mState o; mNumStreams := mNumStreams o; mStreamInfoGotten := mStreamInfoGotten o;
     mReadRetryMax := mReadRetryMax o; mInputBufferLength := mInputBufferLength o;
     mIOHandler := mIOHandler o; mCtx := mCtx o; mStreams := mStreams o;
     mFormat := mFormat o; mMetaData := v |}.

(** ** The environment *)

(** Everything the file calls and does not define: the demuxing library,
    the custom-I/O registry and handlers, the sibling classes, the platform
    constants and the interrupt-check macro.  Calls that depend on the outside
    world take the world and give it back. *)
Record Library : Type := {
  World : Type;
  (* constants of the library headers *)
  AVERROR_EAGAIN : int32;
  AVFMT_NOFILE : Z;
  AVFMT_FLAG_CUSTOM_IO : Z;
  AVFMTCTX_NOHEADER : Z;
  (* the macro VS_CHECK_INTERRUPT(retval, true): it may replace [retval]
     or raise *)
  VS_CHECK_INTERRUPT : World -> int32 -> Result int32 * World;
  (* libavformat / libavutil *)
  Global_init : World -> World;
  avformat_alloc_context : World -> option AVFormatContext * World;
  av_malloc : World -> int32 -> option Buffer * World;
  avio_alloc_context :
    World -> Buffer -> int32 -> URLProtocolHandler -> option AVIOContext * World;
  avformat_open_input :
    World -> option AVFormatContext -> string -> option AVInputFormat -> AVDictionary ->
    (int32 * option AVFormatContext * AVDictionary) * World;
  avformat_close_input : World -> option AVFormatContext -> World;
  av_read_frame :
    World -> AVFormatContext -> AVPacket -> (int32 * AVFormatContext * AVPacket) * World;
  avformat_find_stream_info : World -> AVFormatContext -> (int32 * AVFormatContext) * World;
  avformat_seek_file :
    World -> AVFormatContext -> int32 -> int64 -> int64 -> int64 -> int32 ->
    (int32 * AVFormatContext) * World;
  av_read_pause : World -> AVFormatContext -> (int32 * AVFormatContext) * World;
  av_read_play : World -> AVFormatContext -> (int32 * AVFormatContext) * World;
  avio_size : World -> option AVIOContext -> int64 * World;
  avio_flush : World -> AVIOContext -> World;
  (* custom I/O *)
  findHandler : World -> string -> option URLProtocolHandler * World;
  url_open : World -> URLProtocolHandler -> string -> int32 * World;
  url_close : World -> URLProtocolHandler -> int32 * World;
  (* sibling classes *)
  SourceStreamImpl_make : World -> AVStream -> option SourceStreamImpl * World;
  containerClosed : World -> SourceStreamImpl -> World;
  getTimeBase : World -> SourceStreamImpl -> option Rational * World;
  SourceFormat_make : option AVInputFormat -> option SourceFormat;
  KeyValueBagImpl_make : World -> AVDictionary -> option KeyValueBagImpl * World;
  reset : MediaPacketImpl -> int32 -> MediaPacketImpl
}.

(** The log of the calls made to the environment and to the packet argument,
    oldest first.  An entry carries the arguments and the result that the
    properties below speak about. *)
Inductive Call : Type :=
| call_Global_init
| call_avformat_alloc_context
| call_findHandler (url : string)
| call_av_malloc (size : int32)
| call_avio_alloc_context (size : int32)
| call_av_free
| call_av_dict_copy
| call_av_dict_free
| call_url_open (h : URLProtocolHandler) (url : string) (r : int32)
| call_avformat_open_input (url : string) (r : int32)
| call_KeyValueBag_copy (bag : KeyValueBagImpl) (tmp : AVDictionary)
| call_containerClosed (st : SourceStreamImpl)
| call_delete_stream (st : SourceStreamImpl)
| call_avformat_close_input
| call_avio_flush (io : AVIOContext)
| call_url_close (h : URLProtocolHandler) (r : int32)
| call_av_freep_buffer (io : AVIOContext)
| call_delete_handler (h : URLProtocolHandler)
| call_av_read_frame (r : int32)
| call_avformat_find_stream_info (r : int32)
| call_avio_size (r : int64)
| call_avformat_seek_file (stream_index : int32) (min_ts ts max_ts : int64) (flags : int32)
                          (r : int32)
| call_av_read_pause (r : int32)
| call_av_read_play (r : int32)
| call_SourceStreamImpl_make (st : option SourceStreamImpl)
| call_getTimeBase (st : SourceStreamImpl) (tb : option Rational)
| call_KeyValueBagImpl_make
| call_MediaPacketImpl_reset
| call_setComplete (complete : bool)
| call_setTimeBase (tb : Rational)
| call_VS_CHECK_INTERRUPT (retval : int32).

#[global] Instance Call_eq_dec : EqDecision Call.
Proof. solve_decision. Defined.

Section Source.

Context (L : Library).

(** The world, the log and the object: what a method call may change. *)
Record Sys : Type := { world : World L; calls : list Call; this : SourceImpl }.

Definition set_world (w : World L) (s : Sys) : Sys :=
  {| world := w; calls := calls s; this := this s |}.
Definition add_call (c : Call) (s : Sys) : Sys :=
  {| world := world s; calls := calls s ++ [c]; this := this s |}.
Definition set_this (o : SourceImpl) (s : Sys) : Sys :=
  {| world := world s; calls := calls s; this := o |}.

(** ** A state and exception monad for the methods *)

Definition M (A : Type) : Type := Sys -> Result A * Sys.

Definition ret {A} (a : A) : M A := fun s => (Returned a, s).

Definition bind {A B} (m : M A) (k : A -> M B) : M B :=
  fun s => match m s with
           | (Returned a, s') => k a s'
           | (Thrown e, s') => (Thrown e, s')
           | (Undefined, s') => (Undefined, s')
           end.

(** [VS_THROW(e)] and [throw e]. *)
Definition throw {A} (e : exn) : M A := fun s => (Thrown e, s).

Definition undefined {A} : M A := fun s => (Undefined, s).

(** Reading and writing the fields of the object. *)
Definition get {A} (f : SourceImpl -> A) : M A := fun s => (Returned (f (this s)), s).
Definition modify (f : SourceImpl -> SourceImpl) : M unit :=
  fun s => (Returned tt, set_this (f (this s)) s).

(** An external call with a result, logged. *)
Definition extern {A} (f : World L -> A * World L) (ev : A -> Call) : M A :=
  fun s => let '(a, w) := f (world s) in (Returned a, add_call (ev a) (set_world w s)).

(** An external call without result, logged. *)
Definition extern_ (f : World L -> World L) (ev : Call) : M unit :=
  fun s => (Returned tt, add_call ev (set_world (f (world s)) s)).

Definition log (ev : Call) : M unit := fun s => (Returned tt, add_call ev s).

(** Following a pointer that may be null. *)
Definition deref {A} (p : option A) : M A :=
  match p with Some a => ret a | None => undefined end.

End Source.

Arguments world {L} s.
Arguments calls {L} s.
Arguments this {L} s.
Arguments set_world {L} w s.
Arguments add_call {L} c s.
Arguments set_this {L} o s.
Arguments ret {L A} a.
Arguments bind {L A B} m k.
Arguments throw {L A} e.
Arguments undefined {L A}.
Arguments get {L A} f.
Arguments modify {L} f.
Arguments extern {L A} f ev.
Arguments extern_ {L} f ev.
Arguments log {L} ev.
Arguments deref {L A} p.

Declare Scope source_scope.
Delimit Scope source_scope with source.
Notation "'let*' x ':=' m 'in' k" := (bind m (fun x => k))
  (at level 10, x pattern, m at level 100, k at level 200) : source_scope.
Notation "m ';;' k" := (bind m (fun _ => k))
  (at level 100, k at level 200, right associativity) : source_scope.
Local Open Scope source_scope.

(** ** The methods of [SourceImpl] *)

Section Methods.

Context (L : Library).

Definition opened_playing_or_paused (st : State) : bool :=
  bool_decide (st = STATE_OPENED) || bool_decide (st = STATE_PLAYING)
  || bool_decide (st = STATE_PAUSED).

Definition closed_or_error (st : State) : bool :=
  bool_decide (st = STATE_CLOSED) || bool_decide (st = STATE_ERROR).

(** [VS_CHECK_INTERRUPT(retval, true)]: the macro is applied to the current
    value of [retval] and yields the value [retval] has afterwards. *)
Definition check_interrupt (retval : int32) : M L int32 :=
  fun s => let '(r, w) := VS_CHECK_INTERRUPT L (world s) retval in
           (r, add_call (call_VS_CHECK_INTERRUPT retval) (set_world w s)).

(** A write through the context pointer, [mCtx->field = v]. *)
Definition update_ctx (f : AVFormatContext -> AVFormatContext) : M L unit :=
  let* p := get mCtx in
  let* c := deref p in
  modify (set_mCtx (Some (f c))).

(** A read through the context pointer. *)
Definition the_ctx : M L AVFormatContext :=
  let* p := get mCtx in
  deref p.

(** [SourceImpl::SourceImpl()], lines 43-55. *)
Definition SourceImpl_ctor (w : World L) : Result (Sys L) :=
  match avformat_alloc_context L w with
  | (Some ctx, w') =>
      Returned
        {| world := w';
           calls := [call_avformat_alloc_context];
           this := {| mState := STATE_INITED;
                      mNumStreams := 0;
                      mStreamInfoGotten := false;
                      mReadRetryMax := 1;
                      mInputBufferLength := 2048;
                      mIOHandler := None;
                      mCtx := Some (set_interrupt_callback true ctx);
                      mStreams := [];
                      mFormat := None;
                      mMetaData := None |} |}
  | (None, _) => Thrown std_bad_alloc
  end.

(** [SourceImpl::make()], lines 80-86. *)
Definition make (w : World L) : Result (Sys L) :=
  match SourceImpl_ctor (Global_init L w) with
  | Returned s =>
      Returned {| world := world s; calls := call_Global_init :: calls s; this := this s |}
  | Thrown e => Thrown e
  | Undefined => Undefined
  end.

(** [SourceImpl::getFormatCtx()], lines 68-78: the pointer [mCtx], unless the
    state is CLOSED or ERROR. *)
Definition getFormatCtx : M L (option AVFormatContext) :=
  let* st := get mState in
  if closed_or_error st
  then throw (runtime_error_copy "Method called on Source in CLOSED or ERROR state.")
  else get mCtx.

(** [SourceImpl::doCloseFileHandles(pb)], lines 251-267. *)
Definition doCloseFileHandles (io : option AVIOContext) : M L int32 :=
  let* h := get mIOHandler in
  match h with
  | Some handler =>
      (match io with
       | Some p => extern_ (fun w => avio_flush L w p) (call_avio_flush p)
       | None => ret tt
       end) ;;
      let* retval := extern (fun w => url_close L w handler) (call_url_close handler) in
      (match io with
       | Some p => log (call_av_freep_buffer p)
       | None => ret tt
       end) ;;
      log call_av_free ;;
      log (call_delete_handler handler) ;;
      modify (set_mIOHandler None) ;;
      ret retval
  | None => ret 0
  end.

(** [SourceImpl::doOpen(url, options)], lines 522-543.  The library call
    receives the address of [mCtx] and of the options dictionary and may
    replace both. *)
Definition doOpen (url : string) (options : AVDictionary) : M L (int32 * AVDictionary) :=
  let* ctx := getFormatCtx in
  let* h := get mIOHandler in
  let* retval :=
    match h with
    | Some handler => extern (fun w => url_open L w handler url) (call_url_open handler url)
    | None => ret 0
    end in
  if retval >=? 0 then
    let* c := deref ctx in
    let io := pb c in
    let* res :=
      extern (fun w => avformat_open_input L w (Some c) url (iformat c) options)
             (fun res => call_avformat_open_input url (fst (fst res))) in
    let '(retval, ctx', options') := res in
    modify (set_mCtx ctx') ;;
    if retval <? 0 then
      doCloseFileHandles io ;;
      ret (retval, options')
    else ret (retval, options')
  else ret (retval, options).

(** The first stream whose time base has a non-zero numerator and
    denominator (first loop of [doSetupSourceStreams]). *)
Fixpoint find_goodTimebase (l : list (option AVStream)) : option AVRational :=
  match l with
  | [] => None
  | Some avStream :: l' =>
      if negb (num (time_base avStream) =? 0) && negb (den (time_base avStream) =? 0)
      then Some (time_base avStream)
      else find_goodTimebase l'
  | None :: l' => find_goodTimebase l'
  end.

(** The second loop of [doSetupSourceStreams], lines 564-599: [n] iterations
    are left and [i] is the loop variable. *)
Fixpoint setup_new_streams (goodTimebase : option AVRational) (n : nat) (i : Z) : M L unit :=
  match n with
  | O => ret tt
  | S n' =>
      let* p := get mCtx in
      let* c := deref p in
      (match streams c !! Z.to_nat i with
       | Some (Some avStream) =>
           let avStream' :=
             match goodTimebase with
             | Some tb =>
                 if (num (time_base avStream) =? 0) || (den (time_base avStream) =? 0)
                 then {| time_base := tb |}
                 else avStream
             | None => avStream
             end in
           update_ctx (fun c => set_streams (<[Z.to_nat i := Some avStream']> (streams c)) c) ;;
           let* stream :=
             extern (fun w => SourceStreamImpl_make L w avStream') call_SourceStreamImpl_make in
           match stream with
           | Some st =>
               let* v := get mStreams in
               modify (set_mStreams (v ++ [st])) ;;
               let* k := get mNumStreams in
               modify (set_mNumStreams (wrap32 (k + 1)))
           | None => ret tt
           end
       | _ => ret tt
       end) ;;
      setup_new_streams goodTimebase n' (i + 1)
  end.

(** [SourceImpl::doSetupSourceStreams()], lines 545-602. *)
Definition doSetupSourceStreams : M L int32 :=
  let* p := get mCtx in
  let* c := deref p in
  let* k := get mNumStreams in
  if bool_decide (k = wrap32 (nb_streams c)) then ret 0
  else
    let goodTimebase := find_goodTimebase (streams c) in
    let i := to_uint32 k in
    setup_new_streams goodTimebase (Z.to_nat (nb_streams c - i)) i ;;
    ret (-1).

(** The statement shared by [getNumStreams] and [getSourceStream]:
    [if ((int32_t) mCtx->nb_streams != mNumStreams) doSetupSourceStreams();] *)
Definition sync_streams : M L unit :=
  let* p := get mCtx in
  let* c := deref p in
  let* k := get mNumStreams in
  if bool_decide (wrap32 (nb_streams c) = k) then ret tt
  else doSetupSourceStreams ;; ret tt.

(** [SourceImpl::queryStreamMetaData()], lines 342-366. *)
Definition queryStreamMetaData : M L int32 :=
  let* st := get mState in
  if negb (opened_playing_or_paused st) then
    throw (HumbleRuntimeError
      "Attempt to query stream information from container when not opened, playing or paused")
  else
    let* gotten := get mStreamInfoGotten in
    let* retval :=
      if negb gotten then
        let* ctx := getFormatCtx in
        let* c := deref ctx in
        let* res := extern (fun w => avformat_find_stream_info L w c)
                           (fun res => call_avformat_find_stream_info (fst res)) in
        modify (set_mCtx (Some (snd res))) ;;
        (if fst res >=? 0 then modify (set_mStreamInfoGotten true) else ret tt) ;;
        ret (fst res)
      else ret 0 in
    let* found :=
      if retval >=? 0 then
        let* c := the_ctx in
        ret (nb_streams c >? 0)
      else ret false in
    (if found
     then doSetupSourceStreams ;; ret tt
     else ret tt) ;;
    check_interrupt retval.

(** Lines 145-176 of [open]: from the options to the end. *)
Definition open_tail (url : string) (oldFormat : option AVInputFormat)
    (streamsCanBeAddedDynamically queryMetaData : bool)
    (options : option AVDictionary) (optionsNotSet : option KeyValueBagImpl) : M L int32 :=
  let* tmp :=
    match options with
    | Some d => log call_av_dict_copy ;; ret d
    | None => ret []
    end in
  let* res := doOpen url tmp in
  let '(retval, tmp) := res in
  let* retval := check_interrupt retval in
  let* retval :=
    if retval >=? 0 then
      modify (set_mState STATE_OPENED) ;;
      let* c := the_ctx in
      (if bool_decide (oldFormat <> iformat c)
       then modify (set_mFormat (SourceFormat_make L (iformat c)))
       else ret tt) ;;
      (if streamsCanBeAddedDynamically
       then update_ctx (fun c => set_ctx_flags (Z.lor (ctx_flags c) (AVFMTCTX_NOHEADER L)) c)
       else ret tt) ;;
      (match optionsNotSet with
       | Some bag => log (call_KeyValueBag_copy bag tmp)
       | None => ret tt
       end) ;;
      if queryMetaData then queryStreamMetaData else ret retval
    else ret retval in
  (if bool_decide (tmp <> []) then log call_av_dict_free else ret tt) ;;
  (if retval <? 0 then modify (set_mState STATE_ERROR) else ret tt) ;;
  ret retval.

(** [SourceImpl::open], lines 88-177.  [url] is [None] for a null pointer;
    [options] is the dictionary of the bag when the bag is a
    [KeyValueBagImpl]; [optionsNotSet] likewise.  The local [ctx] and [mCtx]
    name the same context. *)
Definition open (url : option string) (format : option SourceFormat)
    (streamsCanBeAddedDynamically queryMetaData : bool)
    (options : option AVDictionary) (optionsNotSet : option KeyValueBagImpl) : M L int32 :=
  let* ctx := getFormatCtx in
  let retval := -1 in
  let* st := get mState in
  if bool_decide (st <> STATE_INITED) then ret retval
  else
    match url with
    | None => ret retval
    | Some u =>
        if bool_decide (u = EmptyString) then ret retval
        else
          (match format with
           | Some f => modify (set_mFormat (Some f)) ;; update_ctx (set_iformat (getCtx f))
           | None => ret tt
           end) ;;
          let* c := the_ctx in
          let oldFormat := iformat c in
          let* h := extern (fun w => findHandler L w u) (fun _ => call_findHandler u) in
          modify (set_mIOHandler h) ;;
          match h with
          | Some handler =>
              update_ctx (fun c => set_flags (Z.lor (flags c) (AVFMT_FLAG_CUSTOM_IO L)) c) ;;
              let* len := get mInputBufferLength in
              let* buffer := extern (fun w => av_malloc L w len) (fun _ => call_av_malloc len) in
              match buffer with
              | None => modify (set_mState STATE_ERROR) ;; ret retval
              | Some b =>
                  let* io := extern (fun w => avio_alloc_context L w b len handler)
                                    (fun _ => call_avio_alloc_context len) in
                  update_ctx (set_pb io) ;;
                  match io with
                  | None =>
                      log call_av_free ;;
                      modify (set_mState STATE_ERROR) ;;
                      ret retval
                  | Some _ =>
                      open_tail u oldFormat streamsCanBeAddedDynamically queryMetaData
                                options optionsNotSet
                  end
              end
          | None =>
              open_tail u oldFormat streamsCanBeAddedDynamically queryMetaData
                        options optionsNotSet
          end
    end.

(** [SourceImpl::setInputBufferLength], lines 179-186. *)
Definition setInputBufferLength (size : int32) : M L unit :=
  if size <=? 0 then throw (HumbleInvalidArgument "size <= 0")
  else
    let* st := get mState in
    if bool_decide (st <> STATE_INITED)
    then throw (HumbleRuntimeError "Source object has already been opened")
    else modify (set_mInputBufferLength size).

(** [SourceImpl::getInputBufferLength], lines 188-191. *)
Definition getInputBufferLength : M L int32 := get mInputBufferLength.

(** [SourceImpl::getNumStreams], lines 193-207. *)
Definition getNumStreams : M L int32 :=
  let* st := get mState in
  if negb (opened_playing_or_paused st) then
    throw (HumbleRuntimeError
      "Attempt to query number of streams in source when not opened, playing or paused is ignored")
  else
    sync_streams ;;
    let* retval := get mNumStreams in
    check_interrupt retval.

(** [SourceImpl::getURL], lines 425-428. *)
Definition getURL : M L string :=
  let* ctx := getFormatCtx in
  let* c := deref ctx in
  ret (filename c).

(** The loop of [close], lines 219-229: while the vector is not empty, tell
    its last stream that the container closes, release it and pop it.
    [n] bounds the iterations; [close] passes the size of the vector. *)
Fixpoint close_streams (n : nat) : M L unit :=
  match n with
  | O => ret tt
  | S n' =>
      let* v := get mStreams in
      match last v with
      | Some stream =>
          extern_ (fun w => containerClosed L w stream) (call_containerClosed stream) ;;
          log (call_delete_stream stream) ;;
          modify (set_mStreams (removelast v)) ;;
          close_streams n'
      | None => ret tt
      end
  end.

(** [SourceImpl::close], lines 209-249.  The argument [getURL()] of the error
    message on line 242 is evaluated after [mCtx] was cleared on line 238. *)
Definition close : M L int32 :=
  let* st := get mState in
  if negb (opened_playing_or_paused st) then
    throw (HumbleRuntimeError "Attempt to close container when not opened, playing or paused")
  else
    let* v := get mStreams in
    close_streams (length v) ;;
    modify (set_mNumStreams 0) ;;
    let* ctx := getFormatCtx in
    let* c := deref ctx in
    let io := pb c in
    let* p := get mCtx in
    extern_ (fun w => avformat_close_input L w p) call_avformat_close_input ;;
    modify (set_mCtx None) ;;
    let* retval := doCloseFileHandles io in
    (if retval <? 0 then
       getURL ;;
       modify (set_mState STATE_ERROR)
     else ret tt) ;;
    let* st := get mState in
    (if bool_decide (st <> STATE_ERROR) then modify (set_mState STATE_CLOSED) else ret tt) ;;
    ret retval.

(** [std::vector::at] with an [int32_t] index. *)
Definition vector_at {A} (v : list A) (position : int32) : M L A :=
  match v !! Z.to_nat (to_size_t position) with
  | Some a => ret a
  | None => throw std_out_of_range
  end.

(** [SourceImpl::getSourceStream], lines 269-288; [None] is the null
    pointer. *)
Definition getSourceStream (position : int32) : M L (option SourceStreamImpl) :=
  let* st := get mState in
  if negb (opened_playing_or_paused st) then
    throw (HumbleRuntimeError
      "Attempt to get source stream from source when not opened, playing or paused is ignored")
  else
    sync_streams ;;
    let* k := get mNumStreams in
    if position <? k then
      let* v := get mStreams in
      let* p := vector_at v position in
      ret (Some p)
    else ret None.

(** The loop of [read], lines 301-308.  The library may report EAGAIN for
    ever, so the loop is given [fuel] iterations and yields [None] when they
    are used up.  The packet is handed back in every case. *)
Fixpoint read_frames (fuel : nat) (packet : AVPacket) (numReads : int32) (s : Sys L)
  : option (Result int32 * AVPacket * Sys L) :=
  match fuel with
  | O => None
  | S fuel' =>
      match getFormatCtx s with
      | (Returned (Some c), s1) =>
          let '((retval, c', packet'), w') := av_read_frame L (world s1) c packet in
          let s2 := add_call (call_av_read_frame retval)
                      (set_world w' (set_this (set_mCtx (Some c') (this s1)) s1)) in
          let numReads' := wrap32 (numReads + 1) in
          if bool_decide (retval = AVERROR_EAGAIN L)
             && ((mReadRetryMax (this s2) <? 0) || (numReads' <=? mReadRetryMax (this s2)))
          then read_frames fuel' packet' numReads' s2
          else Some (Returned retval, packet', s2)
      | (Returned None, s1) => Some (Undefined, packet, s1)
      | (Thrown e, s1) => Some (Thrown e, packet, s1)
      | (Undefined, s1) => Some (Undefined, packet, s1)
      end
  end.

(** Lines 323-334 of [read]: the time base of the packet's stream, if known. *)
Definition set_packet_time_base (pkt : MediaPacketImpl) : M L MediaPacketImpl :=
  if getStreamIndex pkt >=? 0 then
    let* stream := getSourceStream (getStreamIndex pkt) in
    match stream with
    | Some st =>
        let* streamBase := extern (fun w => getTimeBase L w st) (call_getTimeBase st) in
        match streamBase with
        | Some tb => log (call_setTimeBase tb) ;; ret (setTimeBase tb pkt)
        | None => ret pkt
        end
    | None => ret pkt
    end
  else ret pkt.

(** [SourceImpl::read], lines 290-340.  [ipkt] is [None] for a null pointer.
    The result comes with the packet argument as the call leaves it. *)
Definition read (fuel : nat) (ipkt : option MediaPacket) (s : Sys L)
  : option (Result int32 * option MediaPacket * Sys L) :=
  match ipkt with
  | Some (IsMediaPacketImpl pkt) =>
      let pkt := reset L pkt 0 in
      let s := add_call call_MediaPacketImpl_reset s in
      let pkt := setComplete false (getSize pkt) pkt in
      let s := add_call (call_setComplete false) s in
      match read_frames fuel (mPacket pkt) 0 s with
      | None => None
      | Some (Returned retval, packet, s1) =>
          let pkt := with_packet packet pkt in
          if retval >=? 0 then
            match set_packet_time_base pkt s1 with
            | (Returned pkt', s2) =>
                let pkt' := setComplete true (getSize pkt') pkt' in
                let s2 := add_call (call_setComplete true) s2 in
                let '(r, s3) := check_interrupt retval s2 in
                Some (r, Some (IsMediaPacketImpl pkt'), s3)
            | (Thrown e, s2) => Some (Thrown e, Some (IsMediaPacketImpl pkt), s2)
            | (Undefined, s2) => Some (Undefined, Some (IsMediaPacketImpl pkt), s2)
            end
          else
            let '(r, s2) := check_interrupt retval s1 in
            Some (r, Some (IsMediaPacketImpl pkt), s2)
      | Some (Thrown e, packet, s1) =>
          Some (Thrown e, Some (IsMediaPacketImpl (with_packet packet pkt)), s1)
      | Some (Undefined, packet, s1) =>
          Some (Undefined, Some (IsMediaPacketImpl (with_packet packet pkt)), s1)
      end
  | other =>
      let '(r, s1) := check_interrupt (-1) s in
      Some (r, other, s1)
  end.

(** [SourceImpl::getDuration], lines 368-371. *)
Definition getDuration : M L int64 :=
  let* ctx := getFormatCtx in
  let* c := deref ctx in
  ret (duration c).

(** [SourceImpl::getStartTime], lines 373-376. *)
Definition getStartTime : M L int64 :=
  let* ctx := getFormatCtx in
  let* c := deref ctx in
  ret (start_time c).

(** The condition of line 382:
    [ctx->iformat && (ctx->iformat->flags & AVFMT_NOFILE)]. *)
Definition no_file (c : AVFormatContext) : bool :=
  match iformat c with
  | Some f => negb (Z.land (if_flags f) (AVFMT_NOFILE L) =? 0)
  | None => false
  end.

(** [SourceImpl::getFileSize], lines 378-389. *)
Definition getFileSize : M L int64 :=
  let* ctx := getFormatCtx in
  let* c := deref ctx in
  if no_file c
  then ret 0
  else
    let* retval := extern (fun w => avio_size L w (pb c)) call_avio_size in
    ret (FFMAX 0 retval).

(** [SourceImpl::getBitRate], lines 391-394. *)
Definition getBitRate : M L int32 :=
  let* ctx := getFormatCtx in
  let* c := deref ctx in
  ret (bit_rate c).

(** [SourceImpl::getFlags], lines 396-400. *)
Definition getFlags : M L int32 :=
  let* ctx := getFormatCtx in
  let* c := deref ctx in
  ret (flags c).

(** [SourceImpl::setFlags], lines 402-408. *)
Definition setFlags (newFlags : int32) : M L unit :=
  let* ctx := getFormatCtx in
  update_ctx (set_flags newFlags) ;;
  let* h := get mIOHandler in
  match h with
  | Some _ => update_ctx (fun c => set_flags (Z.lor (flags c) (AVFMT_FLAG_CUSTOM_IO L)) c)
  | None => ret tt
  end.

(** [SourceImpl::getFlag], lines 410-413. *)
Definition getFlag (flag : Z) : M L bool :=
  let* ctx := getFormatCtx in
  let* c := deref ctx in
  ret (negb (Z.land (flags c) flag =? 0)).

(** [SourceImpl::setFlag], lines 415-423. *)
Definition setFlag (flag : Z) (value : bool) : M L unit :=
  let* ctx := getFormatCtx in
  if value
  then update_ctx (fun c => set_flags (Z.lor (flags c) flag) c)
  else update_ctx (fun c => set_flags (Z.land (flags c) (Z.lnot flag)) c).

(** [SourceImpl::getReadRetryCount], lines 430-433. *)
Definition getReadRetryCount : M L int32 := get mReadRetryMax.

(** [SourceImpl::setReadRetryCount], lines 435-439. *)
Definition setReadRetryCount (count : int32) : M L unit :=
  if count >=? 0 then modify (set_mReadRetryMax count) else ret tt.

(** [SourceImpl::canStreamsBeAddedDynamically], lines 441-444. *)
Definition canStreamsBeAddedDynamically : M L bool :=
  let* ctx := getFormatCtx in
  let* c := deref ctx in
  ret (negb (Z.land (ctx_flags c) (AVFMTCTX_NOHEADER L) =? 0)).

(** [SourceImpl::getMetaData], lines 446-451. *)
Definition getMetaData : M L (option KeyValueBagImpl) :=
  let* m := get mMetaData in
  (match m with
   | None =>
       let* ctx := getFormatCtx in
       let* c := deref ctx in
       let* bag := extern (fun w => KeyValueBagImpl_make L w (metadata c))
                          (fun _ => call_KeyValueBagImpl_make) in
       modify (set_mMetaData bag)
   | Some _ => ret tt
   end) ;;
  get mMetaData.

(** [SourceImpl::setForcedAudioCodec], lines 453-457. *)
Definition setForcedAudioCodec (id : Z) : M L int32 :=
  let* ctx := getFormatCtx in
  update_ctx (set_audio_codec_id id) ;;
  ret 0.

(** [SourceImpl::setForcedVideoCodec], lines 459-463. *)
Definition setForcedVideoCodec (id : Z) : M L int32 :=
  let* ctx := getFormatCtx in
  update_ctx (set_video_codec_id id) ;;
  ret 0.

(** [SourceImpl::setForcedSubtitleCodec], lines 465-469. *)
Definition setForcedSubtitleCodec (id : Z) : M L int32 :=
  let* ctx := getFormatCtx in
  update_ctx (set_subtitle_codec_id id) ;;
  ret 0.

(** [SourceImpl::getMaxDelay], lines 471-474. *)
Definition getMaxDelay : M L int32 :=
  let* ctx := getFormatCtx in
  let* c := deref ctx in
  ret (max_delay c).

(** [SourceImpl::seek], lines 476-493. *)
Definition seek (stream_index : int32) (min_ts ts max_ts : int64) (flags : int32) : M L int32 :=
  let* st := get mState in
  if bool_decide (st <> STATE_OPENED) then
    throw (HumbleRuntimeError "Can only seek on OPEN (not paused or playing) sources")
  else
    let* ctx := getFormatCtx in
    let* c := deref ctx in
    let* res :=
      extern (fun w => avformat_seek_file L w c stream_index min_ts ts max_ts flags)
             (fun res => call_avformat_seek_file stream_index min_ts ts max_ts flags (fst res)) in
    modify (set_mCtx (Some (snd res))) ;;
    check_interrupt (fst res).

(** [SourceImpl::pause], lines 495-506. *)
Definition pause : M L int32 :=
  let* st := get mState in
  if bool_decide (st <> STATE_PLAYING) then
    throw (HumbleRuntimeError "Can only pause containers in PLAYING state.")
  else
    let* ctx := getFormatCtx in
    let* c := deref ctx in
    let* res := extern (fun w => av_read_pause L w c) (fun res => call_av_read_pause (fst res)) in
    modify (set_mCtx (Some (snd res))) ;;
    let* retval := check_interrupt (fst res) in
    (if retval >=? 0 then modify (set_mState STATE_PAUSED) else ret tt) ;;
    ret retval.

(** [SourceImpl::play], lines 508-520. *)
Definition play : M L int32 :=
  let* st := get mState in
  if bool_decide (st <> STATE_PAUSED) || bool_decide (st <> STATE_OPENED) then
    throw (HumbleRuntimeError "Can only play containers in OPENED or PAUSED states")
  else
    let* ctx := getFormatCtx in
    let* c := deref ctx in
    let* res := extern (fun w => av_read_play L w c) (fun res => call_av_read_play (fst res)) in
    modify (set_mCtx (Some (snd res))) ;;
    let* retval := check_interrupt (fst res) in
    (if retval >=? 0 then modify (set_mState STATE_PLAYING) else ret tt) ;;
    ret retval.

(** ** The public interface as a transition system *)

(** One call of a public method, with its arguments. *)
Inductive Op : Type :=
| op_open (url : option string) (format : option SourceFormat)
          (streamsCanBeAddedDynamically queryMetaData : bool)
          (options : option AVDictionary) (optionsNotSet : option KeyValueBagImpl)
| op_setInputBufferLength (size : int32)
| op_getInputBufferLength
| op_getNumStreams
| op_close
| op_getSourceStream (position : int32)
| op_read (ipkt : option MediaPacket)
| op_queryStreamMetaData
| op_getDuration
| op_getStartTime
| op_getFileSize
| op_getBitRate
| op_getFlags
| op_setFlags (newFlags : int32)
| op_getFlag (flag : Z)
| op_setFlag (flag : Z) (value : bool)
| op_getURL
| op_getReadRetryCount
| op_setReadRetryCount (count : int32)
| op_canStreamsBeAddedDynamically
| op_getMetaData
| op_setForcedAudioCodec (id : Z)
| op_setForcedVideoCodec (id : Z)
| op_setForcedSubtitleCodec (id : Z)
| op_getMaxDelay
| op_seek (stream_index : int32) (min_ts ts max_ts : int64) (flags : int32)
| op_pause
| op_play.

(** How a call ended, without its value. *)
Inductive Ending : Type :=
| Ret_int (r : Z)
| Ret_other
| Raised (e : exn)
| Crashed.

Definition ending_int (r : Result Z) : Ending :=
  match r with Returned z => Ret_int z | Thrown e => Raised e | Undefined => Crashed end.

Definition ending_other {A} (r : Result A) : Ending :=
  match r with Returned _ => Ret_other | Thrown e => Raised e | Undefined => Crashed end.

Definition run_int (m : M L Z) (s : Sys L) : option (Ending * Sys L) :=
  let '(r, s') := m s in Some (ending_int r, s').

Definition run_other {A} (m : M L A) (s : Sys L) : option (Ending * Sys L) :=
  let '(r, s') := m s in Some (ending_other r, s').

(** [run fuel op s]: the call [op] on the object in [s]. *)
Definition run (fuel : nat) (op : Op) (s : Sys L) : option (Ending * Sys L) :=
  match op with
  | op_open url format dyn qmd options optionsNotSet =>
      run_int (open url format dyn qmd options optionsNotSet) s
  | op_setInputBufferLength size => run_other (setInputBufferLength size) s
  | op_getInputBufferLength => run_int getInputBufferLength s
  | op_getNumStreams => run_int getNumStreams s
  | op_close => run_int close s
  | op_getSourceStream position => run_other (getSourceStream position) s
  | op_read ipkt =>
      match read fuel ipkt s with
      | Some (r, _, s') => Some (ending_int r, s')
      | None => None
      end
  | op_queryStreamMetaData => run_int queryStreamMetaData s
  | op_getDuration => run_int getDuration s
  | op_getStartTime => run_int getStartTime s
  | op_getFileSize => run_int getFileSize s
  | op_getBitRate => run_int getBitRate s
  | op_getFlags => run_int getFlags s
  | op_setFlags newFlags => run_other (setFlags newFlags) s
  | op_getFlag flag => run_other (getFlag flag) s
  | op_setFlag flag value => run_other (setFlag flag value) s
  | op_getURL => run_other getURL s
  | op_getReadRetryCount => run_int getReadRetryCount s
  | op_setReadRetryCount count => run_other (setReadRetryCount count) s
  | op_canStreamsBeAddedDynamically => run_other canStreamsBeAddedDynamically s
  | op_getMetaData => run_other getMetaData s
  | op_setForcedAudioCodec id => run_int (setForcedAudioCodec id) s
  | op_setForcedVideoCodec id => run_int (setForcedVideoCodec id) s
  | op_setForcedSubtitleCodec id => run_int (setForcedSubtitleCodec id) s
  | op_getMaxDelay => run_int getMaxDelay s
  | op_seek stream_index min_ts ts max_ts flags =>
      run_int (seek stream_index min_ts ts max_ts flags) s
  | op_pause => run_int pause s
  | op_play => run_int play s
  end.

(** The states of an object made by [make] and then used through its public
    methods.  A call that ran into undefined behaviour ends the run. *)
Inductive reachable : Sys L -> Prop :=
| reach_make w s :
    make w = Returned s ->
    reachable s
| reach_run s fuel op e s' :
    reachable s ->
    run fuel op s = Some (e, s') ->
    e <> Crashed ->
    reachable s'.

End Methods.

Arguments reachable L s : clear implicits.

(** ** Vocabulary of the properties *)

Section Vocabulary.

Context (L : Library).

(** [keeps f m]: the computation [m] leaves the field [f] of the object as
    it is, however it ends. *)
Definition keeps {A B} (f : SourceImpl -> B) (m : M L A) : Prop :=
  forall s r s', m s = (r, s') -> f (this s') = f (this s).

(** A field that the setters of the other fields leave alone; [mState] and
    [mReadRetryMax] are the two that matter below. *)
Definition independent {B} (f : SourceImpl -> B) : Prop :=
  (forall v o, f (set_mNumStreams v o) = f o) /\
  (forall v o, f (set_mStreamInfoGotten v o) = f o) /\
  (forall v o, f (set_mInputBufferLength v o) = f o) /\
  (forall v o, f (set_mIOHandler v o) = f o) /\
  (forall v o, f (set_mCtx v o) = f o) /\
  (forall v o, f (set_mStreams v o) = f o) /\
  (forall v o, f (set_mFormat v o) = f o) /\
  (forall v o, f (set_mMetaData v o) = f o).

(** [nothrow m]: the computation [m] raises no exception. *)
Definition nothrow {A} (m : M L A) : Prop := forall s e s', m s <> (Thrown e, s').

(** The exception [e] is one that the interrupt check raises. *)
Definition raised_by_check (e : exn) : Prop :=
  exists w x w', VS_CHECK_INTERRUPT L w x = (Thrown e, w').

(** The interrupt check raises nothing. *)
Definition check_never_raises : Prop :=
  forall w x e w', VS_CHECK_INTERRUPT L w x <> (Thrown e, w').

(** No interrupt is pending: the check leaves [retval] as it is. *)
Definition check_passes (w : World L) (retval : int32) : Prop :=
  fst (VS_CHECK_INTERRUPT L w retval) = Returned retval.

(** The context pointer is not null. *)
Definition live (s : Sys L) : Prop := mCtx (this s) <> None.

(** The stream wrappers are counted by [mNumStreams]. *)
Definition streams_ok (o : SourceImpl) : Prop :=
  Z.of_nat (length (mStreams o)) = mNumStreams o /\ mNumStreams o <= INT32_MAX.

(** The library keeps the number of streams of a context within [int32_t]
    when it reads a frame. *)
Definition read_keeps_streams_bounded : Prop :=
  forall w c p,
    nb_streams c <= INT32_MAX ->
    nb_streams (snd (fst (fst (av_read_frame L w c p)))) <= INT32_MAX.

(** [silent g m]: the computation [m] adds nothing to what [g] collects
    from the log. *)
Definition silent {A B} (g : list Call -> B) (m : M L A) : Prop :=
  forall s r s', m s = (r, s') -> g (calls s') = g (calls s).

(** [appends p m]: the computation [m] only adds to the log, and what it
    adds satisfies [p]. *)
Definition appends {A} (p : Call -> bool) (m : M L A) : Prop :=
  forall s r s', m s = (r, s') -> exists l, calls s' = calls s ++ l /\ forallb p l = true.

Definition is_make (ev : Call) : bool :=
  match ev with
  | call_SourceStreamImpl_make _ => true
  | _ => false
  end.

(** The results of the library reads in a log. *)
Fixpoint reads (l : list Call) : list int32 :=
  match l with
  | [] => []
  | call_av_read_frame r :: l' => r :: reads l'
  | _ :: l' => reads l'
  end.

(** The results of the stream-info queries in a log. *)
Fixpoint stream_info_queries (l : list Call) : list int32 :=
  match l with
  | [] => []
  | call_avformat_find_stream_info r :: l' => r :: stream_info_queries l'
  | _ :: l' => stream_info_queries l'
  end.

Definition is_read (ev : Call) : bool :=
  match ev with
  | call_av_read_frame _ => true
  | _ => false
  end.

Definition is_stream_info_query (ev : Call) : bool :=
  match ev with
  | call_avformat_find_stream_info _ => true
  | _ => false
  end.

(** What [close] logs for the stream wrappers [v]: from the last to the
    first, the notice that the container closes and the release. *)
Definition closing_calls (v : list SourceStreamImpl) : list Call :=
  flat_map (fun st => [call_containerClosed st; call_delete_stream st]) (rev v).

(** The world after these notices. *)
Definition closing_world (w : World L) (v : list SourceStreamImpl) : World L :=
  fold_left (containerClosed L) (rev v) w.

(** The lifecycle: the changes of state a call of the public interface may
    make, by the way the call ends. *)
Inductive transition : Op -> Ending -> State -> State -> Prop :=
| tr_none op e st :
    transition op e st st
| tr_open url format dyn qmd options optionsNotSet r :
    0 <= r ->
    transition (op_open url format dyn qmd options optionsNotSet) (Ret_int r)
               STATE_INITED STATE_OPENED
| tr_open_failed url format dyn qmd options optionsNotSet r :
    r < 0 ->
    transition (op_open url format dyn qmd options optionsNotSet) (Ret_int r)
               STATE_INITED STATE_ERROR
| tr_close st r :
    opened_playing_or_paused st = true ->
    0 <= r ->
    transition op_close (Ret_int r) st STATE_CLOSED
| tr_close_failed st r :
    opened_playing_or_paused st = true ->
    r < 0 ->
    transition op_close (Ret_int r) st STATE_ERROR
| tr_pause r :
    0 <= r ->
    transition op_pause (Ret_int r) STATE_PLAYING STATE_PAUSED
| tr_play st r :
    st = STATE_OPENED \/ st = STATE_PAUSED ->
    0 <= r ->
    transition op_play (Ret_int r) st STATE_PLAYING.

End Vocabulary.

Arguments keeps {L A B} f m.
Arguments nothrow {L A} m.
Arguments live {L} s.
Arguments silent {L A B} g m.
Arguments appends {L A} p m.

(** ** The destructor *)

Section Teardown.

Context (L : Library).

(** [avformat_free_context] of the demuxing library, which only the
    destructor calls. *)
Variable avformat_free_context : World L -> AVFormatContext -> World L.

(** [SourceImpl::~SourceImpl()], lines 57-67.  The argument [getURL()] of
    the error message is evaluated before [close] is called.  The result is
    the context handed to [avformat_free_context], if any. *)
Definition SourceImpl_dtor : M L (option AVFormatContext) :=
  let* st := get mState in
  (if opened_playing_or_paused st then
     getURL L ;;
     close L ;;
     ret tt
   else ret tt) ;;
  let* p := get mCtx in
  match p with
  | Some c =>
      fun s => (Returned (Some c), set_world (avformat_free_context (world s) c) s)
  | None => ret None
  end.

End Teardown.

(** ** Vocabulary of the invariants *)

Section Invariants.

Context (L : Library).

(** [preserves P m]: a property [P] of the object that holds before the
    computation [m] holds after it, however [m] ends. *)
Definition preserves {A} (P : SourceImpl -> Prop) (m : M L A) : Prop :=
  forall s r s', m s = (r, s') -> P (this s) -> P (this s').

(** The message of the exception of [getFormatCtx]. *)
Definition closed_message : string := "Method called on Source in CLOSED or ERROR state.".

(** The calls that cannot change an object in state CLOSED or ERROR but do
    not raise there either: the accessors of the fields that live outside the
    context, and [read], which hands its argument to the interrupt check when
    it is no [MediaPacketImpl]. *)
Definition answers_when_closed (op : Op) : bool :=
  match op with
  | op_getInputBufferLength | op_getReadRetryCount | op_setReadRetryCount _
  | op_getMetaData | op_read _ => true
  | _ => false
  end.

(** The calls that write the state of the object. *)
Definition moves_state (op : Op) : bool :=
  match op with
  | op_open _ _ _ _ _ _ | op_close | op_pause | op_play => true
  | _ => false
  end.

(** An object that holds nothing of the library any more: no context, no
    stream wrapper, no custom I/O handler. *)
Definition released (o : SourceImpl) : Prop :=
  mCtx o = None /\ mStreams o = [] /\ mNumStreams o = 0 /\ mIOHandler o = None.

(** What lines 569-572 of [doSetupSourceStreams] make of an entry of the
    stream table: a stream whose time base has a zero numerator or
    denominator gets the good time base, if one was found. *)
Definition with_good_timebase (goodTimebase : option AVRational) (entry : option AVStream)
  : option AVStream :=
  match entry, goodTimebase with
  | Some avStream, Some tb =>
      if (num (time_base avStream) =? 0) || (den (time_base avStream) =? 0)
      then Some {| time_base := tb |}
      else Some avStream
  | _, _ => entry
  end.

(** [SourceStreamImpl::make] called on the streams [l] one after the other:
    what the calls give, in that order, and the world after the last one. *)
Fixpoint make_all (w : World L) (l : list AVStream)
  : list (option SourceStreamImpl) * World L :=
  match l with
  | [] => ([], w)
  | avStream :: l' =>
      let '(stream, w1) := SourceStreamImpl_make L w avStream in
      let '(made, w2) := make_all w1 l' in
      (stream :: made, w2)
  end.

(** The stream count is the number of stream wrappers, as an [int32_t]. *)
Definition counted (o : SourceImpl) : Prop :=
  mNumStreams o = wrap32 (Z.of_nat (length (mStreams o))).

(** A library whose read reports EAGAIN whatever it is given. *)
Definition always_busy : Prop :=
  forall w c p, fst (fst (fst (av_read_frame L w c p))) = AVERROR_EAGAIN L.

End Invariants.

Arguments preserves {L A} P m.

(** ** A scripted library

    A small instance of [Library] to run the methods on: the world is a
    script of result codes, and every call that reports a status takes the
    next code of the script (0 when the script is used up). *)
Module Script.

Definition next (w : list Z) : Z * list Z :=
  match w with
  | [] => (0, [])
  | r :: w' => (r, w')
  end.

Definition blank_ctx : AVFormatContext :=
  {| iformat := None; flags := 0; ctx_flags := 0; pb := None; streams := [];
     duration := 0; start_time := 0; bit_rate := 0; filename := EmptyString;
     metadata := []; audio_codec_id := 0; video_codec_id := 0;
     subtitle_codec_id := 0; max_delay := 0; interrupt_callback := false |}.

Definition blank_packet : AVPacket :=
  {| pkt_stream_index := 0; pkt_size := 0; pkt_pts := 0; pkt_dts := 0;
     pkt_flags := 0; pkt_duration := 0; pkt_pos := 0 |}.

Definition blank : MediaPacketImpl :=
  {| mPacket := blank_packet; mIsComplete := false; mTimeBase := None |}.

Definition two_streams : list (option AVStream) :=
  [Some {| time_base := {| num := 1; den := 25 |} |};
   Some {| time_base := {| num := 0; den := 0 |} |}].

(** The url "custom" is served by the handler 7; opening a container gives
    it two streams; a stream wrapper is named by the denominator of the
    time base of its stream.  The library read is left open. *)
Definition lib_reading
    (rd : list Z -> AVFormatContext -> AVPacket ->
          (int32 * AVFormatContext * AVPacket) * list Z) : Library :=
  {| World := list Z;
     AVERROR_EAGAIN := -11;
     AVFMT_NOFILE := 1;
     AVFMT_FLAG_CUSTOM_IO := 128;
     AVFMTCTX_NOHEADER := 1;
     VS_CHECK_INTERRUPT := fun w r => (Returned r, w);
     Global_init := fun w => w;
     avformat_alloc_context := fun w => (Some blank_ctx, w);
     av_malloc := fun w _ => (Some 1%N, w);
     avio_alloc_context := fun w _ _ _ => (Some 2%N, w);
     avformat_open_input := fun w p _ _ d =>
       let '(r, w') := next w in
       if r >=? 0
       then (r, option_map (set_streams two_streams) p, [], w')
       else (r, None, d, w');
     avformat_close_input := fun w _ => w;
     av_read_frame := rd;
     avformat_find_stream_info := fun w c => let '(r, w') := next w in (r, c, w');
     avformat_seek_file := fun w c _ _ _ _ _ => let '(r, w') := next w in (r, c, w');
     av_read_pause := fun w c => let '(r, w') := next w in (r, c, w');
     av_read_play := fun w c => let '(r, w') := next w in (r, c, w');
     avio_size := fun w _ => next w;
     avio_flush := fun w _ => w;
     findHandler := fun w url => (if bool_decide (url = "custom"%string) then Some 7%N else None, w);
     url_open := fun w _ _ => next w;
     url_close := fun w _ => next w;
     SourceStreamImpl_make := fun w st => (Some (Z.to_N (den (time_base st))), w);
     containerClosed := fun w _ => w;
     getTimeBase := fun w st => (Some {| num := 1; den := Z.of_N st |}, w);
     SourceFormat_make := fun f => Some {| getCtx := f |};
     KeyValueBagImpl_make := fun w _ => (Some 3%N, w);
     reset := fun _ _ => blank |}.

(** The scripted library: a library read takes the next code of the script
    and leaves the context and the packet as they are. *)
Definition lib : Library :=
  lib_reading (fun w c p => let '(r, w') := next w in (r, c, p, w')).

(** A library whose read reports EAGAIN for ever. *)
Definition busy : Library :=
  lib_reading (fun w c p => (-11, c, p, w)).

(** An object in state [st] on a blank context with the given streams, with
    [n] stream wrappers made, facing the script [w]. *)
Definition sys (st : State) (w : list Z) (h : option URLProtocolHandler)
    (l : list (option AVStream)) (v : list SourceStreamImpl) : Sys lib :=
  {| world := w : World lib;
     calls := [];
     this := {| mState := st; mNumStreams := Z.of_nat (length v);
                mStreamInfoGotten := false; mReadRetryMax := 1;
                mInputBufferLength := 2048; mIOHandler := h;
                mCtx := Some (set_streams l blank_ctx); mStreams := v;
                mFormat := None; mMetaData := None |} |}.

(** The context of an object. *)
Definition ctx_of (s : Sys lib) : AVFormatContext :=
  match mCtx (this s) with
  | Some c => c
  | None => blank_ctx
  end.

(** A fresh object, and the object after [open("file")] succeeded. *)
Definition fresh : Sys lib :=
  Eval vm_compute in
    match make lib ([] : World lib) with
    | Returned s => s
    | _ => sys STATE_INITED [] None [] []
    end.

Definition open_file : Op := op_open (Some "file"%string) None false false None None.

Definition opened : Sys lib :=
  Eval vm_compute in
    match run lib 0 open_file fresh with
    | Some (_, s) => s
    | None => fresh
    end.

(** The object after [open("file")] and one [queryStreamMetaData]. *)
Definition queried : Sys lib :=
  Eval vm_compute in
    match run lib 0 op_queryStreamMetaData opened with
    | Some (_, s) => s
    | None => opened
    end.

(** A sequence of calls on one object: how each call ended, and the object
    at the end. *)
Fixpoint run_all (ops : list Op) (s : Sys lib) : list Ending * Sys lib :=
  match ops with
  | [] => ([], s)
  | op :: ops' =>
      match run lib 5 op s with
      | Some (e, s') => let '(es, s'') := run_all ops' s' in (e :: es, s'')
      | None => ([], s)
      end
  end.

(** The object [make] gives when the world is the script [w]. *)
Definition made (w : list Z) : Sys lib :=
  match make lib (w : World lib) with
  | Returned s => s
  | _ => sys STATE_ERROR w None [] []
  end.

(** The object [s] with the input format [f] in its context. *)
Definition with_format (f : AVInputFormat) (s : Sys lib) : Sys lib :=
  set_this (set_mCtx (Some (set_iformat (Some f) (ctx_of s))) (this s)) s.

(** A format that carries the no-file flag of [lib], and one that does not. *)
Definition no_file_format : AVInputFormat := {| if_name := "image2"; if_flags := 1 |}.
Definition file_format : AVInputFormat := {| if_name := "mov"; if_flags := 2 |}.

(** The scripted library without memory: [av_malloc] gives null. *)
Definition starved : Library :=
  {| World := list Z;
     AVERROR_EAGAIN := AVERROR_EAGAIN lib;
     AVFMT_NOFILE := AVFMT_NOFILE lib;
     AVFMT_FLAG_CUSTOM_IO := AVFMT_FLAG_CUSTOM_IO lib;
     AVFMTCTX_NOHEADER := AVFMTCTX_NOHEADER lib;
     VS_CHECK_INTERRUPT := VS_CHECK_INTERRUPT lib;
     Global_init := Global_init lib;
     avformat_alloc_context := avformat_alloc_context lib;
     av_malloc := fun w _ => (None, w);
     avio_alloc_context := avio_alloc_context lib;
     avformat_open_input := avformat_open_input lib;
     avformat_close_input := avformat_close_input lib;
     av_read_frame := av_read_frame lib;
     avformat_find_stream_info := avformat_find_stream_info lib;
     avformat_seek_file := avformat_seek_file lib;
     av_read_pause := av_read_pause lib;
     av_read_play := av_read_play lib;
     avio_size := avio_size lib;
     avio_flush := avio_flush lib;
     findHandler := findHandler lib;
     url_open := url_open lib;
     url_close := url_close lib;
     SourceStreamImpl_make := SourceStreamImpl_make lib;
     containerClosed := containerClosed lib;
     getTimeBase := getTimeBase lib;
     SourceFormat_make := SourceFormat_make lib;
     KeyValueBagImpl_make := KeyValueBagImpl_make lib;
     reset := reset lib |}.

(** An object in state INITED on a blank context, facing [starved]. *)
Definition starved_fresh : Sys starved :=
  {| world := [] : World starved; calls := []; this := this (sys STATE_INITED [] None [] []) |}.

(** An object in state OPENED whose retry count is INT32_MAX, facing
    [busy]. *)
Definition patient : Sys busy :=
  {| world := [] : World busy; calls := [];
     this := set_mReadRetryMax INT32_MAX (this (sys STATE_OPENED [] None [] [])) |}.

End Script.

(** * Proofs *)

(** ** Reasoning about the methods *)

Section Proofs.

Context (L : Library).

Lemma keeps_ret {A B} (f : SourceImpl -> B) (a : A) : keeps (L:=L) f (ret a).
Proof. intros s r s' H. inversion H. reflexivity. Qed.

Lemma keeps_throw {A B} (f : SourceImpl -> B) (e : exn) : keeps (L:=L) f (@throw L A e).
Proof. intros s r s' H. inversion H. reflexivity. Qed.

Lemma keeps_undefined {A B} (f : SourceImpl -> B) : keeps (L:=L) f (@undefined L A).
Proof. intros s r s' H. inversion H. reflexivity. Qed.

Lemma keeps_bind {A B C} (f : SourceImpl -> C) (m : M L A) (k : A -> M L B) :
  keeps f m -> (forall a, keeps (L:=L) f (k a)) -> keeps (L:=L) f (bind m k).
Proof.
  intros Hm Hk s r s' H. unfold bind in H.
  destruct (m s) as [[a | e | ] s1] eqn:E; apply Hm in E.
  - apply Hk in H. congruence.
  - inversion H; subst. assumption.
  - inversion H; subst. assumption.
Qed.

Lemma keeps_get {A B} (f : SourceImpl -> B) (g : SourceImpl -> A) : keeps (L:=L) f (get g).
Proof. intros s r s' H. inversion H. reflexivity. Qed.

Lemma keeps_modify {B} (f : SourceImpl -> B) (g : SourceImpl -> SourceImpl) :
  (forall o, f (g o) = f o) -> keeps (L:=L) f (modify g).
Proof. intros Hg s r s' H. inversion H. simpl. apply Hg. Qed.

Lemma keeps_extern {A B} (f : SourceImpl -> B) (c : World L -> A * World L) (ev : A -> Call) :
  keeps (L:=L) f (extern c ev).
Proof.
  intros s r s' H. unfold extern in H. destruct (c (world s)). inversion H. reflexivity.
Qed.

Lemma keeps_extern_ {B} (f : SourceImpl -> B) (c : World L -> World L) (ev : Call) :
  keeps (L:=L) f (extern_ c ev).
Proof. intros s r s' H. inversion H. reflexivity. Qed.

Lemma keeps_log {B} (f : SourceImpl -> B) (ev : Call) : keeps (L:=L) f (@log L ev).
Proof. intros s r s' H. inversion H. reflexivity. Qed.

Lemma keeps_deref {A B} (f : SourceImpl -> B) (p : option A) : keeps (L:=L) f (@deref L A p).
Proof. destruct p; [apply keeps_ret | apply keeps_undefined]. Qed.

Lemma keeps_check_interrupt {B} (f : SourceImpl -> B) (retval : int32) :
  keeps (L:=L) f (check_interrupt L retval).
Proof.
  intros s r s' H. unfold check_interrupt in H.
  destruct (VS_CHECK_INTERRUPT L (world s) retval). inversion H. reflexivity.
Qed.

End Proofs.

Create HintDb keeps.
#[global] Hint Resolve keeps_ret keeps_throw keeps_undefined keeps_get keeps_extern
  keeps_extern_ keeps_log keeps_deref keeps_check_interrupt : keeps.

(** Breaks a [keeps] goal down along the structure of the computation. *)
Ltac keeps_step :=
  match goal with
  | |- keeps _ (bind _ _) => apply keeps_bind; [ | intros ? ]
  | |- keeps _ (modify _) =>
      apply keeps_modify; intros ?; solve [ reflexivity | auto with keeps ]
  | |- keeps _ (match ?x with _ => _ end) => destruct x
  | |- keeps _ _ => solve [ eauto with keeps ]
  end.

Ltac keeps_auto := repeat keeps_step.

Section FieldsKept.

Context (L : Library) {B : Type} (f : SourceImpl -> B) (Hf : independent f).

Local Lemma f_mNumStreams v o : f (set_mNumStreams v o) = f o.
Proof. apply Hf. Qed.
Local Lemma f_mStreamInfoGotten v o : f (set_mStreamInfoGotten v o) = f o.
Proof. apply Hf. Qed.
Local Lemma f_mInputBufferLength v o : f (set_mInputBufferLength v o) = f o.
Proof. apply Hf. Qed.
Local Lemma f_mIOHandler v o : f (set_mIOHandler v o) = f o.
Proof. apply Hf. Qed.
Local Lemma f_mCtx v o : f (set_mCtx v o) = f o.
Proof. apply Hf. Qed.
Local Lemma f_mStreams v o : f (set_mStreams v o) = f o.
Proof. apply Hf. Qed.
Local Lemma f_mFormat v o : f (set_mFormat v o) = f o.
Proof. apply Hf. Qed.
Local Lemma f_mMetaData v o : f (set_mMetaData v o) = f o.
Proof. apply Hf. Qed.
#[local] Hint Resolve f_mNumStreams f_mStreamInfoGotten f_mInputBufferLength f_mIOHandler
  f_mCtx f_mStreams f_mFormat f_mMetaData : keeps.

Lemma keeps_update_ctx g : keeps (L:=L) f (update_ctx L g).
Proof. unfold update_ctx. keeps_auto. Qed.
#[local] Hint Resolve keeps_update_ctx : keeps.

Lemma keeps_the_ctx : keeps (L:=L) f (the_ctx L).
Proof. unfold the_ctx. keeps_auto. Qed.
#[local] Hint Resolve keeps_the_ctx : keeps.

Lemma keeps_getFormatCtx : keeps (L:=L) f (getFormatCtx L).
Proof. unfold getFormatCtx. keeps_auto. Qed.
#[local] Hint Resolve keeps_getFormatCtx : keeps.

Lemma keeps_doCloseFileHandles io : keeps (L:=L) f (doCloseFileHandles L io).
Proof. unfold doCloseFileHandles. keeps_auto. Qed.
#[local] Hint Resolve keeps_doCloseFileHandles : keeps.

Lemma keeps_doOpen url d : keeps (L:=L) f (doOpen L url d).
Proof. unfold doOpen. keeps_auto. Qed.
#[local] Hint Resolve keeps_doOpen : keeps.

Lemma keeps_setup_new_streams g n i : keeps (L:=L) f (setup_new_streams L g n i).
Proof. revert i. induction n; intros i; simpl; keeps_auto. Qed.
#[local] Hint Resolve keeps_setup_new_streams : keeps.

Lemma keeps_doSetupSourceStreams : keeps (L:=L) f (doSetupSourceStreams L).
Proof. unfold doSetupSourceStreams. keeps_auto. Qed.
#[local] Hint Resolve keeps_doSetupSourceStreams : keeps.

Lemma keeps_sync_streams : keeps (L:=L) f (sync_streams L).
Proof. unfold sync_streams. keeps_auto. Qed.
#[local] Hint Resolve keeps_sync_streams : keeps.

Lemma keeps_queryStreamMetaData : keeps (L:=L) f (queryStreamMetaData L).
Proof. unfold queryStreamMetaData. keeps_auto. Qed.
#[local] Hint Resolve keeps_queryStreamMetaData : keeps.

Lemma keeps_close_streams n : keeps (L:=L) f (close_streams L n).
Proof. induction n; simpl; keeps_auto. Qed.
#[local] Hint Resolve keeps_close_streams : keeps.

Lemma keeps_getNumStreams : keeps (L:=L) f (getNumStreams L).
Proof. unfold getNumStreams. keeps_auto. Qed.

Lemma keeps_getURL : keeps (L:=L) f (getURL L).
Proof. unfold getURL. keeps_auto. Qed.

Lemma keeps_getSourceStream position : keeps (L:=L) f (getSourceStream L position).
Proof. unfold getSourceStream, vector_at. keeps_auto. Qed.
#[local] Hint Resolve keeps_getSourceStream : keeps.

Lemma keeps_setInputBufferLength size : keeps (L:=L) f (setInputBufferLength L size).
Proof. unfold setInputBufferLength. keeps_auto. Qed.

Lemma keeps_set_packet_time_base pkt : keeps (L:=L) f (set_packet_time_base L pkt).
Proof. unfold set_packet_time_base. keeps_auto. Qed.

Lemma keeps_getters :
  keeps (L:=L) f (getInputBufferLength L) /\ keeps (L:=L) f (getDuration L) /\
  keeps (L:=L) f (getStartTime L) /\ keeps (L:=L) f (getFileSize L) /\
  keeps (L:=L) f (getBitRate L) /\ keeps (L:=L) f (getFlags L) /\
  keeps (L:=L) f (getReadRetryCount L) /\
  keeps (L:=L) f (canStreamsBeAddedDynamically L) /\
  keeps (L:=L) f (getMetaData L) /\ keeps (L:=L) f (getMaxDelay L) /\
  (forall flag, keeps (L:=L) f (getFlag L flag)).
Proof.
  unfold getInputBufferLength, getDuration, getStartTime, getFileSize, getBitRate,
    getFlags, getReadRetryCount, canStreamsBeAddedDynamically, getMetaData, getMaxDelay,
    getFlag.
  repeat split; intros; keeps_auto.
Qed.

Lemma keeps_setters :
  (forall v, keeps (L:=L) f (setFlags L v)) /\
  (forall flag v, keeps (L:=L) f (setFlag L flag v)) /\
  (forall id, keeps (L:=L) f (setForcedAudioCodec L id)) /\
  (forall id, keeps (L:=L) f (setForcedVideoCodec L id)) /\
  (forall id, keeps (L:=L) f (setForcedSubtitleCodec L id)) /\
  (forall i a b c d, keeps (L:=L) f (seek L i a b c d)).
Proof.
  unfold setFlags, setFlag, setForcedAudioCodec, setForcedVideoCodec,
    setForcedSubtitleCodec, seek.
  repeat split; intros; keeps_auto.
Qed.

(** The loop of [read] and [read] itself. *)
Lemma keeps_read_frames fuel packet numReads s r packet' s' :
  read_frames L fuel packet numReads s = Some (r, packet', s') -> f (this s') = f (this s).
Proof.
  revert packet numReads s.
  induction fuel as [ | fuel IH]; intros packet numReads s H; simpl in H; [discriminate | ].
  destruct (getFormatCtx L s) as [[[c | ] | e | ] s1] eqn:E;
    apply keeps_getFormatCtx in E; try (inversion H; subst; assumption).
  destruct (av_read_frame L (world s1) c packet) as [[[retval c'] pk'] w'].
  match type of H with
  | (if ?b then _ else _) = _ => destruct b
  end.
  - apply IH in H. rewrite H. simpl. rewrite f_mCtx. assumption.
  - inversion H; subst. simpl. rewrite f_mCtx. assumption.
Qed.

Lemma keeps_read fuel ipkt s r ipkt' s' :
  read L fuel ipkt s = Some (r, ipkt', s') -> f (this s') = f (this s).
Proof.
  unfold read. intros H.
  assert (Hc : forall x r1 s0 s1, check_interrupt L x s0 = (r1, s1) -> f (this s1) = f (this s0))
    by (intros x r1 s0 s1; apply keeps_check_interrupt).
  destruct ipkt as [[pkt | id] | ].
  - match type of H with
    | context [read_frames L fuel ?p 0 ?s0] =>
        destruct (read_frames L fuel p 0 s0) as [[[[retval | e | ] packet] s1] | ] eqn:E
    end; try discriminate; apply keeps_read_frames in E; simpl in E;
      try (inversion H; subst; assumption).
    destruct (retval >=? 0).
    + destruct (set_packet_time_base L _ s1) as [[pkt' | e | ] s2] eqn:E2;
        apply keeps_set_packet_time_base in E2;
        try (inversion H; subst; congruence).
      destruct (check_interrupt L retval _) as [r3 s3] eqn:E3. apply Hc in E3.
      inversion H; subst. simpl in E3. congruence.
    + destruct (check_interrupt L retval s1) as [r3 s3] eqn:E3. apply Hc in E3.
      inversion H; subst. congruence.
  - destruct (check_interrupt L (-1) s) as [r3 s3] eqn:E3. apply Hc in E3.
    inversion H; subst. congruence.
  - destruct (check_interrupt L (-1) s) as [r3 s3] eqn:E3. apply Hc in E3.
    inversion H; subst. congruence.
Qed.

End FieldsKept.

#[global] Hint Resolve keeps_update_ctx keeps_the_ctx keeps_getFormatCtx
  keeps_doCloseFileHandles keeps_doOpen keeps_setup_new_streams keeps_doSetupSourceStreams
  keeps_sync_streams keeps_queryStreamMetaData keeps_close_streams keeps_getSourceStream
  keeps_getURL : keeps.

Lemma mState_independent : independent mState.
Proof. repeat split. Qed.

Lemma mReadRetryMax_independent : independent mReadRetryMax.
Proof. repeat split. Qed.

#[global] Hint Resolve mState_independent mReadRetryMax_independent : keeps.

(** *** Computations that raise nothing *)

Section NoThrow.

Context (L : Library).

Lemma bind_inv {A B} (m : M L A) (k : A -> M L B) s r s' :
  bind m k s = (r, s') ->
  (exists a s1, m s = (Returned a, s1) /\ k a s1 = (r, s')) \/
  (exists e, m s = (Thrown e, s') /\ r = Thrown e) \/
  (m s = (Undefined, s') /\ r = Undefined).
Proof.
  unfold bind. destruct (m s) as [[a | e | ] s1]; intros H.
  - left. eauto.
  - right; left. inversion H; subst. eauto.
  - right; right. inversion H; subst. eauto.
Qed.

Lemma bind_get {A B} (g : SourceImpl -> A) (k : A -> M L B) s :
  bind (get g) k s = k (g (this s)) s.
Proof. reflexivity. Qed.

Lemma bind_ret {A B} (a : A) (k : A -> M L B) s : bind (ret a) k s = k a s.
Proof. reflexivity. Qed.

Lemma bind_modify {B} g (k : unit -> M L B) s :
  bind (modify g) k s = k tt (set_this (g (this s)) s).
Proof. reflexivity. Qed.

Lemma bind_log {B} ev (k : unit -> M L B) s : bind (log ev) k s = k tt (add_call ev s).
Proof. reflexivity. Qed.

Lemma bind_extern_ {B} c ev (k : unit -> M L B) s :
  bind (extern_ c ev) k s = k tt (add_call ev (set_world (c (world s)) s)).
Proof. reflexivity. Qed.

Lemma bind_extern {A B} (c : World L -> A * World L) ev (k : A -> M L B) s :
  bind (extern c ev) k s =
  let '(a, w) := c (world s) in k a (add_call (ev a) (set_world w s)).
Proof. unfold bind, extern. destruct (c (world s)). reflexivity. Qed.

Lemma bind_throw {A B} e (k : A -> M L B) s : bind (throw e) k s = (Thrown e, s).
Proof. reflexivity. Qed.

Lemma nothrow_bind {A B} (m : M L A) (k : A -> M L B) :
  nothrow m -> (forall a, nothrow (k a)) -> nothrow (bind m k).
Proof.
  intros Hm Hk s e s' H.
  apply bind_inv in H as [(a & s1 & E & H) | [(e' & E & _) | (_ & ?)]].
  - exact (Hk _ _ _ _ H).
  - exact (Hm _ _ _ E).
  - discriminate.
Qed.

Lemma nothrow_ret {A} (a : A) : nothrow (L:=L) (ret a).
Proof. intros s e s' H; discriminate. Qed.

Lemma nothrow_get {A} (g : SourceImpl -> A) : nothrow (L:=L) (get g).
Proof. intros s e s' H; discriminate. Qed.

Lemma nothrow_modify g : nothrow (L:=L) (modify g).
Proof. intros s e s' H; discriminate. Qed.

Lemma nothrow_log ev : nothrow (L:=L) (log ev).
Proof. intros s e s' H; discriminate. Qed.

Lemma nothrow_undefined {A} : nothrow (@undefined L A).
Proof. intros s e s' H; discriminate. Qed.

Lemma nothrow_deref {A} (p : option A) : nothrow (L:=L) (deref p).
Proof. destruct p; intros s e s' H; discriminate. Qed.

Lemma nothrow_extern {A} (c : World L -> A * World L) ev : nothrow (extern c ev).
Proof. intros s e s' H. unfold extern in H. destruct (c (world s)). discriminate. Qed.

Lemma nothrow_extern_ (c : World L -> World L) ev : nothrow (extern_ c ev).
Proof. intros s e s' H; discriminate. Qed.

End NoThrow.

Create HintDb nothrow.
#[global] Hint Resolve nothrow_ret nothrow_get nothrow_modify nothrow_log nothrow_undefined
  nothrow_deref nothrow_extern nothrow_extern_ : nothrow.

Ltac nothrow_step :=
  match goal with
  | |- nothrow (bind _ _) => apply nothrow_bind; [ | intros ? ]
  | |- nothrow (match ?x with _ => _ end) => destruct x
  | |- nothrow _ => solve [ eauto with nothrow ]
  end.

Ltac nothrow_auto := repeat nothrow_step.

(** Projections of updated records. *)
Ltac norm :=
  cbn [this world calls set_this set_world add_call
       mState mNumStreams mStreamInfoGotten mReadRetryMax mInputBufferLength mIOHandler
       mCtx mStreams mFormat mMetaData
       set_mState set_mNumStreams set_mStreamInfoGotten set_mReadRetryMax
       set_mInputBufferLength set_mIOHandler set_mCtx set_mStreams set_mFormat
       set_mMetaData fst snd] in *.

(** One step of symbolic execution of a computation in the hypothesis [H];
    for a call that is not a primitive, what it does to [mState] is recorded
    when it leaves the state alone. *)
Ltac kept H :=
  lazymatch type of H with
  | ?m ?s = (?r, ?s1) =>
      let K := fresh "K" in
      assert (K : keeps mState m) by keeps_auto;
      specialize (K _ _ _ H); norm
  end.

Ltac step H :=
  lazymatch type of H with
  | bind (get _) _ _ = _ => rewrite bind_get in H
  | bind (ret _) _ _ = _ => rewrite bind_ret in H
  | bind (modify _) _ _ = _ => rewrite bind_modify in H
  | bind (log _) _ _ = _ => rewrite bind_log in H
  | bind (extern_ _ _) _ _ = _ => rewrite bind_extern_ in H
  | bind (extern _ _) _ _ = _ => rewrite bind_extern in H
  | bind (throw _) _ _ = _ => rewrite bind_throw in H
  | bind (deref ?p) _ _ = _ => destruct p eqn:?; simpl deref in H
  | bind undefined _ _ = _ => inversion H; subst; clear H
  | bind ?m ?k ?s = _ =>
      let E := fresh "E" in
      let E' := fresh "E" in
      apply bind_inv in H as [(? & ? & E & H) | [(? & E & E') | (E & E')]];
      [ | try discriminate E'; try (injection E' as <-); try subst
        | try discriminate E'; try subst ];
      try kept E
  | (if ?b then _ else _) _ = _ => destruct b eqn:?
  | (match ?x with _ => _ end) _ = _ => destruct x eqn:?
  | match ?x with _ => _ end = _ => destruct x eqn:?
  | ret _ _ = _ => inversion H; subst; clear H
  | get _ _ = _ => inversion H; subst; clear H
  | throw _ _ = _ => inversion H; subst; clear H
  | undefined _ = _ => inversion H; subst; clear H
  | modify _ _ = _ => inversion H; subst; clear H
  | log _ _ = _ => inversion H; subst; clear H
  | extern_ _ _ _ = _ => inversion H; subst; clear H
  | deref ?p _ = _ => destruct p eqn:?; simpl deref in H
  | (_, _) = (_, _) => inversion H; subst; clear H
  end; cbv beta in *.

(** Symbolic execution of every computation among the hypotheses, down to
    the calls of other methods. *)
Ltac exec :=
  repeat match goal with
         | H : bind _ _ _ = _ |- _ => step H
         | H : (if _ then _ else _) _ = _ |- _ => step H
         | H : (match _ with _ => _ end) _ = _ |- _ => step H
         | H : match _ with _ => _ end = (_, _) |- _ => step H
         | H : ret _ _ = _ |- _ => step H
         | H : get _ _ = _ |- _ => step H
         | H : throw _ _ = _ |- _ => step H
         | H : undefined _ = _ |- _ => step H
         | H : modify _ _ = _ |- _ => step H
         | H : log _ _ = _ |- _ => step H
         | H : extern_ _ _ _ = _ |- _ => step H
         | H : deref _ _ = _ |- _ => step H
         | H : (_, _) = (_, _) |- _ => step H
         end.

Section NoThrowMethods.

Context (L : Library).

Lemma nothrow_update_ctx g : nothrow (update_ctx L g).
Proof. unfold update_ctx. nothrow_auto. Qed.
#[local] Hint Resolve nothrow_update_ctx : nothrow.

Lemma nothrow_the_ctx : nothrow (the_ctx L).
Proof. unfold the_ctx. nothrow_auto. Qed.

Lemma nothrow_setup_new_streams g n i : nothrow (setup_new_streams L g n i).
Proof. revert i. induction n; intros i; simpl; nothrow_auto. Qed.
#[local] Hint Resolve nothrow_setup_new_streams : nothrow.

Lemma nothrow_doSetupSourceStreams : nothrow (doSetupSourceStreams L).
Proof. unfold doSetupSourceStreams. nothrow_auto. Qed.
#[local] Hint Resolve nothrow_doSetupSourceStreams : nothrow.

Lemma nothrow_sync_streams : nothrow (sync_streams L).
Proof. unfold sync_streams. nothrow_auto. Qed.

Lemma nothrow_doCloseFileHandles io : nothrow (doCloseFileHandles L io).
Proof. unfold doCloseFileHandles. nothrow_auto. Qed.

Lemma nothrow_close_streams n : nothrow (close_streams L n).
Proof. induction n; simpl; nothrow_auto. Qed.

Lemma opp_not_closed st :
  opened_playing_or_paused st = true -> closed_or_error st = false.
Proof. destruct st; reflexivity || discriminate. Qed.

Lemma getFormatCtx_open s :
  closed_or_error (mState (this s)) = false ->
  getFormatCtx L s = (Returned (mCtx (this s)), s).
Proof. intros H. unfold getFormatCtx. rewrite bind_get, H. reflexivity. Qed.

Lemma getFormatCtx_closed s :
  closed_or_error (mState (this s)) = true ->
  getFormatCtx L s =
  (Thrown (runtime_error_copy "Method called on Source in CLOSED or ERROR state."), s).
Proof. intros H. unfold getFormatCtx. rewrite bind_get, H. reflexivity. Qed.

Lemma check_interrupt_raises x s e s' :
  check_interrupt L x s = (Thrown e, s') -> raised_by_check L e.
Proof.
  unfold check_interrupt. destruct (VS_CHECK_INTERRUPT L (world s) x) as [r w] eqn:E.
  intros H. inversion H; subst. exists (world s), x, w. assumption.
Qed.

End NoThrowMethods.

#[global] Hint Resolve nothrow_update_ctx nothrow_the_ctx nothrow_setup_new_streams
  nothrow_doSetupSourceStreams nothrow_sync_streams nothrow_doCloseFileHandles
  nothrow_close_streams : nothrow.

Ltac absurd_throw :=
  match goal with
  | H : ?m ?s = (Thrown _, _) |- _ =>
      exfalso; refine ((_ : nothrow m) _ _ _ H); solve [ nothrow_auto ]
  end.

(** What the calls among the hypotheses do to [mState]. *)
Ltac facts :=
  repeat match goal with
         | H : ?m ?s = (_, ?s1) |- _ => first [ kept H | idtac ]; revert H
         end;
  intros.

Ltac bools :=
  repeat match goal with
         | Hb : bool_decide _ = false |- _ =>
             apply bool_decide_eq_false in Hb; try apply dec_stable in Hb
         | Hb : bool_decide _ = true |- _ => apply bool_decide_eq_true in Hb
         end.

Section Lifecycle.

Context (L : Library).

Lemma queryStreamMetaData_raises s e s' :
  queryStreamMetaData L s = (Thrown e, s') ->
  opened_playing_or_paused (mState (this s)) = true ->
  raised_by_check L e.
Proof.
  intros H Hst. unfold queryStreamMetaData in H.
  step H. rewrite Hst in H. simpl in H. exec.
  all: try (eapply check_interrupt_raises; eassumption).
  all: try absurd_throw.
  all: match goal with
       | E : getFormatCtx L _ = _ |- _ =>
           rewrite getFormatCtx_open in E by (apply opp_not_closed; norm; congruence);
           discriminate
       end.
Qed.

End Lifecycle.

Ltac raised :=
  match goal with
  | H : check_interrupt _ _ _ = (Thrown _, _) |- raised_by_check _ _ =>
      eapply check_interrupt_raises; eassumption
  | H : queryStreamMetaData _ _ = (Thrown _, _) |- raised_by_check _ _ =>
      eapply queryStreamMetaData_raises;
      [ eassumption
      | norm;
        match goal with
        | |- opened_playing_or_paused ?st = true =>
            replace st with STATE_OPENED by congruence; reflexivity
        end ]
  end.

Ltac leaf :=
  facts; norm;
  first
    [ absurd_throw
    | left; congruence
    | right; left; split; [ congruence | eexists; split; [ reflexivity | lia ] ]
    | right; right; split; [ congruence | left; eexists; split; [ reflexivity | lia ] ]
    | right; right; split; [ congruence | right; left; reflexivity ]
    | right; right; split;
      [ congruence | right; right; eexists; split; [ reflexivity | raised ] ] ].

Section Transitions.

Context (L : Library).

Lemma open_tail_post url old dyn qmd opts unset s r s' :
  open_tail L url old dyn qmd opts unset s = (r, s') ->
  mState (this s') = mState (this s) \/
  (mState (this s') = STATE_ERROR /\ exists z, r = Returned z /\ z < 0) \/
  (mState (this s') = STATE_OPENED /\
   ((exists z, r = Returned z /\ 0 <= z) \/ r = Undefined \/
    exists e, r = Thrown e /\ raised_by_check L e)).
Proof.
  intros H. unfold open_tail in H. exec.
  all: solve [leaf].
Qed.

Lemma open_post url fmt dyn qmd opts unset s r s' :
  open L url fmt dyn qmd opts unset s = (r, s') ->
  mState (this s') = mState (this s) \/
  (mState (this s) = STATE_INITED /\
   ((mState (this s') = STATE_ERROR /\ exists z, r = Returned z /\ z < 0) \/
    (mState (this s') = STATE_OPENED /\
     ((exists z, r = Returned z /\ 0 <= z) \/ r = Undefined \/
      exists e, r = Thrown e /\ raised_by_check L e)))).
Proof.
  intros H. unfold open in H. exec.
  all: facts; norm; bools.
  all: try match goal with
       | H : open_tail _ _ _ _ _ _ _ _ = _ |- _ =>
           apply open_tail_post in H; norm;
           destruct H as [H | H]; [ left; congruence | right; split; [congruence | exact H] ]
       end.
  all: try solve [left; congruence].
  all: solve [right; split;
              [ congruence
              | left; split; [reflexivity | eexists; split; [reflexivity | lia]]]].
Qed.

Lemma close_post s r s' :
  close L s = (r, s') ->
  mState (this s') = mState (this s) \/
  (opened_playing_or_paused (mState (this s)) = true /\
   ((mState (this s') = STATE_CLOSED /\ exists z, r = Returned z /\ 0 <= z) \/
    (mState (this s') = STATE_ERROR /\ exists z, r = Returned z /\ z < 0))).
Proof.
  intros H. unfold close in H. step H.
  destruct (opened_playing_or_paused (mState (this s))) eqn:Hst; simpl in H.
  2:{ step H. left; reflexivity. }
  exec.
  all: facts; norm; bools.
  all: try solve [left; congruence].
  all: try solve [right; split; [reflexivity | left; split; [reflexivity | eexists; split; [reflexivity | lia]]]].
  all: solve [right; split; [reflexivity | right; split; [reflexivity | eexists; split; [reflexivity | lia]]]].
Qed.

Lemma pause_post s r s' :
  pause L s = (r, s') ->
  mState (this s') = mState (this s) \/
  (mState (this s) = STATE_PLAYING /\ mState (this s') = STATE_PAUSED /\
   exists z, r = Returned z /\ 0 <= z).
Proof.
  intros H. unfold pause in H. exec.
  all: facts; norm; bools.
  all: try solve [left; congruence].
  all: solve [right; split; [congruence | split; [reflexivity | eexists; split; [reflexivity | lia]]]].
Qed.

Lemma play_raises s :
  play L s =
  (Thrown (HumbleRuntimeError "Can only play containers in OPENED or PAUSED states"), s).
Proof.
  unfold play. rewrite bind_get. destruct (mState (this s)); reflexivity.
Qed.

Lemma run_int_inv m s e s' :
  run_int L m s = Some (e, s') -> exists r, m s = (r, s') /\ e = ending_int r.
Proof.
  unfold run_int. destruct (m s) as [r s1]. intros H. inversion H; subst. eauto.
Qed.

Lemma run_other_inv {A} (m : M L A) s e s' :
  run_other L m s = Some (e, s') -> exists r, m s = (r, s') /\ e = ending_other r.
Proof.
  unfold run_other. destruct (m s) as [r s1]. intros H. inversion H; subst. eauto.
Qed.

Lemma keeps_mState_setReadRetryCount count : keeps mState (setReadRetryCount L count).
Proof. unfold setReadRetryCount. keeps_auto. Qed.

(** Every call of the public interface, however it ends. *)
Lemma run_post fuel op s e s' :
  run L fuel op s = Some (e, s') ->
  transition op e (mState (this s)) (mState (this s')) \/
  e = Crashed \/
  (exists x, e = Raised x /\ raised_by_check L x /\
             mState (this s) = STATE_INITED /\ mState (this s') = STATE_OPENED).
Proof.
  intros Hrun.
  pose proof (keeps_getters L mState mState_independent) as G.
  pose proof (keeps_setters L mState mState_independent) as S.
  destruct_and!.
  destruct op; simpl in Hrun;
    try (apply run_int_inv in Hrun as (r & Hm & ->));
    try (apply run_other_inv in Hrun as (r & Hm & ->)).
  all: try (match goal with
            | Hm : ?m ?s = (_, ?s1) |- _ =>
                let K := fresh "K" in
                assert (K : keeps mState m)
                  by first [ solve [eauto with keeps]
                           | apply keeps_getNumStreams; auto with keeps
                           | apply keeps_setInputBufferLength; auto with keeps
                           | apply keeps_mState_setReadRetryCount ];
                specialize (K _ _ _ Hm); left; rewrite K; constructor
            end).
  - apply open_post in Hm as [K | (Hi & [(He & z & -> & Hz) | (Ho & [(z & -> & Hz) | [-> | (x & -> & Hx)]])])].
    + left. rewrite K. constructor.
    + left. rewrite Hi, He. constructor. assumption.
    + left. rewrite Hi, Ho. constructor. assumption.
    + right; left. reflexivity.
    + right; right. exists x. auto.
  - apply close_post in Hm as [K | (Hopp & [(Hc & z & -> & Hz) | (He & z & -> & Hz)])].
    + left. rewrite K. constructor.
    + left. rewrite Hc. constructor; assumption.
    + left. rewrite He. constructor; assumption.
  - destruct (read L fuel ipkt s) as [[[r p] s1] | ] eqn:E; [ | discriminate].
    inversion Hrun; subst.
    apply (keeps_read L mState mState_independent) in E.
    left. rewrite E. constructor.
  - apply pause_post in Hm as [K | (Hp & Hq & z & -> & Hz)].
    + left. rewrite K. constructor.
    + left. rewrite Hp, Hq. constructor. assumption.
  - rewrite play_raises in Hm. inversion Hm; subst. left. constructor.
Qed.

(** The read-retry count changes through [setReadRetryCount] only, and then
    to a non-negative value. *)
Lemma run_retry fuel op s e s' :
  run L fuel op s = Some (e, s') ->
  0 <= mReadRetryMax (this s) -> 0 <= mReadRetryMax (this s').
Proof.
  intros Hrun.
  pose proof (keeps_getters L mReadRetryMax mReadRetryMax_independent) as G.
  pose proof (keeps_setters L mReadRetryMax mReadRetryMax_independent) as S.
  destruct_and!.
  destruct op; simpl in Hrun;
    try (apply run_int_inv in Hrun as (r & Hm & ->));
    try (apply run_other_inv in Hrun as (r & Hm & ->)).
  all: try (match goal with
            | Hm : ?m ?s = (_, ?s1) |- _ =>
                let K := fresh "K" in
                assert (K : keeps mReadRetryMax m)
                  by first [ solve [eauto with keeps]
                           | apply keeps_getNumStreams; auto with keeps
                           | apply keeps_setInputBufferLength; auto with keeps
                           | unfold open, open_tail, close, pause, play; keeps_auto ];
                specialize (K _ _ _ Hm); rewrite K; trivial
            end).
  - destruct (read L fuel ipkt s) as [[[r p] s1] | ] eqn:E; [ | discriminate].
    inversion Hrun; subst.
    apply (keeps_read L mReadRetryMax mReadRetryMax_independent) in E.
    rewrite E. trivial.
  - unfold setReadRetryCount in Hm. destruct (count >=? 0) eqn:Hc.
    + inversion Hm; subst. simpl. lia.
    + inversion Hm; subst. trivial.
Qed.

Lemma make_post w s :
  make L w = Returned s ->
  mState (this s) = STATE_INITED /\ mReadRetryMax (this s) = 1 /\ live s.
Proof.
  unfold make, SourceImpl_ctor.
  destruct (avformat_alloc_context L (Global_init L w)) as [[ctx | ] w'];
    intros H; inversion H; subst; simpl.
  repeat split. unfold live. simpl. discriminate.
Qed.

Lemma reachable_retry s : reachable L s -> 0 <= mReadRetryMax (this s).
Proof.
  induction 1 as [w s Hmk | s fuel op e s' Hr IH Hrun He].
  - apply make_post in Hmk as (_ & -> & _). lia.
  - eapply run_retry; eassumption.
Qed.

Lemma reachable_states s :
  reachable L s ->
  mState (this s) = STATE_INITED \/ mState (this s) = STATE_OPENED \/
  mState (this s) = STATE_CLOSED \/ mState (this s) = STATE_ERROR.
Proof.
  induction 1 as [w s Hmk | s fuel op e s' Hr IH Hrun He].
  - apply make_post in Hmk as (-> & _). auto.
  - pose proof Hrun as Hrun'.
    apply run_post in Hrun as [T | [-> | (x & -> & Hx & _ & ->)]].
    + inversion T; subst; auto.
      * exfalso. intuition congruence.
      * simpl in Hrun'. apply run_int_inv in Hrun' as (r' & Hm & Hr').
        rewrite play_raises in Hm. inversion Hm; subst. discriminate.
    + congruence.
    + auto.
Qed.

End Transitions.

(** ** Setting up the stream wrappers *)

Lemma wrap32_small z : INT32_MIN <= z <= INT32_MAX -> wrap32 z = z.
Proof.
  unfold wrap32, INT32_MIN, INT32_MAX. intros H.
  rewrite Z.mod_small by lia. lia.
Qed.

Lemma to_uint32_small z : 0 <= z <= INT32_MAX -> to_uint32 z = z.
Proof. unfold to_uint32, INT32_MAX. intros H. apply Z.mod_small. lia. Qed.

Lemma to_size_t_small z : 0 <= z <= INT32_MAX -> to_size_t z = z.
Proof. unfold to_size_t, INT32_MAX. intros H. apply Z.mod_small. lia. Qed.

Section Streams.

Context (L : Library).

Lemma update_ctx_live g (s : Sys L) c :
  mCtx (this s) = Some c ->
  update_ctx L g s = (Returned tt, set_this (set_mCtx (Some (g c)) (this s)) s).
Proof. intros H. unfold update_ctx. rewrite bind_get, H. reflexivity. Qed.

Lemma setup_new_streams_ok g n : forall i (s : Sys L) c,
  mCtx (this s) = Some c ->
  exists s1 c1,
    setup_new_streams L g n i s = (Returned tt, s1) /\
    mCtx (this s1) = Some c1 /\
    nb_streams c1 = nb_streams c /\
    (streams_ok (this s) -> mNumStreams (this s) <= i -> i + Z.of_nat n <= INT32_MAX ->
     streams_ok (this s1) /\ mNumStreams (this s1) <= i + Z.of_nat n).
Proof.
  induction n as [ | n IH]; intros i s c Hc.
  - exists s, c. simpl. split; [reflexivity | ]. split; [assumption | ].
    split; [reflexivity | ]. intros; split; [assumption | lia].
  - cbn [setup_new_streams]. rewrite bind_get, Hc. cbn [deref]. rewrite bind_ret.
    destruct (streams c !! Z.to_nat i) as [[avStream | ] | ] eqn:Hi.
    + match goal with
      | |- context [extern (fun w => SourceStreamImpl_make L w ?a)] =>
          set (avStream' := a)
      end.
      unfold bind at 1. unfold bind at 1.
      rewrite (update_ctx_live _ _ c Hc).
      unfold bind at 1, extern. norm.
      destruct (SourceStreamImpl_make L (world s) avStream') as [[st | ] w'] eqn:Hmk.
      * rewrite bind_get, bind_modify, bind_get. unfold modify at 1. norm.
        match goal with
        | |- context [setup_new_streams L g n (i + 1) ?s0] =>
            destruct (IH (i + 1) s0 _ eq_refl) as (s1 & c1 & E & Hc1 & Hnb & Hok)
        end.
        exists s1, c1. rewrite E. split; [reflexivity | ]. split; [assumption | ].
        split.
        { rewrite Hnb. unfold nb_streams. simpl. rewrite length_insert. reflexivity. }
        intros [Hlen Hmax] Hle Hbound.
        assert (Hw : wrap32 (mNumStreams (this s) + 1) = mNumStreams (this s) + 1).
        { apply wrap32_small. unfold INT32_MIN, INT32_MAX in *. lia. }
        destruct Hok as [Hok1 Hok2].
        -- split; norm; rewrite Hw.
           ++ rewrite length_app. simpl. lia.
           ++ unfold INT32_MAX in *. lia.
        -- norm. rewrite Hw. lia.
        -- lia.
        -- split; [assumption | lia].
      * unfold ret at 1. cbv beta iota.
        match goal with
        | |- context [setup_new_streams L g n (i + 1) ?s0] =>
            destruct (IH (i + 1) s0 _ eq_refl) as (s1 & c1 & E & Hc1 & Hnb & Hok)
        end.
        exists s1, c1. rewrite E. split; [reflexivity | ]. split; [assumption | ].
        split.
        { rewrite Hnb. unfold nb_streams. simpl. rewrite length_insert. reflexivity. }
        intros Hs Hle Hbound.
        destruct Hok as [Hok1 Hok2]; [exact Hs | norm; lia | lia | ].
        split; [assumption | lia].
    + rewrite bind_ret.
      destruct (IH (i + 1) s c Hc) as (s1 & c1 & E & Hc1 & Hnb & Hok).
      exists s1, c1. rewrite E.
      split; [reflexivity | ]. split; [assumption | ]. split; [assumption | ].
      intros Hs Hle Hb.
      destruct Hok as [Hok1 Hok2]; [assumption | lia | lia | ].
      split; [assumption | lia].
    + rewrite bind_ret.
      destruct (IH (i + 1) s c Hc) as (s1 & c1 & E & Hc1 & Hnb & Hok).
      exists s1, c1. rewrite E.
      split; [reflexivity | ]. split; [assumption | ]. split; [assumption | ].
      intros Hs Hle Hb.
      destruct Hok as [Hok1 Hok2]; [assumption | lia | lia | ].
      split; [assumption | lia].
Qed.

Lemma doSetupSourceStreams_ok (s : Sys L) c :
  mCtx (this s) = Some c ->
  exists r s1 c1,
    doSetupSourceStreams L s = (Returned r, s1) /\
    mCtx (this s1) = Some c1 /\
    nb_streams c1 = nb_streams c /\
    (streams_ok (this s) -> nb_streams c <= INT32_MAX -> streams_ok (this s1)) /\
    (mNumStreams (this s) = wrap32 (nb_streams c) -> s1 = s).
Proof.
  intros Hc. unfold doSetupSourceStreams.
  rewrite bind_get, Hc. cbn [deref]. rewrite bind_ret, bind_get.
  case_bool_decide as Hk.
  - exists 0, s, c. split; [reflexivity | ]. split; [assumption | ].
    split; [reflexivity | ]. split; [intros; assumption | reflexivity].
  - destruct (setup_new_streams_ok (find_goodTimebase (streams c))
                (Z.to_nat (nb_streams c - to_uint32 (mNumStreams (this s))))
                (to_uint32 (mNumStreams (this s))) s c Hc)
      as (s1 & c1 & E & Hc1 & Hnb & Hok).
    unfold bind at 1. rewrite E. exists (-1), s1, c1.
    split; [reflexivity | ]. split; [assumption | ]. split; [assumption | ].
    split; [ | contradiction].
    intros Hs Hb. pose proof Hs as [Hlen Hmax].
    assert (Hu : to_uint32 (mNumStreams (this s)) = mNumStreams (this s))
      by (apply to_uint32_small; lia).
    rewrite Hu in Hok. apply Hok; [assumption | lia | ].
    unfold nb_streams in *. lia.
Qed.

Lemma sync_streams_ok (s : Sys L) c :
  mCtx (this s) = Some c ->
  exists s1 c1,
    sync_streams L s = (Returned tt, s1) /\
    mCtx (this s1) = Some c1 /\
    nb_streams c1 = nb_streams c /\
    mState (this s1) = mState (this s) /\
    (streams_ok (this s) -> nb_streams c <= INT32_MAX -> streams_ok (this s1)) /\
    (mNumStreams (this s) = wrap32 (nb_streams c) -> s1 = s).
Proof.
  intros Hc. unfold sync_streams.
  rewrite bind_get, Hc. cbn [deref]. rewrite bind_ret, bind_get.
  case_bool_decide as Hk.
  - exists s, c. split; [reflexivity | ]. split; [assumption | ].
    split; [reflexivity | ]. split; [reflexivity | ].
    split; [intros; assumption | reflexivity].
  - destruct (doSetupSourceStreams_ok s c Hc) as (r & s1 & c1 & E & Hc1 & Hnb & Hok & _).
    unfold bind at 1. rewrite E. exists s1, c1.
    split; [reflexivity | ]. split; [assumption | ]. split; [assumption | ].
    split; [ | split; [assumption | congruence]].
    apply (keeps_doSetupSourceStreams L mState mState_independent) in E. assumption.
Qed.

End Streams.

(** ** What the log keeps of a call *)

Section Silent.

Context (L : Library) {B : Type} (g : list Call -> B) (p : Call -> bool).

Hypothesis g_ignores : forall ev l, p ev = false -> g (l ++ [ev]) = g l.

Lemma silent_ret {A} (a : A) : silent (L:=L) g (ret a).
Proof. intros s r s' H. inversion H. reflexivity. Qed.

Lemma silent_throw {A} e : silent g (@throw L A e).
Proof. intros s r s' H. inversion H. reflexivity. Qed.

Lemma silent_undefined {A} : silent g (@undefined L A).
Proof. intros s r s' H. inversion H. reflexivity. Qed.

Lemma silent_bind {A C} (m : M L A) (k : A -> M L C) :
  silent g m -> (forall a, silent g (k a)) -> silent g (bind m k).
Proof.
  intros Hm Hk s r s' H.
  apply bind_inv in H as [(a & s1 & E & H) | [(e & E & _) | (E & _)]].
  - apply Hm in E. apply Hk in H. congruence.
  - apply Hm in E. assumption.
  - apply Hm in E. assumption.
Qed.

Lemma silent_get {A} (f : SourceImpl -> A) : silent (L:=L) g (get f).
Proof. intros s r s' H. inversion H. reflexivity. Qed.

Lemma silent_modify f : silent (L:=L) g (modify f).
Proof. intros s r s' H. inversion H. reflexivity. Qed.

Lemma silent_deref {A} (q : option A) : silent (L:=L) g (deref q).
Proof. destruct q; [apply silent_ret | apply silent_undefined]. Qed.

Lemma silent_extern {A} (c : World L -> A * World L) ev :
  (forall a, p (ev a) = false) -> silent g (extern c ev).
Proof.
  intros Hev s r s' H. unfold extern in H. destruct (c (world s)) as [a w].
  inversion H; subst. simpl. apply g_ignores, Hev.
Qed.

Lemma silent_extern_ (c : World L -> World L) ev :
  p ev = false -> silent g (extern_ c ev).
Proof. intros Hev s r s' H. inversion H; subst. simpl. apply g_ignores, Hev. Qed.

Lemma silent_log ev : p ev = false -> silent (L:=L) g (log ev).
Proof. intros Hev s r s' H. inversion H; subst. simpl. apply g_ignores, Hev. Qed.

Lemma silent_check_interrupt x :
  p (call_VS_CHECK_INTERRUPT x) = false -> silent g (check_interrupt L x).
Proof.
  intros Hev s r s' H. unfold check_interrupt in H.
  destruct (VS_CHECK_INTERRUPT L (world s) x). inversion H; subst. simpl.
  apply g_ignores, Hev.
Qed.

End Silent.

Lemma reads_app l l' : reads (l ++ l') = reads l ++ reads l'.
Proof.
  induction l as [ | ev l IH]; simpl; [reflexivity | ].
  destruct ev; simpl; rewrite ?IH; reflexivity.
Qed.

Lemma reads_ignores ev l : is_read ev = false -> reads (l ++ [ev]) = reads l.
Proof.
  intros H. rewrite reads_app. destruct ev; try discriminate; simpl; apply app_nil_r.
Qed.

Lemma reads_map l : reads (map call_av_read_frame l) = l.
Proof. induction l; simpl; congruence. Qed.

Lemma stream_info_queries_app l l' :
  stream_info_queries (l ++ l') = stream_info_queries l ++ stream_info_queries l'.
Proof.
  induction l as [ | ev l IH]; simpl; [reflexivity | ].
  destruct ev; simpl; rewrite ?IH; reflexivity.
Qed.

Lemma stream_info_queries_ignores ev l :
  is_stream_info_query ev = false -> stream_info_queries (l ++ [ev]) = stream_info_queries l.
Proof.
  intros H. rewrite stream_info_queries_app.
  destruct ev; try discriminate; simpl; apply app_nil_r.
Qed.

Create HintDb silent.
#[global] Hint Resolve silent_ret silent_throw silent_undefined silent_get silent_modify
  silent_deref : silent.

(** The events that [reads] and [stream_info_queries] pass over. *)
Ltac ignoring g k :=
  lazymatch g with
  | reads => k is_read reads_ignores
  | stream_info_queries => k is_stream_info_query stream_info_queries_ignores
  end.

Ltac silent_step :=
  match goal with
  | |- silent _ (bind _ _) => apply silent_bind; [ | intros ? ]
  | |- silent ?g (extern _ _) =>
      ignoring g ltac:(fun p H => apply (silent_extern _ g p H); intros ?; reflexivity)
  | |- silent ?g (extern_ _ _) =>
      ignoring g ltac:(fun p H => apply (silent_extern_ _ g p H); reflexivity)
  | |- silent ?g (log _) =>
      ignoring g ltac:(fun p H => apply (silent_log _ g p H); reflexivity)
  | |- silent ?g (check_interrupt _ _) =>
      ignoring g ltac:(fun p H => apply (silent_check_interrupt _ g p H); reflexivity)
  | |- silent _ (match ?x with _ => _ end) => destruct x
  | |- silent _ _ => solve [ eauto with silent ]
  end.

Ltac silent_auto := repeat silent_step.

Section SilentMethods.

Context (L : Library).

Lemma silent_update_ctx f :
  silent reads (update_ctx L f) /\ silent stream_info_queries (update_ctx L f).
Proof. unfold update_ctx. split; silent_auto. Qed.

Lemma silent_reads_update_ctx f : silent reads (update_ctx L f).
Proof. apply silent_update_ctx. Qed.
Lemma silent_queries_update_ctx f : silent stream_info_queries (update_ctx L f).
Proof. apply silent_update_ctx. Qed.
#[local] Hint Resolve silent_reads_update_ctx silent_queries_update_ctx : silent.

Lemma silent_setup_new_streams gt n i :
  silent reads (setup_new_streams L gt n i) /\
  silent stream_info_queries (setup_new_streams L gt n i).
Proof.
  revert i. induction n as [ | n IH]; intros i; simpl; split; silent_auto;
    apply IH.
Qed.

Lemma silent_reads_setup_new_streams gt n i : silent reads (setup_new_streams L gt n i).
Proof. apply silent_setup_new_streams. Qed.
Lemma silent_queries_setup_new_streams gt n i :
  silent stream_info_queries (setup_new_streams L gt n i).
Proof. apply silent_setup_new_streams. Qed.
#[local] Hint Resolve silent_reads_setup_new_streams silent_queries_setup_new_streams : silent.

Lemma silent_reads_doSetupSourceStreams : silent reads (doSetupSourceStreams L).
Proof. unfold doSetupSourceStreams. silent_auto. Qed.
Lemma silent_queries_doSetupSourceStreams :
  silent stream_info_queries (doSetupSourceStreams L).
Proof. unfold doSetupSourceStreams. silent_auto. Qed.
#[local] Hint Resolve silent_reads_doSetupSourceStreams silent_queries_doSetupSourceStreams
  : silent.

Lemma silent_reads_sync_streams : silent reads (sync_streams L).
Proof. unfold sync_streams. silent_auto. Qed.
#[local] Hint Resolve silent_reads_sync_streams : silent.

Lemma silent_reads_getSourceStream position : silent reads (getSourceStream L position).
Proof. unfold getSourceStream, vector_at. silent_auto. Qed.
#[local] Hint Resolve silent_reads_getSourceStream : silent.

Lemma silent_reads_set_packet_time_base pkt : silent reads (set_packet_time_base L pkt).
Proof. unfold set_packet_time_base. silent_auto. Qed.

End SilentMethods.

(** ** read *)

Section Read.

Context (L : Library).

(** The loop of [read] on a live context outside CLOSED and ERROR, with a
    retry count from 0 to INT32_MAX - 1: it ends within the retries left,
    every library read but the last reported EAGAIN, and nothing else was
    called. *)
Lemma read_frames_spec fuel : forall packet n (s : Sys L) c,
  closed_or_error (mState (this s)) = false ->
  mCtx (this s) = Some c ->
  0 <= n <= mReadRetryMax (this s) ->
  mReadRetryMax (this s) < INT32_MAX ->
  (Z.to_nat (mReadRetryMax (this s) - n) < fuel)%nat ->
  exists rs r packet' c1 w1,
    read_frames L fuel packet n s =
    Some (Returned r, packet',
          {| world := w1;
             calls := calls s ++ map call_av_read_frame (rs ++ [r]);
             this := set_mCtx (Some c1) (this s) |}) /\
    Forall (fun x => x = AVERROR_EAGAIN L) rs /\
    Z.of_nat (length rs) <= mReadRetryMax (this s) - n /\
    (read_keeps_streams_bounded L -> nb_streams c <= INT32_MAX ->
     nb_streams c1 <= INT32_MAX).
Proof.
  induction fuel as [ | fuel IH]; intros packet n s c Hst Hc Hn Hmax Hfuel; [lia | ].
  cbn [read_frames]. rewrite getFormatCtx_open by assumption. rewrite Hc.
  destruct (av_read_frame L (world s) c packet) as [[[r c'] packet'] w'] eqn:Hrd.
  norm.
  rewrite (wrap32_small (n + 1)) by (unfold INT32_MIN, INT32_MAX in *; lia).
  assert (Hb : read_keeps_streams_bounded L -> nb_streams c <= INT32_MAX ->
               nb_streams c' <= INT32_MAX).
  { intros Hk Hle. specialize (Hk (world s) c packet Hle). rewrite Hrd in Hk. exact Hk. }
  destruct (bool_decide (r = AVERROR_EAGAIN L)
            && ((mReadRetryMax (this s) <? 0) || (n + 1 <=? mReadRetryMax (this s))))
    eqn:Hgo.
  - apply andb_true_iff in Hgo as [Hr%bool_decide_eq_true Hle].
    assert (n + 1 <= mReadRetryMax (this s)) by lia.
    match goal with
    | |- context [read_frames L fuel packet' (n + 1) ?s0] =>
        assert (IH' := IH packet' (n + 1) s0 c')
    end.
    norm.
    destruct IH' as (rs & r' & pk & c1 & w1 & E & Hrs & Hlen & Hb');
      [ assumption | reflexivity | lia | assumption | lia | ].
    exists (r :: rs), r', pk, c1, w1. rewrite E. norm.
    split; [ | split; [ | split]].
    + rewrite <- app_assoc. reflexivity.
    + constructor; assumption.
    + simpl length. lia.
    + auto.
  - exists [], r, packet', c', w'. split; [reflexivity | ].
    split; [constructor | ]. split; [simpl; lia | assumption].
Qed.

(** The loop of [read] on a live context outside CLOSED and ERROR, whatever
    the retry count: when it ends, it ends with the result of a library read,
    every library read before that one reported EAGAIN, and nothing else was
    called. *)
Lemma read_frames_shape fuel : forall packet n (s : Sys L) c res packet' s',
  closed_or_error (mState (this s)) = false ->
  mCtx (this s) = Some c ->
  read_frames L fuel packet n s = Some (res, packet', s') ->
  exists rs r c1 w1,
    res = Returned r /\
    s' = {| world := w1;
            calls := calls s ++ map call_av_read_frame (rs ++ [r]);
            this := set_mCtx (Some c1) (this s) |} /\
    Forall (fun x => x = AVERROR_EAGAIN L) rs.
Proof.
  induction fuel as [ | fuel IH]; intros packet n s c res pk s' Hst Hc H; [discriminate | ].
  cbn [read_frames] in H. rewrite getFormatCtx_open in H by assumption. rewrite Hc in H.
  destruct (av_read_frame L (world s) c packet) as [[[r c'] packet'] w'] eqn:Hrd.
  norm.
  destruct (bool_decide (r = AVERROR_EAGAIN L)
            && ((mReadRetryMax (this s) <? 0)
                || (wrap32 (n + 1) <=? mReadRetryMax (this s)))) eqn:Hgo.
  - apply andb_true_iff in Hgo as [Hr%bool_decide_eq_true _].
    eapply IH in H; [ | norm; assumption | norm; reflexivity].
    destruct H as (rs & r' & c1 & w1 & -> & -> & Hrs). norm.
    exists (r :: rs), r', c1, w1. split; [reflexivity | ]. split.
    + rewrite <- app_assoc. reflexivity.
    + constructor; assumption.
  - inversion H; subst. exists [], r, c', w'.
    split; [reflexivity | ]. split; [reflexivity | constructor].
Qed.

(** What [read] does after its loop makes no library read. *)
Lemma read_after_frames fuel (pkt : MediaPacketImpl) (s : Sys L) r packet s1 :
  read_frames L fuel
    (mPacket (setComplete false (getSize (reset L pkt 0)) (reset L pkt 0))) 0
    (add_call (call_setComplete false) (add_call call_MediaPacketImpl_reset s))
  = Some (Returned r, packet, s1) ->
  exists res p s',
    read L fuel (Some (IsMediaPacketImpl pkt)) s = Some (res, p, s') /\
    reads (calls s') = reads (calls s1).
Proof.
  intros E. unfold read. rewrite E.
  assert (Hci : forall x sa ra sb,
             check_interrupt L x sa = (ra, sb) -> reads (calls sb) = reads (calls sa)).
  { intros x sa ra sb. apply (silent_check_interrupt L reads is_read reads_ignores).
    reflexivity. }
  destruct (r >=? 0).
  - destruct (set_packet_time_base L _ s1) as [[pkt' | e | ] s2] eqn:E2;
      apply silent_reads_set_packet_time_base in E2.
    + destruct (check_interrupt L r _) as [res s3] eqn:E3. apply Hci in E3.
      do 3 eexists. split; [reflexivity | ].
      rewrite E3. norm. rewrite reads_ignores by reflexivity. assumption.
    + do 3 eexists. split; [reflexivity | assumption].
    + do 3 eexists. split; [reflexivity | assumption].
  - destruct (check_interrupt L r s1) as [res s2] eqn:E3. apply Hci in E3.
    do 3 eexists. split; [reflexivity | assumption].
Qed.

End Read.

(** C3, as amended.  The retry count of an object made by [make] and used
    through the public interface is never negative; in a state other than
    CLOSED and ERROR, on a live context and with a retry count below
    INT32_MAX, [read] on a [MediaPacketImpl] returns, having made at least one
    library read and at most the retry count plus one, every one but the last
    of which reported EAGAIN.  Whatever the retry count, a [read] on a
    [MediaPacketImpl] that returns in such a state has made at least one
    library read, and every one but the last reported EAGAIN.  For an argument
    that is null or not a [MediaPacketImpl], in every state, [read] returns
    and makes no library read.  In CLOSED and ERROR, [read] on a
    [MediaPacketImpl] raises and makes no library read. *)
Theorem read_retries_bounded (L : Library) (s : Sys L) (pkt : MediaPacketImpl) :
  (reachable L s ->
   0 <= mReadRetryMax (this s) /\
   (closed_or_error (mState (this s)) = false ->
    live s ->
    mReadRetryMax (this s) < INT32_MAX ->
    forall fuel,
      (Z.to_nat (mReadRetryMax (this s)) < fuel)%nat ->
      exists res p s' rs r,
        read L fuel (Some (IsMediaPacketImpl pkt)) s = Some (res, p, s') /\
        reads (calls s') = reads (calls s) ++ rs ++ [r] /\
        Forall (fun x => x = AVERROR_EAGAIN L) rs /\
        Z.of_nat (length (rs ++ [r])) <= mReadRetryMax (this s) + 1)) /\
  (closed_or_error (mState (this s)) = false ->
   live s ->
   forall fuel res p s',
     read L fuel (Some (IsMediaPacketImpl pkt)) s = Some (res, p, s') ->
     exists rs r,
       reads (calls s') = reads (calls s) ++ rs ++ [r] /\
       Forall (fun x => x = AVERROR_EAGAIN L) rs) /\
  (forall fuel ipkt,
      (forall p, ipkt <> Some (IsMediaPacketImpl p)) ->
      exists res s',
        read L fuel ipkt s = Some (res, ipkt, s') /\
        reads (calls s') = reads (calls s)) /\
  (closed_or_error (mState (this s)) = true ->
   forall fuel,
   exists e p s',
     read L (S fuel) (Some (IsMediaPacketImpl pkt)) s = Some (Thrown e, p, s') /\
     reads (calls s') = reads (calls s)).
Proof.
  split; [ | split; [ | split]].
  - intros Hreach.
    pose proof (reachable_retry L s Hreach) as Hmin.
    split; [assumption | ].
    intros Hst Hlive Hmax fuel Hfuel.
    unfold live in Hlive.
    destruct (mCtx (this s)) as [c | ] eqn:Hc; [ | contradiction].
    set (pkt0 := setComplete false (getSize (reset L pkt 0)) (reset L pkt 0)).
    set (s0 := add_call (call_setComplete false) (add_call call_MediaPacketImpl_reset s)).
    destruct (read_frames_spec L fuel (mPacket pkt0) 0 s0 c)
      as (rs & r & packet' & c1 & w1 & E & Hrs & Hlen & _);
      try assumption; try (subst s0; norm; lia).
    destruct (read_after_frames L fuel pkt s r packet' _ E) as (res & p & s' & E' & Hreads).
    exists res, p, s', rs, r. split; [exact E' | ].
    split; [ | split; [assumption | ]].
    + rewrite Hreads. subst s0. norm. rewrite !reads_app, reads_map. simpl.
      rewrite !app_nil_r. reflexivity.
    + rewrite length_app. simpl. subst s0. norm. lia.
  - intros Hst Hlive fuel res p s' H.
    unfold live in Hlive.
    destruct (mCtx (this s)) as [c | ] eqn:Hc; [ | contradiction].
    destruct (read_frames L fuel
                (mPacket (setComplete false (getSize (reset L pkt 0)) (reset L pkt 0))) 0
                (add_call (call_setComplete false) (add_call call_MediaPacketImpl_reset s)))
      as [[[res0 packet'] s1] | ] eqn:E.
    2:{ unfold read in H. rewrite E in H. discriminate. }
    pose proof E as E0.
    apply (read_frames_shape L fuel _ _ _ c) in E0; [ | assumption | assumption].
    destruct E0 as (rs & r & c1 & w1 & -> & -> & Hrs).
    destruct (read_after_frames L fuel pkt s r packet' _ E) as (res' & p' & s2 & E' & Hreads).
    rewrite E' in H. inversion H; subst res' p' s2.
    exists rs, r. split; [ | assumption].
    rewrite Hreads. norm. rewrite !reads_app, reads_map. simpl.
    rewrite !app_nil_r. reflexivity.
  - intros fuel ipkt Hother.
    assert (Hci : exists res s',
               check_interrupt L (-1) s = (res, s') /\ reads (calls s') = reads (calls s)).
    { destruct (check_interrupt L (-1) s) as [res s'] eqn:E. exists res, s'.
      split; [reflexivity | ].
      exact (silent_check_interrupt L reads is_read reads_ignores (-1) eq_refl _ _ _ E). }
    destruct Hci as (res & s' & E & Hreads). exists res, s'.
    split; [ | assumption].
    destruct ipkt as [[p | id] | ]; [destruct (Hother p eq_refl) | | ];
      unfold read; rewrite E; reflexivity.
  - intros Hst fuel. unfold read. cbn [read_frames].
    rewrite getFormatCtx_closed by assumption.
    do 3 eexists. split; [reflexivity | ].
    norm. rewrite !reads_ignores by reflexivity. reflexivity.
Qed.

Lemma read_retries_bounded_witness :
  (0 <= mReadRetryMax (this Script.opened) /\
   exists res p s' rs r,
     read Script.lib 2 (Some (IsMediaPacketImpl Script.blank)) Script.opened =
     Some (res, p, s') /\
     reads (calls s') = reads (calls Script.opened) ++ rs ++ [r] /\
     Forall (fun x => x = AVERROR_EAGAIN Script.lib) rs /\
     Z.of_nat (length (rs ++ [r])) <= mReadRetryMax (this Script.opened) + 1) /\
  (exists res s',
      read Script.lib 0 None Script.opened = Some (res, None, s') /\
      reads (calls s') = reads (calls Script.opened)).
Proof.
  split.
  - assert (R : reachable Script.lib Script.opened).
    { apply (reach_run Script.lib Script.fresh 0%nat Script.open_file (Ret_int 0)).
      + apply (reach_make Script.lib ([] : World Script.lib)). vm_compute. reflexivity.
      + vm_compute. reflexivity.
      + discriminate. }
    destruct (proj1 (read_retries_bounded Script.lib Script.opened Script.blank) R)
      as [Hmin Hread].
    split; [exact Hmin | ].
    apply Hread.
    + vm_compute. reflexivity.
    + vm_compute. discriminate.
    + vm_compute. reflexivity.
    + vm_compute. lia.
  - apply (proj1 (proj2 (proj2 (read_retries_bounded Script.lib Script.opened Script.blank)))).
    discriminate.
Defined.

(** C3 as stated fails: [read] on an argument that is not a
    [MediaPacketImpl] makes no library read at all. *)
Lemma read_without_library_read :
  ~ (forall (L : Library) fuel ipkt (s : Sys L) res p s',
        read L fuel ipkt s = Some (res, p, s') ->
        (length (reads (calls s)) < length (reads (calls s')))%nat).
Proof.
  intros H.
  pose proof (H Script.lib 1%nat (Some (OtherMediaPacket 1%N)) Script.opened) as H1.
  remember (read Script.lib 1 (Some (OtherMediaPacket 1%N)) Script.opened) as o eqn:E.
  vm_compute in E. subst o. specialize (H1 _ _ _ eq_refl).
  revert H1. vm_compute. lia.
Qed.

Lemma wrap32_range z : INT32_MIN <= wrap32 z <= INT32_MAX.
Proof.
  unfold wrap32, INT32_MIN, INT32_MAX.
  pose proof (Z.mod_pos_bound (z + 2147483648) 4294967296). lia.
Qed.

(** With the retry count at INT32_MAX the count of reads can never pass it:
    against a library that reports EAGAIN for ever the loop of [read] does not
    end, whatever the fuel. *)
Lemma read_frames_never_ends fuel : forall packet n (s : Sys Script.busy) c,
  closed_or_error (mState (this s)) = false ->
  mCtx (this s) = Some c ->
  mReadRetryMax (this s) = INT32_MAX ->
  read_frames Script.busy fuel packet n s = None.
Proof.
  induction fuel as [ | fuel IH]; intros packet n s c Hst Hc Hmax; [reflexivity | ].
  cbn [read_frames]. rewrite getFormatCtx_open by assumption. rewrite Hc.
  cbn [av_read_frame Script.busy Script.lib_reading]. norm.
  rewrite Hmax.
  assert (Hle : (wrap32 (n + 1) <=? INT32_MAX) = true)
    by (pose proof (wrap32_range (n + 1)); lia).
  rewrite Hle.
  replace (bool_decide (-11 = AVERROR_EAGAIN Script.busy)) with true by reflexivity.
  rewrite orb_true_r. cbn [andb].
  apply (IH _ _ _ c); norm; auto.
Qed.

(** ** The lifecycle *)

Lemma Script_check_never_raises : check_never_raises Script.lib.
Proof. intros w x e w' H. discriminate. Qed.

(** C1.  An object made by [make] starts in state INITED, and a call of the
    public interface changes the state only along the lifecycle: open takes
    INITED to OPENED when it returns a non-negative value and to ERROR when it
    returns a negative one, close takes OPENED, PLAYING or PAUSED to CLOSED or
    to ERROR likewise, pause takes PLAYING to PAUSED, play takes OPENED or
    PAUSED to PLAYING; every other call leaves the state as it is.  The
    interrupt check is assumed to raise nothing. *)
Theorem lifecycle_transitions (L : Library) :
  check_never_raises L ->
  (forall w s, make L w = Returned s -> mState (this s) = STATE_INITED) /\
  (forall fuel op s e s',
      run L fuel op s = Some (e, s') ->
      e <> Crashed ->
      transition op e (mState (this s)) (mState (this s'))).
Proof.
  intros Hq. split.
  - intros w s H. apply make_post in H. tauto.
  - intros fuel op s e s' Hrun He.
    apply run_post in Hrun as [T | [-> | (x & -> & (w & r & w' & Hx) & _)]].
    + exact T.
    + congruence.
    + exfalso. exact (Hq _ _ _ _ Hx).
Qed.

Lemma lifecycle_transitions_witness :
  transition Script.open_file (Ret_int 0) STATE_INITED STATE_OPENED.
Proof.
  apply (proj2 (lifecycle_transitions Script.lib Script_check_never_raises)
           0%nat Script.open_file Script.fresh (Ret_int 0) Script.opened).
  - vm_compute. reflexivity.
  - discriminate.
Defined.

(** ** open *)

(** C2.  In state OPENED, PLAYING or PAUSED, and in state INITED with a null
    or empty url, [open] returns -1 and changes nothing; in state CLOSED or
    ERROR it raises the exception of [getFormatCtx] and changes nothing. *)
Theorem open_refused (L : Library) url format dyn qmd options optionsNotSet (s : Sys L) :
  mState (this s) <> STATE_INITED \/ url = None \/ url = Some EmptyString ->
  open L url format dyn qmd options optionsNotSet s =
  (if closed_or_error (mState (this s))
   then Thrown (runtime_error_copy "Method called on Source in CLOSED or ERROR state.")
   else Returned (-1),
   s).
Proof.
  intros H. unfold open.
  destruct (closed_or_error (mState (this s))) eqn:Hc.
  - unfold bind at 1. rewrite getFormatCtx_closed by assumption. reflexivity.
  - unfold bind at 1. rewrite getFormatCtx_open by assumption.
    rewrite bind_get. case_bool_decide as Hi; [reflexivity | ].
    destruct H as [H | [-> | ->]]; [ | reflexivity | reflexivity].
    contradiction.
Qed.

Lemma open_refused_witness :
  open Script.lib (Some "file"%string) None false false None None Script.opened =
  (Returned (-1), Script.opened).
Proof.
  apply (open_refused Script.lib (Some "file"%string) None false false None None
           Script.opened).
  left. vm_compute. discriminate.
Defined.

(** ** play and pause *)

(** C8.  The guard of [play] holds in every state, so [play] raises
    HumbleRuntimeError whatever the state and changes nothing; hence an object
    made by [make] and used through the public interface is never in state
    PLAYING or PAUSED. *)
Theorem play_never_plays (L : Library) :
  (forall s : Sys L,
      (bool_decide (mState (this s) <> STATE_PAUSED)
       || bool_decide (mState (this s) <> STATE_OPENED) = true) /\
      play L s =
      (Thrown (HumbleRuntimeError "Can only play containers in OPENED or PAUSED states"), s)) /\
  (forall s : Sys L,
      reachable L s ->
      mState (this s) <> STATE_PLAYING /\ mState (this s) <> STATE_PAUSED).
Proof.
  split.
  - intros s. split; [ | apply play_raises].
    destruct (mState (this s)); reflexivity.
  - intros s H. apply reachable_states in H. split; intuition congruence.
Qed.

Lemma play_never_plays_witness :
  mState (this Script.opened) <> STATE_PLAYING /\ mState (this Script.opened) <> STATE_PAUSED.
Proof.
  apply (proj2 (play_never_plays Script.lib) Script.opened).
  apply (reach_run Script.lib Script.fresh 0%nat Script.open_file (Ret_int 0)).
  - apply (reach_make Script.lib ([] : World Script.lib)). vm_compute. reflexivity.
  - vm_compute. reflexivity.
  - discriminate.
Defined.

(** ** seek *)

(** C5.  Outside state OPENED, also in PLAYING and PAUSED, [seek] raises
    HumbleRuntimeError and changes nothing.  In state OPENED it hands
    [stream_index], [min_ts], [ts], [max_ts] and [flags] as they are to the
    library seek, leaves the state OPENED, and returns the result of the
    library seek when no interrupt is pending. *)
Theorem seek_passes_through (L : Library) stream_index min_ts ts max_ts flags (s : Sys L) :
  (mState (this s) <> STATE_OPENED ->
   seek L stream_index min_ts ts max_ts flags s =
   (Thrown (HumbleRuntimeError "Can only seek on OPEN (not paused or playing) sources"), s)) /\
  (forall c,
      mState (this s) = STATE_OPENED ->
      mCtx (this s) = Some c ->
      exists res s',
        seek L stream_index min_ts ts max_ts flags s = (res, s') /\
        let '(r, c', w') := avformat_seek_file L (world s) c stream_index min_ts ts max_ts flags in
        calls s' =
        calls s ++ [call_avformat_seek_file stream_index min_ts ts max_ts flags r;
                    call_VS_CHECK_INTERRUPT r] /\
        this s' = set_mCtx (Some c') (this s) /\
        mState (this s') = STATE_OPENED /\
        (check_passes L w' r -> res = Returned r)).
Proof.
  split.
  - intros H. unfold seek. rewrite bind_get.
    rewrite bool_decide_eq_true_2 by assumption. reflexivity.
  - intros c Hst Hc. unfold seek. rewrite bind_get.
    rewrite bool_decide_eq_false_2 by (intros H; apply H; assumption).
    unfold bind at 1. rewrite getFormatCtx_open by (rewrite Hst; reflexivity).
    rewrite Hc. cbn [deref]. rewrite bind_ret, bind_extern.
    destruct (avformat_seek_file L (world s) c stream_index min_ts ts max_ts flags)
      as [[r c'] w'] eqn:E.
    rewrite bind_modify. unfold check_interrupt, check_passes. norm.
    destruct (VS_CHECK_INTERRUPT L w' r) as [res w''] eqn:E'.
    do 2 eexists. split; [reflexivity | ]. norm.
    rewrite <- app_assoc. repeat split; auto.
Qed.

Lemma seek_passes_through_witness :
  exists s',
    seek Script.lib 0 0 10 20 0 Script.opened = (Returned 0, s') /\
    calls s' =
    calls Script.opened ++ [call_avformat_seek_file 0 0 10 20 0 0; call_VS_CHECK_INTERRUPT 0] /\
    mState (this s') = STATE_OPENED.
Proof.
  destruct (proj2 (seek_passes_through Script.lib 0 0 10 20 0 Script.opened)
              (Script.ctx_of Script.opened) eq_refl eq_refl)
    as (res & s' & E & Hcalls & _ & Hst & Hres).
  exists s'. rewrite (Hres eq_refl) in E. split; [exact E | ]. split; [exact Hcalls | exact Hst].
Defined.

(** ** getFileSize *)

(** C9.  Outside CLOSED and ERROR, on a live context, [getFileSize] returns
    a value that is not negative.  When the context has an input format whose
    flags have a bit in common with the no-file flag, the result is 0 and the
    library is not asked: nothing changes.  Otherwise, with no input format or
    with one that does not carry the flag, the library is asked for the size
    of the I/O context once, and the result is the larger of 0 and the size it
    reports.  The object is left as it is. *)
Theorem getFileSize_not_negative (L : Library) (s : Sys L) c :
  closed_or_error (mState (this s)) = false ->
  mCtx (this s) = Some c ->
  exists r s',
    getFileSize L s = (Returned r, s') /\
    0 <= r /\
    this s' = this s /\
    match iformat c with
    | Some f =>
        if Z.land (if_flags f) (AVFMT_NOFILE L) =? 0
        then r = Z.max 0 (fst (avio_size L (world s) (pb c))) /\
             calls s' = calls s ++ [call_avio_size (fst (avio_size L (world s) (pb c)))] /\
             world s' = snd (avio_size L (world s) (pb c))
        else r = 0 /\ s' = s
    | None =>
        r = Z.max 0 (fst (avio_size L (world s) (pb c))) /\
        calls s' = calls s ++ [call_avio_size (fst (avio_size L (world s) (pb c)))] /\
        world s' = snd (avio_size L (world s) (pb c))
    end.
Proof.
  intros Hst Hc. unfold getFileSize.
  unfold bind at 1. rewrite getFormatCtx_open by assumption.
  rewrite Hc. cbn [deref]. rewrite bind_ret.
  assert (Hask : no_file L c = false ->
            exists r s',
              (let* retval := extern (fun w => avio_size L w (pb c)) call_avio_size in
               ret (FFMAX 0 retval)) s = (Returned r, s') /\
              0 <= r /\ this s' = this s /\
              r = Z.max 0 (fst (avio_size L (world s) (pb c))) /\
              calls s' = calls s ++ [call_avio_size (fst (avio_size L (world s) (pb c)))] /\
              world s' = snd (avio_size L (world s) (pb c))).
  { intros _. rewrite bind_extern. destruct (avio_size L (world s) (pb c)) as [sz w'].
    unfold ret, FFMAX. do 2 eexists. split; [reflexivity | ]. norm.
    destruct (0 >? sz) eqn:Hcmp; split_and!; try reflexivity; lia. }
  unfold no_file in *.
  destruct (iformat c) as [f | ].
  - destruct (Z.land (if_flags f) (AVFMT_NOFILE L) =? 0); cbn [negb] in *.
    + destruct (Hask eq_refl) as (r & s' & E & Hr & Hthis & Hv1 & Hv2 & Hv3).
      exists r, s'. split_and!; assumption.
    + exists 0, s. split_and!; solve [reflexivity | lia].
  - destruct (Hask eq_refl) as (r & s' & E & Hr & Hthis & Hv1 & Hv2 & Hv3).
    exists r, s'. split_and!; assumption.
Qed.

Lemma getFileSize_not_negative_witness :
  (exists s',
      getFileSize Script.lib (Script.sys STATE_OPENED [-5] None [] []) = (Returned 0, s') /\
      calls s' = [call_avio_size (-5)]) /\
  (exists s',
      getFileSize Script.lib
        (Script.with_format Script.file_format (Script.sys STATE_OPENED [7] None [] []))
      = (Returned 7, s') /\
      calls s' = [call_avio_size 7]) /\
  getFileSize Script.lib
    (Script.with_format Script.no_file_format (Script.sys STATE_OPENED [7] None [] []))
  = (Returned 0,
     Script.with_format Script.no_file_format (Script.sys STATE_OPENED [7] None [] [])).
Proof.
  split; [ | split].
  - destruct (getFileSize_not_negative Script.lib (Script.sys STATE_OPENED [-5] None [] [])
                (set_streams [] Script.blank_ctx) eq_refl eq_refl)
      as (r & s' & E & _ & _ & Hr & Hcalls & _).
    exists s'. split; [ | exact Hcalls].
    rewrite E, Hr. reflexivity.
  - destruct (getFileSize_not_negative Script.lib
                (Script.with_format Script.file_format
                   (Script.sys STATE_OPENED [7] None [] []))
                (set_iformat (Some Script.file_format) (set_streams [] Script.blank_ctx))
                eq_refl eq_refl)
      as (r & s' & E & _ & _ & Hr & Hcalls & _).
    exists s'. split; [ | exact Hcalls].
    rewrite E, Hr. reflexivity.
  - destruct (getFileSize_not_negative Script.lib
                (Script.with_format Script.no_file_format
                   (Script.sys STATE_OPENED [7] None [] []))
                (set_iformat (Some Script.no_file_format) (set_streams [] Script.blank_ctx))
                eq_refl eq_refl)
      as (r & s' & E & _ & _ & Hr & Hs).
    rewrite E, Hr, Hs. reflexivity.
Defined.

(** ** getSourceStream *)

(** C10.  In state OPENED, PLAYING or PAUSED, on a live context,
    [getSourceStream] brings the stream wrappers up to date and then returns
    null, without raising, for every position from the number of streams
    upwards.  A negative position passes the comparison with the number of
    streams and reaches the lookup in the vector: the result is what the
    lookup gives, an exception or a stream, and never null. *)
Theorem getSourceStream_out_of_range (L : Library) (s : Sys L) c :
  opened_playing_or_paused (mState (this s)) = true ->
  mCtx (this s) = Some c ->
  exists s1,
    sync_streams L s = (Returned tt, s1) /\
    (forall position,
        mNumStreams (this s1) <= position ->
        getSourceStream L position s = (Returned None, s1)) /\
    (forall position,
        position < 0 ->
        0 <= mNumStreams (this s1) ->
        getSourceStream L position s =
        (match mStreams (this s1) !! Z.to_nat (to_size_t position) with
         | Some st => Returned (Some st)
         | None => Thrown std_out_of_range
         end, s1) /\
        fst (getSourceStream L position s) <> Returned None).
Proof.
  intros Hst Hc.
  destruct (sync_streams_ok L s c Hc) as (s1 & c1 & E & _).
  exists s1. split; [assumption | ].
  assert (Hg : forall position,
             getSourceStream L position s =
             (if position <? mNumStreams (this s1)
              then (let* v := get mStreams in
                    let* p := vector_at L v position in ret (Some p))
              else ret None) s1).
  { intros position. unfold getSourceStream. rewrite bind_get, Hst. cbn [negb].
    unfold bind at 1. rewrite E. rewrite bind_get. reflexivity. }
  split.
  - intros position Hp. rewrite Hg.
    replace (position <? mNumStreams (this s1)) with false by lia. reflexivity.
  - intros position Hneg Hk.
    assert (Hv : getSourceStream L position s =
                 (match mStreams (this s1) !! Z.to_nat (to_size_t position) with
                  | Some st => Returned (Some st)
                  | None => Thrown std_out_of_range
                  end, s1)).
    { rewrite Hg. replace (position <? mNumStreams (this s1)) with true by lia.
      rewrite bind_get. unfold vector_at.
      destruct (mStreams (this s1) !! Z.to_nat (to_size_t position)); reflexivity. }
    split; [exact Hv | ]. rewrite Hv. cbn [fst].
    destruct (mStreams (this s1) !! Z.to_nat (to_size_t position)); discriminate.
Qed.

Lemma getSourceStream_out_of_range_witness :
  exists s1,
    getSourceStream Script.lib 5 Script.opened = (Returned None, s1) /\
    getSourceStream Script.lib (-1) Script.opened = (Thrown std_out_of_range, s1).
Proof.
  destruct (getSourceStream_out_of_range Script.lib Script.opened
              (Script.ctx_of Script.opened) eq_refl eq_refl)
    as (s1 & E & Hhigh & Hneg).
  exists s1. pose proof E as E'. vm_compute in E'. inversion E' as [Hs1].
  clear E'. subst s1.
  split.
  - apply Hhigh. vm_compute. discriminate.
  - destruct (Hneg (-1)) as [Hv _].
    + reflexivity.
    + vm_compute. discriminate.
    + rewrite Hv. reflexivity.
Defined.

(** ** queryStreamMetaData *)

Section StreamInfo.

Context (L : Library).

Lemma bind_getFormatCtx {A} (k : option AVFormatContext -> M L A) s :
  closed_or_error (mState (this s)) = false ->
  bind (getFormatCtx L) k s = k (mCtx (this s)) s.
Proof. intros H. unfold bind at 1. rewrite getFormatCtx_open by assumption. reflexivity. Qed.

Lemma bind_assoc {A B C} (m : M L A) (k : A -> M L B) (k' : B -> M L C) s :
  bind (bind m k) k' s = bind m (fun a => bind (k a) k') s.
Proof. unfold bind. destruct (m s) as [[a | e | ] s1]; reflexivity. Qed.

Lemma bind_undefined {A B} (k : A -> M L B) s : bind undefined k s = (Undefined, s).
Proof. reflexivity. Qed.

Lemma keeps_gotten_setup_new_streams g n i :
  keeps mStreamInfoGotten (setup_new_streams L g n i).
Proof.
  revert i. induction n as [ | n IH]; intros i; simpl; [keeps_auto | ].
  unfold update_ctx. keeps_auto.
Qed.

Lemma keeps_gotten_doSetupSourceStreams :
  keeps mStreamInfoGotten (doSetupSourceStreams L).
Proof.
  pose proof keeps_gotten_setup_new_streams.
  unfold doSetupSourceStreams. keeps_auto.
Qed.

Lemma query_tail (x : int32) (s1 : Sys L) res s' :
  (let* found := (if x >=? 0 then let* c := the_ctx L in ret (nb_streams c >? 0)
                   else ret false) in
   (if found then doSetupSourceStreams L;; ret tt else ret tt);;
   check_interrupt L x) s1 = (res, s') ->
  mStreamInfoGotten (this s') = mStreamInfoGotten (this s1) /\
  stream_info_queries (calls s') = stream_info_queries (calls s1).
Proof.
  intros H.
  assert (K : keeps mStreamInfoGotten
                (let* found := (if x >=? 0 then let* c := the_ctx L in ret (nb_streams c >? 0)
                                 else ret false) in
                 (if found then doSetupSourceStreams L;; ret tt else ret tt);;
                 check_interrupt L x)).
  { pose proof keeps_gotten_doSetupSourceStreams. unfold the_ctx. keeps_auto. }
  assert (Q : silent stream_info_queries
                (let* found := (if x >=? 0 then let* c := the_ctx L in ret (nb_streams c >? 0)
                                 else ret false) in
                 (if found then doSetupSourceStreams L;; ret tt else ret tt);;
                 check_interrupt L x)).
  { pose proof silent_queries_doSetupSourceStreams. unfold the_ctx. silent_auto. }
  split; [exact (K _ _ _ H) | exact (Q _ _ _ H)].
Qed.

Lemma query_tail_returns (x : int32) (s1 : Sys L) c1 :
  mCtx (this s1) = Some c1 ->
  exists res s',
    (let* found := (if x >=? 0 then let* c := the_ctx L in ret (nb_streams c >? 0)
                     else ret false) in
     (if found then doSetupSourceStreams L;; ret tt else ret tt);;
     check_interrupt L x) s1 = (res, s') /\
    ((forall w, check_passes L w x) -> res = Returned x).
Proof.
  intros Hc.
  assert (Hci : forall s2 : Sys L,
             exists res s', check_interrupt L x s2 = (res, s') /\
                            ((forall w, check_passes L w x) -> res = Returned x)).
  { intros s2. unfold check_interrupt, check_passes.
    destruct (VS_CHECK_INTERRUPT L (world s2) x) as [res w] eqn:E.
    do 2 eexists. split; [reflexivity | ].
    intros Hw. specialize (Hw (world s2)). rewrite E in Hw. exact Hw. }
  destruct (x >=? 0).
  - unfold the_ctx. rewrite !bind_assoc, bind_get, Hc. cbn [deref]. rewrite !bind_ret.
    destruct (nb_streams c1 >? 0).
    + destruct (doSetupSourceStreams_ok L s1 c1 Hc) as (r & s2 & c2 & E & _).
      rewrite bind_assoc. unfold bind at 1. rewrite E. rewrite bind_ret. apply Hci.
    + rewrite bind_ret. apply Hci.
  - rewrite !bind_ret. apply Hci.
Qed.

End StreamInfo.


Lemma Script_check_passes w x : check_passes Script.lib w x.
Proof. reflexivity. Qed.



(** ** What a call adds to the log *)

Section Appends.

Context (L : Library) (p : Call -> bool).

Lemma appends_nil {A} (m : M L A) :
  (forall s r s', m s = (r, s') -> calls s' = calls s) -> appends p m.
Proof.
  intros H s r s' E. exists []. rewrite app_nil_r. split; [eapply H; eassumption | reflexivity].
Qed.

Lemma appends_ret {A} (a : A) : appends (L:=L) p (ret a).
Proof. apply appends_nil. intros s r s' H. inversion H. reflexivity. Qed.

Lemma appends_undefined {A} : appends p (@undefined L A).
Proof. apply appends_nil. intros s r s' H. inversion H. reflexivity. Qed.

Lemma appends_throw {A} e : appends p (@throw L A e).
Proof. apply appends_nil. intros s r s' H. inversion H. reflexivity. Qed.

Lemma appends_get {A} (f : SourceImpl -> A) : appends (L:=L) p (get f).
Proof. apply appends_nil. intros s r s' H. inversion H. reflexivity. Qed.

Lemma appends_modify f : appends (L:=L) p (modify f).
Proof. apply appends_nil. intros s r s' H. inversion H. reflexivity. Qed.

Lemma appends_deref {A} (q : option A) : appends (L:=L) p (deref q).
Proof. destruct q; [apply appends_ret | apply appends_undefined]. Qed.

Lemma appends_bind {A B} (m : M L A) (k : A -> M L B) :
  appends p m -> (forall a, appends p (k a)) -> appends p (bind m k).
Proof.
  intros Hm Hk s r s' H.
  apply bind_inv in H as [(a & s1 & E & H) | [(e & E & _) | (E & _)]].
  - apply Hm in E as (l1 & E1 & H1). apply Hk in H as (l2 & E2 & H2).
    exists (l1 ++ l2). rewrite E2, E1, <- app_assoc. split; [reflexivity | ].
    rewrite forallb_app, H1, H2. reflexivity.
  - eapply Hm; eassumption.
  - eapply Hm; eassumption.
Qed.

Lemma appends_extern {A} (c : World L -> A * World L) ev :
  (forall a, p (ev a) = true) -> appends p (extern c ev).
Proof.
  intros Hev s r s' H. unfold extern in H. destruct (c (world s)) as [a w].
  inversion H; subst. exists [ev a]. split; [reflexivity | ]. simpl. rewrite Hev. reflexivity.
Qed.

End Appends.

Create HintDb appends.
#[global] Hint Resolve appends_ret appends_undefined appends_throw appends_get appends_modify
  appends_deref : appends.

Ltac appends_step :=
  match goal with
  | |- appends _ (bind _ _) => apply appends_bind; [ | intros ? ]
  | |- appends _ (extern _ _) => apply appends_extern; intros ?; reflexivity
  | |- appends _ (match ?x with _ => _ end) => destruct x
  | |- appends _ _ => solve [ eauto with appends ]
  end.

Ltac appends_auto := repeat appends_step.

Section ReadPacket.

Context (L : Library).

Lemma appends_setup_new_streams g n i : appends is_make (setup_new_streams L g n i).
Proof.
  revert i. induction n as [ | n IH]; intros i; simpl; unfold update_ctx; appends_auto.
Qed.

Lemma appends_sync_streams : appends is_make (sync_streams L).
Proof.
  pose proof appends_setup_new_streams.
  unfold sync_streams, doSetupSourceStreams. appends_auto.
Qed.

Lemma makes_only l :
  forallb is_make l = true -> reads l = [] /\ ~ In (call_setComplete true) l.
Proof.
  induction l as [ | ev l IH]; simpl; [auto | ].
  intros H. apply andb_true_iff in H as [Hev Hl]. destruct (IH Hl) as [Hr Hn].
  destruct ev; try discriminate. split; [assumption | ].
  intros [H | H]; [discriminate | contradiction].
Qed.

(** [getSourceStream] at a position that is not negative, when the stream
    wrappers are counted by [mNumStreams]: the stream at that position, or
    null beyond the last one. *)
Lemma getSourceStream_in_range position (s : Sys L) c :
  opened_playing_or_paused (mState (this s)) = true ->
  mCtx (this s) = Some c ->
  streams_ok (this s) ->
  nb_streams c <= INT32_MAX ->
  0 <= position ->
  exists s1 l,
    getSourceStream L position s = (Returned (mStreams (this s1) !! Z.to_nat position), s1) /\
    calls s1 = calls s ++ l /\
    forallb is_make l = true.
Proof.
  intros Hst Hc Hok Hnb Hpos.
  destruct (sync_streams_ok L s c Hc) as (s1 & c1 & E & Hc1 & _ & _ & Hok1 & _).
  destruct (Hok1 Hok Hnb) as [Hlen Hmax].
  destruct (appends_sync_streams _ _ _ E) as (l & Hl & Hmk).
  exists s1, l. split; [ | split; assumption].
  unfold getSourceStream. rewrite bind_get, Hst. cbn [negb].
  unfold bind at 1. rewrite E. rewrite bind_get.
  destruct (position <? mNumStreams (this s1)) eqn:Hlt.
  - rewrite bind_get. unfold vector_at.
    rewrite to_size_t_small by lia.
    destruct (mStreams (this s1) !! Z.to_nat position) as [st | ] eqn:Hlk; [reflexivity | ].
    apply lookup_ge_None in Hlk. lia.
  - rewrite (lookup_ge_None_2 (mStreams (this s1)) (Z.to_nat position)) by lia.
    reflexivity.
Qed.

(** Lines 323-334 of [read] in state OPENED, PLAYING or PAUSED. *)
Lemma set_packet_time_base_spec pkt (s : Sys L) c :
  opened_playing_or_paused (mState (this s)) = true ->
  mCtx (this s) = Some c ->
  streams_ok (this s) ->
  nb_streams c <= INT32_MAX ->
  exists pkt' s' l,
    set_packet_time_base L pkt s = (Returned pkt', s') /\
    calls s' = calls s ++ l /\
    reads l = [] /\
    ~ In (call_setComplete true) l /\
    mPacket pkt' = mPacket pkt /\
    mIsComplete pkt' = mIsComplete pkt /\
    (0 <= getStreamIndex pkt ->
     forall st,
       mStreams (this s') !! Z.to_nat (getStreamIndex pkt) = Some st ->
       exists otb,
         In (call_getTimeBase st otb) l /\
         forall tb, otb = Some tb -> mTimeBase pkt' = Some tb).
Proof.
  intros Hst Hc Hok Hnb. unfold set_packet_time_base.
  destruct (getStreamIndex pkt >=? 0) eqn:Hidx.
  2:{ exists pkt, s, []. rewrite app_nil_r. repeat split; auto. lia. }
  destruct (getSourceStream_in_range (getStreamIndex pkt) s c)
    as (s1 & l & E & Hl & Hmk); try assumption; try lia.
  destruct (makes_only l Hmk) as [Hr Hn].
  unfold bind at 1. rewrite E.
  destruct (mStreams (this s1) !! Z.to_nat (getStreamIndex pkt)) as [st | ] eqn:Hlk.
  2:{ exists pkt, s1, l. repeat split; auto. intros _ st Hst'. congruence. }
  rewrite bind_extern.
  destruct (getTimeBase L (world s1) st) as [[tb | ] w'] eqn:Htb.
  - rewrite bind_log. unfold ret. do 3 eexists. split; [reflexivity | ]. norm.
    rewrite Hl, <- !app_assoc. split; [reflexivity | ].
    split; [ | split; [ | split; [reflexivity | split; [reflexivity | ]]]].
    + rewrite reads_app, Hr. reflexivity.
    + rewrite in_app_iff. intros [H | [H | [H | []]]]; [contradiction | | ]; discriminate.
    + intros _ st' Hst'. rewrite Hlk in Hst'. inversion Hst'; subst st'.
      exists (Some tb). split.
      * rewrite in_app_iff. right. left. reflexivity.
      * intros tb' Heq. inversion Heq; subst. reflexivity.
  - unfold ret. do 3 eexists. split; [reflexivity | ]. norm.
    rewrite Hl, <- !app_assoc. split; [reflexivity | ].
    split; [ | split; [ | split; [reflexivity | split; [reflexivity | ]]]].
    + rewrite reads_app, Hr. reflexivity.
    + rewrite in_app_iff. intros [H | [H | []]]; [contradiction | ]; discriminate.
    + intros _ st' Hst'. rewrite Hlk in Hst'. inversion Hst'; subst st'.
      exists None. split.
      * rewrite in_app_iff. right. left. reflexivity.
      * intros tb' Heq. discriminate.
Qed.

(** Every call of [read] only adds to the log. *)
Lemma appends_any_setup_new_streams g n i :
  appends (fun _ => true) (setup_new_streams L g n i).
Proof.
  revert i. induction n as [ | n IH]; intros i; simpl; unfold update_ctx; appends_auto.
Qed.

Lemma appends_any_set_packet_time_base pkt :
  appends (fun _ => true) (set_packet_time_base L pkt).
Proof.
  pose proof appends_any_setup_new_streams.
  unfold set_packet_time_base, getSourceStream, sync_streams, doSetupSourceStreams,
    vector_at, log.
  appends_auto.
  intros s0 res s1 E. inversion E; subst. eexists [_]. split; reflexivity.
Qed.

Lemma read_frames_appends fuel : forall packet n (s : Sys L) res packet' s',
  read_frames L fuel packet n s = Some (res, packet', s') ->
  exists l, calls s' = calls s ++ l.
Proof.
  induction fuel as [ | fuel IH]; intros packet n s res pk s' H; [discriminate | ].
  cbn [read_frames] in H.
  destruct (closed_or_error (mState (this s))) eqn:Hst.
  - rewrite getFormatCtx_closed in H by assumption. inversion H; subst.
    exists []. rewrite app_nil_r. reflexivity.
  - rewrite getFormatCtx_open in H by assumption.
    destruct (mCtx (this s)) as [c | ].
    2:{ inversion H; subst. exists []. rewrite app_nil_r. reflexivity. }
    destruct (av_read_frame L (world s) c packet) as [[[r c'] packet'] w'].
    norm.
    destruct (bool_decide (r = AVERROR_EAGAIN L)
              && ((mReadRetryMax (this s) <? 0)
                  || (wrap32 (n + 1) <=? mReadRetryMax (this s)))).
    + apply IH in H as (l & Hl). norm. rewrite Hl, <- app_assoc. eauto.
    + inversion H; subst. norm. eauto.
Qed.

(** Lines 323-334 of [read] before the container is opened: a stream index
    that is not negative makes [getSourceStream] raise. *)
Lemma set_packet_time_base_inited pkt (s : Sys L) :
  mState (this s) = STATE_INITED ->
  set_packet_time_base L pkt s =
  if getStreamIndex pkt >=? 0
  then (Thrown (HumbleRuntimeError
          "Attempt to get source stream from source when not opened, playing or paused is ignored"),
        s)
  else (Returned pkt, s).
Proof.
  intros Hst. unfold set_packet_time_base.
  destruct (getStreamIndex pkt >=? 0); [ | reflexivity].
  unfold getSourceStream. rewrite bind_assoc, bind_get, Hst. reflexivity.
Qed.

End ReadPacket.


Lemma Script_read_keeps_streams_bounded : read_keeps_streams_bounded Script.lib.
Proof.
  intros w c p H. cbn [av_read_frame Script.lib Script.lib_reading].
  destruct (Script.next w). exact H.
Qed.



(** ** close *)

(** C4, at the input where it fails: on an open container whose custom I/O
    handler reports -1 from its close, [close] evaluates [getURL()] for its
    error message after it has cleared [mCtx], which dereferences a null
    pointer; the state is not ERROR, it is still OPENED. *)
Theorem close_handler_failure :
  fst (close Script.lib (Script.sys STATE_OPENED [-1] (Some 7%N) [] [])) = Undefined /\
  mState (this (snd (close Script.lib (Script.sys STATE_OPENED [-1] (Some 7%N) [] []))))
  = STATE_OPENED /\
  mCtx (this (snd (close Script.lib (Script.sys STATE_OPENED [-1] (Some 7%N) [] [])))) = None /\
  In (call_url_close 7%N (-1))
     (calls (snd (close Script.lib (Script.sys STATE_OPENED [-1] (Some 7%N) [] [])))).
Proof. vm_compute. repeat split. auto. Qed.

Section Close.

Context (L : Library).

Lemma close_streams_spec v : forall s : Sys L,
  mStreams (this s) = v ->
  close_streams L (length v) s =
  (Returned tt,
   {| world := closing_world L (world s) v;
      calls := calls s ++ closing_calls v;
      this := set_mStreams [] (this s) |}).
Proof.
  induction v as [ | x v IH] using rev_ind; intros s Hv.
  - destruct s as [w l o]. destruct o. simpl in *. subst.
    unfold closing_calls. simpl. rewrite app_nil_r. reflexivity.
  - rewrite length_app. simpl length. rewrite Nat.add_1_r.
    cbn [close_streams]. rewrite bind_get, Hv, last_snoc.
    rewrite bind_extern_, bind_log, bind_modify. rewrite removelast_last.
    rewrite IH by reflexivity. norm.
    unfold closing_world, closing_calls. rewrite rev_app_distr. simpl.
    rewrite <- !app_assoc. reflexivity.
Qed.

(** [close] in state OPENED, PLAYING or PAUSED on a live context, step by
    step: every stream wrapper is told and released, the count is 0, the
    context is closed; without a handler the result is 0 and the state CLOSED;
    with a handler the result is that of its close and the state CLOSED,
    unless that result is negative, where the error message dereferences the
    cleared context. *)
Lemma close_spec (s : Sys L) c :
  opened_playing_or_paused (mState (this s)) = true ->
  mCtx (this s) = Some c ->
  let v := mStreams (this s) in
  let w1 := avformat_close_input L (closing_world L (world s) v) (Some c) in
  let l1 := calls s ++ closing_calls v ++ [call_avformat_close_input] in
  let o1 := set_mCtx None (set_mNumStreams 0 (set_mStreams [] (this s))) in
  match mIOHandler (this s) with
  | None =>
      close L s =
      (Returned 0, {| world := w1; calls := l1; this := set_mState STATE_CLOSED o1 |})
  | Some h =>
      let w2 := match pb c with Some io => avio_flush L w1 io | None => w1 end in
      let l3 :=
        l1 ++ match pb c with Some io => [call_avio_flush io] | None => [] end
           ++ [call_url_close h (fst (url_close L w2 h))]
           ++ match pb c with Some io => [call_av_freep_buffer io] | None => [] end
           ++ [call_av_free; call_delete_handler h] in
      close L s =
      if fst (url_close L w2 h) <? 0
      then (Undefined,
            {| world := snd (url_close L w2 h); calls := l3;
               this := set_mIOHandler None o1 |})
      else (Returned (fst (url_close L w2 h)),
            {| world := snd (url_close L w2 h); calls := l3;
               this := set_mState STATE_CLOSED (set_mIOHandler None o1) |})
  end.
Proof.
  intros Hst Hc v w1 l1 o1. subst v w1 l1 o1.
  assert (Hne : bool_decide (mState (this s) <> STATE_ERROR) = true).
  { apply bool_decide_eq_true. intros H. rewrite H in Hst. discriminate. }
  assert (Hhead :
             close L s =
             (let* retval := doCloseFileHandles L (pb c) in
              (if retval <? 0 then getURL L;; modify (set_mState STATE_ERROR) else ret tt);;
              let* st := get mState in
              (if bool_decide (st <> STATE_ERROR)
               then modify (set_mState STATE_CLOSED) else ret tt);;
              ret retval)
               {| world := avformat_close_input L
                             (closing_world L (world s) (mStreams (this s))) (Some c);
                  calls := (calls s ++ closing_calls (mStreams (this s)))
                           ++ [call_avformat_close_input];
                  this := set_mCtx None
                            (set_mNumStreams 0 (set_mStreams [] (this s))) |}).
  { unfold close. rewrite bind_get, Hst. cbn [negb]. rewrite bind_get.
    unfold bind at 1. rewrite (close_streams_spec _ s eq_refl).
    rewrite bind_modify. norm.
    rewrite bind_getFormatCtx by (norm; apply opp_not_closed; assumption). norm.
    rewrite Hc. cbn [deref]. rewrite bind_ret, bind_get, bind_extern_, bind_modify. norm.
    rewrite Hc. reflexivity. }
  rewrite Hhead. clear Hhead.
  unfold doCloseFileHandles. rewrite bind_assoc, bind_get. norm.
  destruct (mIOHandler (this s)) as [h | ] eqn:Hh.
  - rewrite !bind_assoc.
    destruct (pb c) as [io | ] eqn:Hpb.
    + rewrite bind_extern_, bind_assoc, bind_extern. norm.
      destruct (url_close L _ h) as [r w3] eqn:Hclose.
      rewrite !bind_assoc, bind_log, !bind_assoc, bind_log, !bind_assoc, bind_log.
      rewrite !bind_assoc, bind_modify, bind_ret. norm.
      destruct (r <? 0) eqn:Hr.
      * rewrite bind_assoc. unfold getURL. rewrite !bind_assoc.
        rewrite bind_getFormatCtx by (norm; apply opp_not_closed; assumption). norm.
        cbn [deref]. rewrite bind_undefined.
        unfold set_this, add_call, set_world. norm. rewrite <- !app_assoc. reflexivity.
      * rewrite bind_ret, bind_get. norm. rewrite Hne, bind_modify. unfold ret.
        unfold set_this, add_call, set_world. norm. rewrite <- !app_assoc. reflexivity.
    + rewrite bind_ret, bind_assoc, bind_extern. norm.
      destruct (url_close L _ h) as [r w3] eqn:Hclose.
      rewrite !bind_assoc, bind_ret, !bind_assoc, bind_log, !bind_assoc, bind_log.
      rewrite !bind_assoc, bind_modify, bind_ret. norm.
      destruct (r <? 0) eqn:Hr.
      * rewrite bind_assoc. unfold getURL. rewrite !bind_assoc.
        rewrite bind_getFormatCtx by (norm; apply opp_not_closed; assumption). norm.
        cbn [deref]. rewrite bind_undefined.
        unfold set_this, add_call, set_world. norm. rewrite <- !app_assoc. reflexivity.
      * rewrite bind_ret, bind_get. norm. rewrite Hne, bind_modify. unfold ret.
        unfold set_this, add_call, set_world. norm. rewrite <- !app_assoc. reflexivity.
  - rewrite !bind_ret. cbn [Z.ltb Z.compare]. rewrite bind_ret, bind_get. norm.
    rewrite Hne, bind_modify. unfold ret.
    unfold set_this, add_call, set_world. norm. rewrite <- !app_assoc. reflexivity.
Qed.

End Close.

(** ** Runs against the scripted library *)

(** Open with the stream information queried, count the streams, read a
    packet, close. *)
Example run_open_read_close :
  let ops := [op_open (Some "file"%string) None false true None None;
              op_getNumStreams;
              op_read (Some (IsMediaPacketImpl Script.blank));
              op_close] in
  fst (Script.run_all ops (Script.made [])) = [Ret_int 0; Ret_int 2; Ret_int 0; Ret_int 0] /\
  mState (this (snd (Script.run_all ops (Script.made [])))) = STATE_CLOSED /\
  mNumStreams (this (snd (Script.run_all ops (Script.made [])))) = 0.
Proof. vm_compute. repeat split. Qed.

(** A library open that fails leaves the object in state ERROR, where every
    further call is refused. *)
Example run_open_fails :
  let ops := [op_open (Some "file"%string) None false false None None;
              op_getDuration] in
  fst (Script.run_all ops (Script.made [-2])) =
  [Ret_int (-2);
   Raised (runtime_error_copy "Method called on Source in CLOSED or ERROR state.")] /\
  mState (this (snd (Script.run_all ops (Script.made [-2])))) = STATE_ERROR.
Proof. vm_compute. repeat split. Qed.

(** A container on custom I/O whose handler closes well: the custom-I/O flag
    is set by open and close returns the result of the handler. *)
Example run_custom_io :
  let ops := [op_open (Some "custom"%string) None false false None None;
              op_getFlag 128;
              op_close] in
  fst (Script.run_all ops (Script.made [0; 0; 4])) = [Ret_int 0; Ret_other; Ret_int 4] /\
  mState (this (snd (Script.run_all ops (Script.made [0; 0; 4])))) = STATE_CLOSED /\
  mIOHandler (this (snd (Script.run_all ops (Script.made [0; 0; 4])))) = None.
Proof. vm_compute. repeat split. Qed.

(** Against a library that reports EAGAIN for ever, [read] with the retry
    count 1 gives up after two library reads. *)
Example run_read_gives_up :
  match read Script.busy 5 (Some (IsMediaPacketImpl Script.blank))
             {| world := [] : World Script.busy; calls := [];
                this := this (Script.sys STATE_OPENED [] None [] []) |} with
  | Some (r, _, s') => r = Returned (-11) /\ reads (calls s') = [-11; -11]
  | None => False
  end.
Proof. vm_compute. repeat split. Qed.

(** ** Properties kept by the methods *)

Section Preserves.

Context (L : Library) (P : SourceImpl -> Prop).

Lemma preserves_ret {A} (a : A) : preserves (L:=L) P (ret a).
Proof. intros s r s' H. inversion H; subst. trivial. Qed.

Lemma preserves_throw {A} e : preserves P (@throw L A e).
Proof. intros s r s' H. inversion H; subst. trivial. Qed.

Lemma preserves_undefined {A} : preserves P (@undefined L A).
Proof. intros s r s' H. inversion H; subst. trivial. Qed.

Lemma preserves_get {A} (f : SourceImpl -> A) : preserves (L:=L) P (get f).
Proof. intros s r s' H. inversion H; subst. trivial. Qed.

Lemma preserves_deref {A} (q : option A) : preserves (L:=L) P (deref q).
Proof. destruct q; [apply preserves_ret | apply preserves_undefined]. Qed.

Lemma preserves_extern {A} (c : World L -> A * World L) ev : preserves P (extern c ev).
Proof.
  intros s r s' H. unfold extern in H. destruct (c (world s)). inversion H; subst. trivial.
Qed.

Lemma preserves_extern_ (c : World L -> World L) ev : preserves P (extern_ c ev).
Proof. intros s r s' H. inversion H; subst. trivial. Qed.

Lemma preserves_log ev : preserves (L:=L) P (log ev).
Proof. intros s r s' H. inversion H; subst. trivial. Qed.

Lemma preserves_check_interrupt x : preserves P (check_interrupt L x).
Proof.
  intros s r s' H. unfold check_interrupt in H.
  destruct (VS_CHECK_INTERRUPT L (world s) x). inversion H; subst. trivial.
Qed.

Lemma preserves_modify g : (forall o, P o -> P (g o)) -> preserves (L:=L) P (modify g).
Proof. intros Hg s r s' H. inversion H; subst. simpl. apply Hg. Qed.

Lemma preserves_bind {A B} (m : M L A) (k : A -> M L B) :
  preserves P m -> (forall a, preserves P (k a)) -> preserves P (bind m k).
Proof.
  intros Hm Hk s r s' H HP. unfold bind in H.
  destruct (m s) as [[a | e | ] s1] eqn:E; apply (Hm _ _ _) in E; trivial.
  - exact (Hk a _ _ _ H E).
  - inversion H; subst. assumption.
  - inversion H; subst. assumption.
Qed.

End Preserves.

Create HintDb preserves.
#[global] Hint Resolve preserves_ret preserves_throw preserves_undefined preserves_get
  preserves_deref preserves_extern preserves_extern_ preserves_log
  preserves_check_interrupt : preserves.

(** Breaks a [preserves] goal down along the structure of the computation;
    what is left are the writes to the object. *)
Ltac preserves_step :=
  match goal with
  | |- preserves _ (bind _ _) => apply preserves_bind; [ | intros ? ]
  | |- preserves _ (modify (set_mCtx ?v)) => is_var v; destruct v
  | |- preserves _ (modify _) =>
      apply preserves_modify; intros ? ?; solve [ eauto with preserves ]
  | |- preserves _ (match ?x with _ => _ end) => destruct x
  | |- preserves _ (let '(_, _) := ?x in _) => destruct x
  | |- preserves _ _ => solve [ eauto with preserves ]
  end.

Ltac preserves_auto := repeat preserves_step.

(** The methods keep a property that the writes they make keep. *)
Section PreservedByMethods.

Context (L : Library) (P : SourceImpl -> Prop).

Hypothesis P_mState : forall v o, P o -> P (set_mState v o).
Hypothesis P_mNumStreams : forall v o, P o -> P (set_mNumStreams v o).
Hypothesis P_mStreamInfoGotten : forall v o, P o -> P (set_mStreamInfoGotten v o).
Hypothesis P_mReadRetryMax : forall v o, P o -> P (set_mReadRetryMax v o).
Hypothesis P_mInputBufferLength : forall v o, P o -> P (set_mInputBufferLength v o).
Hypothesis P_mIOHandler : forall v o, P o -> P (set_mIOHandler v o).
Hypothesis P_mCtx : forall c o, P o -> P (set_mCtx (Some c) o).
Hypothesis P_mCtx_null : forall o, P o -> P (set_mCtx None o).
Hypothesis P_mStreams : forall v o, P o -> P (set_mStreams v o).
Hypothesis P_mFormat : forall v o, P o -> P (set_mFormat v o).
Hypothesis P_mMetaData : forall v o, P o -> P (set_mMetaData v o).

#[local] Hint Resolve P_mState P_mNumStreams P_mStreamInfoGotten P_mReadRetryMax
  P_mInputBufferLength P_mIOHandler P_mCtx P_mCtx_null P_mStreams P_mFormat
  P_mMetaData : preserves.

Lemma preserves_update_ctx g : preserves P (update_ctx L g).
Proof. unfold update_ctx. preserves_auto. Qed.
#[local] Hint Resolve preserves_update_ctx : preserves.

Lemma preserves_the_ctx : preserves P (the_ctx L).
Proof. unfold the_ctx. preserves_auto. Qed.
#[local] Hint Resolve preserves_the_ctx : preserves.

Lemma preserves_getFormatCtx : preserves P (getFormatCtx L).
Proof. unfold getFormatCtx. preserves_auto. Qed.
#[local] Hint Resolve preserves_getFormatCtx : preserves.

Lemma preserves_doCloseFileHandles io : preserves P (doCloseFileHandles L io).
Proof. unfold doCloseFileHandles. preserves_auto. Qed.
#[local] Hint Resolve preserves_doCloseFileHandles : preserves.

Lemma preserves_doOpen url d : preserves P (doOpen L url d).
Proof.
  unfold doOpen. preserves_auto.
Qed.
#[local] Hint Resolve preserves_doOpen : preserves.

Lemma preserves_setup_new_streams g n : forall i, preserves P (setup_new_streams L g n i).
Proof. induction n; intros i; simpl; preserves_auto. Qed.
#[local] Hint Resolve preserves_setup_new_streams : preserves.

Lemma preserves_doSetupSourceStreams : preserves P (doSetupSourceStreams L).
Proof. unfold doSetupSourceStreams. preserves_auto. Qed.
#[local] Hint Resolve preserves_doSetupSourceStreams : preserves.

Lemma preserves_sync_streams : preserves P (sync_streams L).
Proof. unfold sync_streams. preserves_auto. Qed.
#[local] Hint Resolve preserves_sync_streams : preserves.

Lemma preserves_queryStreamMetaData : preserves P (queryStreamMetaData L).
Proof. unfold queryStreamMetaData. preserves_auto. Qed.
#[local] Hint Resolve preserves_queryStreamMetaData : preserves.

Lemma preserves_open_tail url old dyn qmd opts unset :
  preserves P (open_tail L url old dyn qmd opts unset).
Proof. unfold open_tail. preserves_auto. Qed.
#[local] Hint Resolve preserves_open_tail : preserves.

Lemma preserves_open url fmt dyn qmd opts unset :
  preserves P (open L url fmt dyn qmd opts unset).
Proof. unfold open. preserves_auto. Qed.

Lemma preserves_setInputBufferLength size : preserves P (setInputBufferLength L size).
Proof. unfold setInputBufferLength. preserves_auto. Qed.

Lemma preserves_getNumStreams : preserves P (getNumStreams L).
Proof. unfold getNumStreams. preserves_auto. Qed.

Lemma preserves_getURL : preserves P (getURL L).
Proof. unfold getURL. preserves_auto. Qed.
#[local] Hint Resolve preserves_getURL : preserves.

Lemma preserves_close_streams n : preserves P (close_streams L n).
Proof. induction n; simpl; preserves_auto. Qed.
#[local] Hint Resolve preserves_close_streams : preserves.

Lemma preserves_close : preserves P (close L).
Proof. unfold close. preserves_auto. Qed.

Lemma preserves_getSourceStream position : preserves P (getSourceStream L position).
Proof. unfold getSourceStream, vector_at. preserves_auto. Qed.
#[local] Hint Resolve preserves_getSourceStream : preserves.

Lemma preserves_set_packet_time_base pkt : preserves P (set_packet_time_base L pkt).
Proof. unfold set_packet_time_base. preserves_auto. Qed.

Lemma preserves_getters :
  preserves P (getInputBufferLength L) /\ preserves P (getDuration L) /\
  preserves P (getStartTime L) /\ preserves P (getFileSize L) /\
  preserves P (getBitRate L) /\ preserves P (getFlags L) /\
  preserves P (getReadRetryCount L) /\
  preserves P (canStreamsBeAddedDynamically L) /\
  preserves P (getMaxDelay L) /\
  (forall flag, preserves P (getFlag L flag)).
Proof.
  unfold getInputBufferLength, getDuration, getStartTime, getFileSize, getBitRate,
    getFlags, getReadRetryCount, canStreamsBeAddedDynamically, getMaxDelay, getFlag.
  repeat split; intros; preserves_auto.
Qed.

Lemma preserves_getMetaData : preserves P (getMetaData L).
Proof. unfold getMetaData. preserves_auto. Qed.

Lemma preserves_setReadRetryCount count : preserves P (setReadRetryCount L count).
Proof. unfold setReadRetryCount. preserves_auto. Qed.

Lemma preserves_setters :
  (forall v, preserves P (setFlags L v)) /\
  (forall flag v, preserves P (setFlag L flag v)) /\
  (forall id, preserves P (setForcedAudioCodec L id)) /\
  (forall id, preserves P (setForcedVideoCodec L id)) /\
  (forall id, preserves P (setForcedSubtitleCodec L id)) /\
  (forall i a b c d, preserves P (seek L i a b c d)).
Proof.
  unfold setFlags, setFlag, setForcedAudioCodec, setForcedVideoCodec,
    setForcedSubtitleCodec, seek.
  repeat split; intros; preserves_auto.
Qed.

Lemma preserves_pause : preserves P (pause L).
Proof. unfold pause. preserves_auto. Qed.

Lemma preserves_play : preserves P (play L).
Proof. unfold play. preserves_auto. Qed.

Lemma preserves_read_frames fuel : forall packet numReads s r packet' s',
  read_frames L fuel packet numReads s = Some (r, packet', s') ->
  P (this s) -> P (this s').
Proof.
  induction fuel as [ | fuel IH]; intros packet numReads s r packet' s' H HP;
    simpl in H; [discriminate | ].
  destruct (getFormatCtx L s) as [r0 s1] eqn:E.
  assert (HP1 : P (this s1)) by exact (preserves_getFormatCtx _ _ _ E HP).
  destruct r0 as [[c | ] | e | ]; try (inversion H; subst; assumption).
  destruct (av_read_frame L (world s1) c packet) as [[[retval c'] pk'] w'].
  match type of H with
  | (if ?b then _ else _) = _ => destruct b
  end.
  - eapply IH; [eassumption | ]. simpl. auto.
  - inversion H; subst. simpl. auto.
Qed.

Lemma preserves_read fuel ipkt s r ipkt' s' :
  read L fuel ipkt s = Some (r, ipkt', s') -> P (this s) -> P (this s').
Proof.
  unfold read. intros H HP.
  assert (Hc : forall x r1 s0 s1, check_interrupt L x s0 = (r1, s1) ->
                                  P (this s0) -> P (this s1))
    by (intros x r1 s0 s1; apply preserves_check_interrupt).
  destruct ipkt as [[pkt | id] | ].
  - match type of H with
    | context [read_frames L fuel ?p 0 ?s0] =>
        destruct (read_frames L fuel p 0 s0) as [[[r0 packet] s1] | ] eqn:E
    end; try discriminate.
    assert (HP1 : P (this s1)) by exact (preserves_read_frames _ _ _ _ _ _ _ E HP).
    destruct r0 as [retval | e | ]; try (inversion H; subst; assumption).
    destruct (retval >=? 0).
    + destruct (set_packet_time_base L _ s1) as [r2 s2] eqn:E2.
      assert (HP2 : P (this s2)) by exact (preserves_set_packet_time_base _ _ _ _ E2 HP1).
      destruct r2 as [pkt' | e | ]; try (inversion H; subst; assumption).
      destruct (check_interrupt L retval _) as [r3 s3] eqn:E3.
      apply Hc in E3; [ | exact HP2].
      inversion H; subst. assumption.
    + destruct (check_interrupt L retval s1) as [r3 s3] eqn:E3.
      apply Hc in E3; [ | exact HP1].
      inversion H; subst. assumption.
  - destruct (check_interrupt L (-1) s) as [r3 s3] eqn:E3. apply Hc in E3; [ | exact HP].
    inversion H; subst. assumption.
  - destruct (check_interrupt L (-1) s) as [r3 s3] eqn:E3. apply Hc in E3; [ | exact HP].
    inversion H; subst. assumption.
Qed.

End PreservedByMethods.

(** Every call of the public interface keeps a property that no write to
    the state, the streams, the handler, the context or the format can
    break; the three calls left out write to the remaining fields. *)
Section PreservedByCalls.

Context (L : Library) (P : SourceImpl -> Prop).

Hypothesis P_mState : forall v o, P o -> P (set_mState v o).
Hypothesis P_mNumStreams : forall v o, P o -> P (set_mNumStreams v o).
Hypothesis P_mStreamInfoGotten : forall v o, P o -> P (set_mStreamInfoGotten v o).
Hypothesis P_mIOHandler : forall v o, P o -> P (set_mIOHandler v o).
Hypothesis P_mCtx : forall c o, P o -> P (set_mCtx (Some c) o).
Hypothesis P_mCtx_null : forall o, P o -> P (set_mCtx None o).
Hypothesis P_mStreams : forall v o, P o -> P (set_mStreams v o).
Hypothesis P_mFormat : forall v o, P o -> P (set_mFormat v o).

Lemma run_preserves fuel op (s : Sys L) e s' :
  run L fuel op s = Some (e, s') ->
  (forall size, op <> op_setInputBufferLength size) ->
  (forall count, op <> op_setReadRetryCount count) ->
  op <> op_getMetaData ->
  P (this s) -> P (this s').
Proof.
  intros Hrun Hop1 Hop2 Hop3 HP.
  pose proof (preserves_getters L P) as G.
  pose proof (preserves_setters L P P_mCtx) as S.
  destruct S as (S1 & S2 & S3 & S4 & S5 & S6).
  destruct G as (G1 & G2 & G3 & G4 & G5 & G6 & G7 & G8 & G9 & G10).
  destruct op; simpl in Hrun;
    try (apply run_int_inv in Hrun as (r & Hm & ->));
    try (apply run_other_inv in Hrun as (r & Hm & ->)).
  all: try (match goal with
            | Hm : ?m ?s = (_, ?s1) |- _ =>
                let K := fresh "K" in
                assert (K : preserves P m)
                  by first [ solve [eauto]
                           | apply preserves_open; assumption
                           | apply preserves_getNumStreams; assumption
                           | apply preserves_close; assumption
                           | apply preserves_getSourceStream; assumption
                           | apply preserves_queryStreamMetaData; assumption
                           | apply preserves_getURL; assumption
                           | apply preserves_pause; assumption
                           | apply preserves_play; assumption ];
                exact (K _ _ _ Hm HP)
            end).
  - exfalso. exact (Hop1 _ eq_refl).
  - destruct (read L fuel ipkt s) as [[[r p] s1] | ] eqn:E; [ | discriminate].
    inversion Hrun; subst.
    eapply (preserves_read L P); eassumption.
  - exfalso. exact (Hop2 _ eq_refl).
  - exfalso. exact (Hop3 eq_refl).
Qed.

End PreservedByCalls.

(** The calls that do not write the state keep a property that only a write
    to the state, to the handler or to the format, or clearing the context,
    can break. *)
Section PreservedByAccessors.

Context (L : Library) (P : SourceImpl -> Prop).

Hypothesis P_mNumStreams : forall v o, P o -> P (set_mNumStreams v o).
Hypothesis P_mStreamInfoGotten : forall v o, P o -> P (set_mStreamInfoGotten v o).
Hypothesis P_mReadRetryMax : forall v o, P o -> P (set_mReadRetryMax v o).
Hypothesis P_mInputBufferLength : forall v o, P o -> P (set_mInputBufferLength v o).
Hypothesis P_mCtx : forall c o, P o -> P (set_mCtx (Some c) o).
Hypothesis P_mStreams : forall v o, P o -> P (set_mStreams v o).
Hypothesis P_mMetaData : forall v o, P o -> P (set_mMetaData v o).

Lemma run_preserves_accessors fuel op (s : Sys L) e s' :
  run L fuel op s = Some (e, s') ->
  moves_state op = false ->
  P (this s) -> P (this s').
Proof.
  intros Hrun Hop HP.
  pose proof (preserves_getters L P) as G.
  pose proof (preserves_setters L P P_mCtx) as S.
  destruct S as (S1 & S2 & S3 & S4 & S5 & S6).
  destruct G as (G1 & G2 & G3 & G4 & G5 & G6 & G7 & G8 & G9 & G10).
  destruct op; try discriminate Hop; simpl in Hrun;
    try (apply run_int_inv in Hrun as (r & Hm & ->));
    try (apply run_other_inv in Hrun as (r & Hm & ->)).
  all: try (match goal with
            | Hm : ?m ?s = (_, ?s1) |- _ =>
                let K := fresh "K" in
                assert (K : preserves P m)
                  by first [ solve [eauto]
                           | apply preserves_setInputBufferLength; assumption
                           | apply preserves_getNumStreams; assumption
                           | apply preserves_getSourceStream; assumption
                           | apply preserves_queryStreamMetaData; assumption
                           | apply preserves_getURL; assumption
                           | apply preserves_setReadRetryCount; assumption
                           | apply preserves_getMetaData; assumption ];
                exact (K _ _ _ Hm HP)
            end).
  destruct (read L fuel ipkt s) as [[[r p] s1] | ] eqn:E; [ | discriminate].
  inversion Hrun; subst.
  eapply (preserves_read L P); eassumption.
Qed.

End PreservedByAccessors.

(** ** After the end of the lifecycle *)

Lemma set_mReadRetryMax_same o : o = set_mReadRetryMax (mReadRetryMax o) o.
Proof. destruct o. reflexivity. Qed.

Lemma closed_not_opened st :
  closed_or_error st = true -> opened_playing_or_paused st = false.
Proof. destruct st; reflexivity || discriminate. Qed.

(** A call on an object in state CLOSED or ERROR. *)
Lemma closed_run (L : Library) fuel op (s : Sys L) :
  closed_or_error (mState (this s)) = true ->
  exists e s',
    run L (S fuel) op s = Some (e, s') /\
    this s' = set_mReadRetryMax (mReadRetryMax (this s')) (this s) /\
    (answers_when_closed op = false -> (exists x, e = Raised x) /\ s' = s) /\
    ((forall ipkt, op <> op_read ipkt) -> e <> Crashed).
Proof.
  intros Hst.
  pose proof (closed_not_opened _ Hst) as Hno.
  pose proof (getFormatCtx_closed L s Hst) as Hctx.
  assert (Hni : bool_decide (mState (this s) <> STATE_INITED) = true).
  { apply bool_decide_eq_true. intros E. rewrite E in Hst. discriminate. }
  assert (Hnopen : bool_decide (mState (this s) <> STATE_OPENED) = true).
  { apply bool_decide_eq_true. intros E. rewrite E in Hst. discriminate. }
  assert (Hnplay : bool_decide (mState (this s) <> STATE_PLAYING) = true).
  { apply bool_decide_eq_true. intros E. rewrite E in Hst. discriminate. }
  assert (Hsame : forall (x : exn) (b : bool) (Q : Prop),
             exists e s', Some (Raised x, s) = Some (e, s') /\
               this s' = set_mReadRetryMax (mReadRetryMax (this s')) (this s) /\
               (b = false -> (exists y, e = Raised y) /\ s' = s) /\
               (Q -> e <> Crashed)).
  { intros x b Q. exists (Raised x), s. split; [reflexivity | ].
    split; [apply set_mReadRetryMax_same | ].
    split; [intros _; split; [eauto | reflexivity] | discriminate]. }
  destruct op; cbn [run answers_when_closed]; unfold run_int, run_other.
  all: try (unfold open, getDuration, getStartTime, getFileSize, getBitRate, getFlags,
              setFlags, getFlag, setFlag, getURL, canStreamsBeAddedDynamically,
              setForcedAudioCodec, setForcedVideoCodec, setForcedSubtitleCodec,
              getMaxDelay;
            unfold bind at 1; rewrite Hctx; apply Hsame).
  all: try (unfold getNumStreams, close, getSourceStream, queryStreamMetaData;
            rewrite bind_get, Hno; cbn [negb]; apply Hsame).
  all: try (unfold seek, pause; rewrite bind_get; rewrite ?Hnopen, ?Hnplay; apply Hsame).
  - (* setInputBufferLength *)
    unfold setInputBufferLength. destruct (size <=? 0); [apply Hsame | ].
    rewrite bind_get, Hni. apply Hsame.
  - (* getInputBufferLength *)
    exists (Ret_int (mInputBufferLength (this s))), s.
    split; [reflexivity | ]. split; [apply set_mReadRetryMax_same | ].
    split; discriminate.
  - (* read *)
    destruct ipkt as [[pkt | id] | ]; cbn [read read_frames].
    + rewrite getFormatCtx_closed by (norm; assumption).
      eexists _, _. split; [reflexivity | ].
      split; [apply set_mReadRetryMax_same | ]. split; [discriminate | ].
      intros H. exfalso. exact (H _ eq_refl).
    + unfold check_interrupt.
      destruct (VS_CHECK_INTERRUPT L (world s) (-1)) as [r w].
      eexists _, _. split; [reflexivity | ].
      split; [apply set_mReadRetryMax_same | ]. split; [discriminate | ].
      intros H. exfalso. exact (H _ eq_refl).
    + unfold check_interrupt.
      destruct (VS_CHECK_INTERRUPT L (world s) (-1)) as [r w].
      eexists _, _. split; [reflexivity | ].
      split; [apply set_mReadRetryMax_same | ]. split; [discriminate | ].
      intros H. exfalso. exact (H _ eq_refl).
  - (* getReadRetryCount *)
    exists (Ret_int (mReadRetryMax (this s))), s.
    split; [reflexivity | ]. split; [apply set_mReadRetryMax_same | ].
    split; discriminate.
  - (* setReadRetryCount *)
    unfold setReadRetryCount. destruct (count >=? 0).
    + eexists _, _. split; [reflexivity | ].
      split; [ | split; discriminate]. destruct s as [w l o]. destruct o. reflexivity.
    + eexists _, _. split; [reflexivity | ].
      split; [apply set_mReadRetryMax_same | split; discriminate].
  - (* getMetaData *)
    unfold getMetaData. rewrite bind_get.
    destruct (mMetaData (this s)) as [bag | ] eqn:Hm.
    + rewrite bind_ret. unfold get.
      eexists _, _. split; [reflexivity | ].
      split; [apply set_mReadRetryMax_same | split; discriminate].
    + unfold bind at 1. unfold bind at 1. rewrite Hctx.
      eexists _, _. split; [reflexivity | ].
      split; [apply set_mReadRetryMax_same | split; discriminate].
  - (* play *)
    rewrite play_raises. apply Hsame.
Qed.




(** ** Flags *)

Lemma land_lor_same f x : Z.land (Z.lor f x) x = x.
Proof.
  apply Z.bits_inj'. intros n Hn. rewrite Z.land_spec, Z.lor_spec.
  destruct (Z.testbit f n), (Z.testbit x n); reflexivity.
Qed.

Lemma land_clear_same f x : Z.land (Z.land f (Z.lnot x)) x = 0.
Proof.
  apply Z.bits_inj'. intros n Hn.
  rewrite !Z.land_spec, Z.lnot_spec, Z.bits_0 by assumption.
  destruct (Z.testbit f n), (Z.testbit x n); reflexivity.
Qed.

Lemma land_lor_other f x y : Z.land y x = 0 -> Z.land (Z.lor f x) y = Z.land f y.
Proof.
  intros H. apply Z.bits_inj'. intros n Hn.
  assert (Hb : Z.testbit (Z.land y x) n = false) by (rewrite H; apply Z.bits_0).
  rewrite Z.land_spec in Hb. rewrite !Z.land_spec, Z.lor_spec.
  destruct (Z.testbit f n), (Z.testbit x n), (Z.testbit y n); try reflexivity; discriminate.
Qed.

Lemma land_clear_other f x y :
  Z.land y x = 0 -> Z.land (Z.land f (Z.lnot x)) y = Z.land f y.
Proof.
  intros H. apply Z.bits_inj'. intros n Hn.
  assert (Hb : Z.testbit (Z.land y x) n = false) by (rewrite H; apply Z.bits_0).
  rewrite Z.land_spec in Hb. rewrite !Z.land_spec, Z.lnot_spec by assumption.
  destruct (Z.testbit f n), (Z.testbit x n), (Z.testbit y n); try reflexivity; discriminate.
Qed.

Lemma getFlag_live (L : Library) flag (s : Sys L) c :
  closed_or_error (mState (this s)) = false ->
  mCtx (this s) = Some c ->
  getFlag L flag s = (Returned (negb (Z.land (flags c) flag =? 0)), s).
Proof.
  intros Hst Hc. unfold getFlag. rewrite bind_getFormatCtx by assumption.
  rewrite Hc. reflexivity.
Qed.

(** X2.  [setFlag] and [getFlag] on an object outside CLOSED and ERROR with
    a context: after [setFlag(flag, true)], [getFlag(flag)] is true unless
    [flag] has no bit set; after [setFlag(flag, false)] it is false; in both
    cases [getFlag] of a flag that shares no bit with [flag] answers as
    before, and neither the world nor the log changes. *)
Theorem setFlag_getFlag (L : Library) flag value (s : Sys L) c :
  closed_or_error (mState (this s)) = false ->
  mCtx (this s) = Some c ->
  exists s',
    setFlag L flag value s = (Returned tt, s') /\
    getFlag L flag s' = (Returned (value && negb (flag =? 0)), s') /\
    (forall other,
        Z.land other flag = 0 ->
        exists b, getFlag L other s = (Returned b, s) /\
                  getFlag L other s' = (Returned b, s')) /\
    world s' = world s /\ calls s' = calls s /\ mState (this s') = mState (this s).
Proof.
  intros Hst Hc. unfold setFlag. rewrite bind_getFormatCtx by assumption.
  destruct value.
  - rewrite (update_ctx_live L _ s c Hc).
    eexists. split; [reflexivity | ].
    split; [ | split; [ | repeat split]].
    + erewrite getFlag_live; [ | exact Hst | reflexivity].
      cbn [flags set_flags]. rewrite land_lor_same. reflexivity.
    + intros other Ho. eexists. split; [apply getFlag_live; eassumption | ].
      erewrite getFlag_live; [ | exact Hst | reflexivity].
      cbn [flags set_flags]. rewrite land_lor_other by assumption. reflexivity.
  - rewrite (update_ctx_live L _ s c Hc).
    eexists. split; [reflexivity | ].
    split; [ | split; [ | repeat split]].
    + erewrite getFlag_live; [ | exact Hst | reflexivity].
      cbn [flags set_flags]. rewrite land_clear_same. reflexivity.
    + intros other Ho. eexists. split; [apply getFlag_live; eassumption | ].
      erewrite getFlag_live; [ | exact Hst | reflexivity].
      cbn [flags set_flags]. rewrite land_clear_other by assumption. reflexivity.
Qed.

Lemma setFlag_getFlag_witness :
  exists s',
    setFlag Script.lib 4 true Script.opened = (Returned tt, s') /\
    getFlag Script.lib 4 s' = (Returned (true && negb (4 =? 0)), s') /\
    (forall other,
        Z.land other 4 = 0 ->
        exists b, getFlag Script.lib other Script.opened = (Returned b, Script.opened) /\
                  getFlag Script.lib other s' = (Returned b, s')) /\
    world s' = world Script.opened /\ calls s' = calls Script.opened /\
    mState (this s') = mState (this Script.opened).
Proof.
  apply (setFlag_getFlag Script.lib 4 true Script.opened (Script.ctx_of Script.opened)).
  - vm_compute. reflexivity.
  - vm_compute. reflexivity.
Defined.

Lemma getFlags_live (L : Library) (s : Sys L) c :
  closed_or_error (mState (this s)) = false ->
  mCtx (this s) = Some c ->
  getFlags L s = (Returned (flags c), s).
Proof.
  intros Hst Hc. unfold getFlags. rewrite bind_getFormatCtx by assumption.
  rewrite Hc. reflexivity.
Qed.

(** X3.  [setFlags] and [getFlags] on an object outside CLOSED and ERROR
    with a context: without a custom I/O handler [getFlags] returns what
    [setFlags] was given; while a handler is installed the custom-I/O bit is
    added, so [setFlags] cannot clear it.  Nothing but the flags of the
    context changes. *)
Theorem setFlags_getFlags (L : Library) newFlags (s : Sys L) c :
  closed_or_error (mState (this s)) = false ->
  mCtx (this s) = Some c ->
  let stored :=
    match mIOHandler (this s) with
    | Some _ => Z.lor newFlags (AVFMT_FLAG_CUSTOM_IO L)
    | None => newFlags
    end in
  setFlags L newFlags s =
    (Returned tt, set_this (set_mCtx (Some (set_flags stored c)) (this s)) s) /\
  getFlags L (set_this (set_mCtx (Some (set_flags stored c)) (this s)) s) =
    (Returned stored, set_this (set_mCtx (Some (set_flags stored c)) (this s)) s).
Proof.
  intros Hst Hc stored. split.
  - unfold setFlags. rewrite bind_getFormatCtx by assumption.
    unfold bind at 1. rewrite (update_ctx_live L _ s c Hc).
    rewrite bind_get. norm. subst stored.
    destruct (mIOHandler (this s)) as [h | ].
    + erewrite update_ctx_live by (norm; reflexivity). reflexivity.
    + reflexivity.
  - rewrite (getFlags_live L _ (set_flags stored c)); [reflexivity | exact Hst | reflexivity].
Qed.

Lemma setFlags_getFlags_witness :
  let s := Script.sys STATE_OPENED [] (Some 7%N) [] [] in
  let stored := Z.lor 0 (AVFMT_FLAG_CUSTOM_IO Script.lib) in
  setFlags Script.lib 0 s =
    (Returned tt, set_this (set_mCtx (Some (set_flags stored (Script.ctx_of s))) (this s)) s) /\
  getFlags Script.lib (set_this (set_mCtx (Some (set_flags stored (Script.ctx_of s))) (this s)) s) =
    (Returned stored, set_this (set_mCtx (Some (set_flags stored (Script.ctx_of s))) (this s)) s).
Proof.
  intros s stored.
  apply (setFlags_getFlags Script.lib 0 s (Script.ctx_of s)).
  - reflexivity.
  - reflexivity.
Defined.

(** ** The input buffer length *)

Lemma run_keeps_mInputBufferLength (L : Library) fuel op (s : Sys L) e s' :
  run L fuel op s = Some (e, s') ->
  (forall size, op <> op_setInputBufferLength size) ->
  mInputBufferLength (this s') = mInputBufferLength (this s).
Proof.
  intros Hrun Hop.
  set (P := fun o => mInputBufferLength o = mInputBufferLength (this s)).
  change (P (this s')).
  destruct op;
    first [ exfalso; exact (Hop _ eq_refl)
          | eapply (run_preserves L P);
            [ intros; assumption .. | exact Hrun | discriminate | discriminate | discriminate
            | reflexivity ]
          | idtac ].
  - simpl in Hrun. apply run_other_inv in Hrun as (r & Hr & _).
    exact (preserves_setReadRetryCount L P ltac:(intros; assumption) _ _ _ _ Hr eq_refl).
  - simpl in Hrun. apply run_other_inv in Hrun as (r & Hr & _).
    exact (preserves_getMetaData L P ltac:(intros; assumption) _ _ _ Hr eq_refl).
Qed.

(** X4.  The input buffer length is positive on every object made by [make]
    and used through the public interface: it starts at 2048 and only
    [setInputBufferLength] changes it.  That method raises
    HumbleInvalidArgument for a size that is not positive, whatever the state,
    raises HumbleRuntimeError for a positive size outside state INITED, and
    otherwise stores the size, which [getInputBufferLength] then returns; when
    it raises it changes nothing. *)
Theorem input_buffer_length_positive (L : Library) (s : Sys L) :
  reachable L s ->
  0 < mInputBufferLength (this s) /\
  (forall size,
      setInputBufferLength L size s =
      if size <=? 0 then (Thrown (HumbleInvalidArgument "size <= 0"), s)
      else if bool_decide (mState (this s) = STATE_INITED)
           then (Returned tt, set_this (set_mInputBufferLength size (this s)) s)
           else (Thrown (HumbleRuntimeError "Source object has already been opened"), s)) /\
  (forall size,
      getInputBufferLength L (set_this (set_mInputBufferLength size (this s)) s) =
      (Returned size, set_this (set_mInputBufferLength size (this s)) s)).
Proof.
  intros Hreach. split; [ | split].
  - induction Hreach as [w s Hmk | s fuel op e s' Hr IH Hrun He].
    + unfold make, SourceImpl_ctor in Hmk.
      destruct (avformat_alloc_context L (Global_init L w)) as [[ctx | ] w'];
        inversion Hmk; subst; simpl. lia.
    + destruct op;
        try (erewrite run_keeps_mInputBufferLength; [exact IH | exact Hrun | discriminate]).
      simpl in Hrun. apply run_other_inv in Hrun as (r & Hm & ->).
      unfold setInputBufferLength in Hm.
      destruct (size <=? 0) eqn:Hsz; [inversion Hm; subst; exact IH | ].
      rewrite bind_get in Hm.
      destruct (bool_decide (mState (this s) <> STATE_INITED));
        inversion Hm; subst; simpl; [exact IH | lia].
  - intros size. unfold setInputBufferLength.
    destruct (size <=? 0); [reflexivity | ]. rewrite bind_get.
    destruct (mState (this s)); reflexivity.
  - intros size. reflexivity.
Qed.

Lemma input_buffer_length_positive_witness :
  0 < mInputBufferLength (this Script.opened) /\
  (forall size,
      setInputBufferLength Script.lib size Script.opened =
      if size <=? 0 then (Thrown (HumbleInvalidArgument "size <= 0"), Script.opened)
      else if bool_decide (mState (this Script.opened) = STATE_INITED)
           then (Returned tt,
                 set_this (set_mInputBufferLength size (this Script.opened)) Script.opened)
           else (Thrown (HumbleRuntimeError "Source object has already been opened"),
                 Script.opened)) /\
  (forall size,
      getInputBufferLength Script.lib
        (set_this (set_mInputBufferLength size (this Script.opened)) Script.opened) =
      (Returned size, set_this (set_mInputBufferLength size (this Script.opened)) Script.opened)).
Proof.
  apply (input_buffer_length_positive Script.lib Script.opened).
  apply (reach_run Script.lib Script.fresh 0%nat Script.open_file (Ret_int 0)).
  - apply (reach_make Script.lib ([] : World Script.lib)). vm_compute. reflexivity.
  - vm_compute. reflexivity.
  - discriminate.
Defined.

(** ** The metadata bag *)

Lemma run_keeps_mMetaData (L : Library) fuel op (s : Sys L) e s' bag :
  run L fuel op s = Some (e, s') ->
  mMetaData (this s) = Some bag ->
  mMetaData (this s') = Some bag.
Proof.
  intros Hrun Hbag.
  set (P := fun o => mMetaData o = Some bag).
  change (P (this s')).
  destruct op;
    first [ eapply (run_preserves L P);
            [ intros; assumption .. | exact Hrun | discriminate | discriminate | discriminate
            | exact Hbag ]
          | idtac ].
  - simpl in Hrun. apply run_other_inv in Hrun as (r & Hr & _).
    exact (preserves_setInputBufferLength L P ltac:(intros; assumption) _ _ _ _ Hr Hbag).
  - simpl in Hrun. apply run_other_inv in Hrun as (r & Hr & _).
    exact (preserves_setReadRetryCount L P ltac:(intros; assumption) _ _ _ _ Hr Hbag).
  - simpl in Hrun. apply run_other_inv in Hrun as (r & Hr & _).
    unfold getMetaData in Hr. rewrite bind_get, Hbag in Hr. cbv beta iota in Hr.
    rewrite bind_ret in Hr. inversion Hr; subst. exact Hbag.
Qed.

(** X5.  [getMetaData] makes the bag of the context's metadata at most once
    with success.  Without a bag, outside CLOSED and ERROR, it asks
    [KeyValueBagImpl::make] for one from the metadata of the context, stores
    the answer and returns it.  Once a bag is stored, [getMetaData] returns
    that bag in every state, CLOSED and ERROR included, calling nothing and
    changing nothing, and no call of the public interface replaces or drops
    the bag, whatever the library does to the metadata of the context. *)
Theorem getMetaData_cached (L : Library) (s : Sys L) :
  (forall c,
      mMetaData (this s) = None ->
      closed_or_error (mState (this s)) = false ->
      mCtx (this s) = Some c ->
      getMetaData L s =
      (Returned (fst (KeyValueBagImpl_make L (world s) (metadata c))),
       {| world := snd (KeyValueBagImpl_make L (world s) (metadata c));
          calls := calls s ++ [call_KeyValueBagImpl_make];
          this := set_mMetaData (fst (KeyValueBagImpl_make L (world s) (metadata c)))
                    (this s) |})) /\
  (forall bag,
      mMetaData (this s) = Some bag ->
      getMetaData L s = (Returned (Some bag), s) /\
      forall fuel op e s',
        run L fuel op s = Some (e, s') ->
        mMetaData (this s') = Some bag /\
        getMetaData L s' = (Returned (Some bag), s')).
Proof.
  assert (Hcached : forall (s0 : Sys L) bag,
             mMetaData (this s0) = Some bag -> getMetaData L s0 = (Returned (Some bag), s0)).
  { intros s0 bag Hbag. unfold getMetaData. rewrite bind_get, Hbag. cbv beta iota.
    rewrite bind_ret. unfold get. rewrite Hbag. reflexivity. }
  split.
  - intros c Hnone Hst Hc. unfold getMetaData. rewrite bind_get, Hnone.
    rewrite !bind_assoc, bind_getFormatCtx by assumption.
    rewrite Hc. cbn [deref]. rewrite !bind_assoc, bind_ret, bind_assoc, bind_extern.
    destruct (KeyValueBagImpl_make L (world s) (metadata c)) as [bag w'].
    rewrite bind_modify. reflexivity.
  - intros bag Hbag. split; [apply Hcached; assumption | ].
    intros fuel op e s' Hrun.
    pose proof (run_keeps_mMetaData L fuel op s e s' bag Hrun Hbag) as H'.
    split; [assumption | apply Hcached; assumption].
Qed.

(** ** pause *)

(** X6.  On an object made by [make] and used through the public
    interface, [pause] never pauses: the state is never PLAYING, so [pause]
    raises HumbleRuntimeError, calls nothing and changes nothing. *)
Theorem pause_never_pauses (L : Library) (s : Sys L) :
  reachable L s ->
  pause L s = (Thrown (HumbleRuntimeError "Can only pause containers in PLAYING state."), s).
Proof.
  intros H. apply reachable_states in H.
  unfold pause. rewrite bind_get.
  destruct (mState (this s)); try reflexivity.
  all: exfalso; intuition discriminate.
Qed.

Lemma pause_never_pauses_witness :
  pause Script.lib Script.opened =
  (Thrown (HumbleRuntimeError "Can only pause containers in PLAYING state."), Script.opened).
Proof.
  apply (pause_never_pauses Script.lib Script.opened).
  apply (reach_run Script.lib Script.fresh 0%nat Script.open_file (Ret_int 0)).
  - apply (reach_make Script.lib ([] : World Script.lib)). vm_compute. reflexivity.
  - vm_compute. reflexivity.
  - discriminate.
Defined.

(** ** open, path by path *)

Section Open.

Context (L : Library).

Lemma bind_update_ctx {A} g (k : unit -> M L A) (s : Sys L) c :
  mCtx (this s) = Some c ->
  bind (update_ctx L g) k s = k tt (set_this (set_mCtx (Some (g c)) (this s)) s).
Proof. intros H. unfold bind at 1. rewrite (update_ctx_live L g s c H). reflexivity. Qed.

Lemma bind_the_ctx {A} (k : AVFormatContext -> M L A) (s : Sys L) c :
  mCtx (this s) = Some c ->
  bind (the_ctx L) k s = k c s.
Proof. intros H. unfold the_ctx. rewrite bind_assoc, bind_get, H. reflexivity. Qed.

Lemma bind_check_interrupt {A} x (k : int32 -> M L A) (s : Sys L) :
  check_passes L (world s) x ->
  bind (check_interrupt L x) k s =
  k x (add_call (call_VS_CHECK_INTERRUPT x)
         (set_world (snd (VS_CHECK_INTERRUPT L (world s) x)) s)).
Proof.
  unfold check_passes, bind, check_interrupt.
  destruct (VS_CHECK_INTERRUPT L (world s) x) as [r w]. simpl. intros ->. reflexivity.
Qed.

(** The object after lines 106-110 of [open]. *)
Lemma open_start url fmt dyn qmd opts unset (s : Sys L) c :
  mState (this s) = STATE_INITED ->
  mCtx (this s) = Some c ->
  url <> EmptyString ->
  open L (Some url) fmt dyn qmd opts unset s =
  (let* c := the_ctx L in
   let oldFormat := iformat c in
   let* h := extern (fun w => findHandler L w url) (fun _ => call_findHandler url) in
   modify (set_mIOHandler h) ;;
   match h with
   | Some handler =>
       update_ctx L (fun c => set_flags (Z.lor (flags c) (AVFMT_FLAG_CUSTOM_IO L)) c) ;;
       let* len := get mInputBufferLength in
       let* buffer := extern (fun w => av_malloc L w len) (fun _ => call_av_malloc len) in
       match buffer with
       | None => modify (set_mState STATE_ERROR) ;; ret (-1)
       | Some b =>
           let* io := extern (fun w => avio_alloc_context L w b len handler)
                             (fun _ => call_avio_alloc_context len) in
           update_ctx L (set_pb io) ;;
           match io with
           | None =>
               log call_av_free ;;
               modify (set_mState STATE_ERROR) ;;
               ret (-1)
           | Some _ => open_tail L url oldFormat dyn qmd opts unset
           end
       end
   | None => open_tail L url oldFormat dyn qmd opts unset
   end)
    (match fmt with
     | Some f =>
         set_this (set_mCtx (Some (set_iformat (getCtx f) c))
                     (set_mFormat (Some f) (this s))) s
     | None => s
     end).
Proof.
  intros Hst Hc Hurl. unfold open.
  rewrite bind_getFormatCtx by (rewrite Hst; reflexivity).
  rewrite bind_get, Hst.
  replace (bool_decide (STATE_INITED <> STATE_INITED)) with false
    by (symmetry; apply bool_decide_eq_false; auto).
  replace (bool_decide (url = EmptyString)) with false
    by (symmetry; apply bool_decide_eq_false; assumption).
  destruct fmt as [f | ].
  - rewrite bind_assoc, bind_modify.
    rewrite (bind_update_ctx _ _ _ c) by (norm; assumption). reflexivity.
  - rewrite bind_ret. reflexivity.
Qed.


(** The custom I/O part of [open], lines 114-144, when a handler is found. *)
Lemma open_custom_io url fmt dyn qmd opts unset (s : Sys L) c h :
  mState (this s) = STATE_INITED ->
  mCtx (this s) = Some c ->
  url <> EmptyString ->
  fst (findHandler L (world s) url) = Some h ->
  exists c0 s1,
    mCtx (this s1) = Some (set_flags (Z.lor (flags c0) (AVFMT_FLAG_CUSTOM_IO L)) c0) /\
    pb c0 = pb c /\
    mState (this s1) = STATE_INITED /\
    mIOHandler (this s1) = Some h /\
    mInputBufferLength (this s1) = mInputBufferLength (this s) /\
    world s1 = snd (findHandler L (world s) url) /\
    calls s1 = calls s ++ [call_findHandler url] /\
    open L (Some url) fmt dyn qmd opts unset s =
    (let* len := get mInputBufferLength in
     let* buffer := extern (fun w => av_malloc L w len) (fun _ => call_av_malloc len) in
     match buffer with
     | None => modify (set_mState STATE_ERROR) ;; ret (-1)
     | Some b =>
         let* io := extern (fun w => avio_alloc_context L w b len h)
                           (fun _ => call_avio_alloc_context len) in
         update_ctx L (set_pb io) ;;
         match io with
         | None =>
             log call_av_free ;;
             modify (set_mState STATE_ERROR) ;;
             ret (-1)
         | Some _ => open_tail L url (iformat c0) dyn qmd opts unset
         end
     end) s1.
Proof.
  intros Hst Hc Hurl Hh.
  rewrite (open_start url fmt dyn qmd opts unset s c Hst Hc Hurl).
  destruct (findHandler L (world s) url) as [h' w1] eqn:Hf. simpl in Hh. subst h'.
  destruct fmt as [f | ].
  - rewrite (bind_the_ctx _ _ (set_iformat (getCtx f) c)) by reflexivity.
    cbv zeta. rewrite bind_extern. norm. rewrite Hf.
    rewrite bind_modify.
    rewrite (bind_update_ctx _ _ _ (set_iformat (getCtx f) c)) by reflexivity.
    eexists (set_iformat (getCtx f) c), _. split_and!. 8: reflexivity.
    all: norm; try reflexivity; assumption.
  - rewrite (bind_the_ctx _ _ c) by assumption.
    cbv zeta. rewrite bind_extern. rewrite Hf.
    rewrite bind_modify.
    rewrite (bind_update_ctx _ _ _ c) by (norm; assumption).
    eexists c, _. split_and!. 8: reflexivity.
    all: norm; try reflexivity; assumption.
Qed.

End Open.

(** X7.  [open] on a url served by a custom I/O handler, when the buffer
    or the I/O context cannot be allocated: the call returns -1 and leaves the
    object in state ERROR with the handler still installed; it has asked for a
    buffer of the input buffer length, and it has neither opened the handler
    nor called the library open nor closed or released the handler. *)
Theorem open_allocation_failure (L : Library) url fmt dyn qmd opts unset (s : Sys L) c h :
  mState (this s) = STATE_INITED ->
  mCtx (this s) = Some c ->
  url <> EmptyString ->
  fst (findHandler L (world s) url) = Some h ->
  let w1 := snd (findHandler L (world s) url) in
  let len := mInputBufferLength (this s) in
  match fst (av_malloc L w1 len) with
  | None => True
  | Some b => fst (avio_alloc_context L (snd (av_malloc L w1 len)) b len h) = None
  end ->
  exists s',
    open L (Some url) fmt dyn qmd opts unset s = (Returned (-1), s') /\
    mState (this s') = STATE_ERROR /\
    mIOHandler (this s') = Some h /\
    calls s' =
      calls s ++ [call_findHandler url; call_av_malloc len]
        ++ match fst (av_malloc L w1 len) with
           | None => []
           | Some _ => [call_avio_alloc_context len; call_av_free]
           end.
Proof.
  intros Hst Hc Hurl Hh w1 len Hfail.
  destruct (open_custom_io L url fmt dyn qmd opts unset s c h Hst Hc Hurl Hh)
    as (c0 & s1 & Hc1 & Hpb & Hst1 & Hh1 & Hlen & Hw & Hl & ->).
  rewrite bind_get, bind_extern. rewrite Hlen, Hw. fold w1 len.
  destruct (av_malloc L w1 len) as [[b | ] w2] eqn:Hm; simpl in Hfail |- *.
  - rewrite bind_extern. norm.
    destruct (avio_alloc_context L w2 b len h) as [io w3] eqn:Ha. simpl in Hfail. subst io.
    erewrite bind_update_ctx by (norm; eassumption).
    rewrite bind_log, bind_modify. unfold ret.
    eexists. split; [reflexivity | ]. norm.
    split; [reflexivity | ]. split; [assumption | ].
    rewrite Hl, <- !app_assoc. reflexivity.
  - rewrite bind_modify. unfold ret.
    eexists. split; [reflexivity | ]. norm.
    split; [reflexivity | ]. split; [assumption | ].
    rewrite Hl, <- !app_assoc. reflexivity.
Qed.

Lemma open_allocation_failure_witness :
  exists s',
    open Script.starved (Some "custom"%string) None false false None None
      (Script.starved_fresh) = (Returned (-1), s') /\
    mState (this s') = STATE_ERROR /\
    mIOHandler (this s') = Some 7%N /\
    calls s' =
      calls Script.starved_fresh ++ [call_findHandler "custom"; call_av_malloc 2048]
        ++ match fst (av_malloc Script.starved [] 2048) with
           | None => []
           | Some _ => [call_avio_alloc_context 2048; call_av_free]
           end.
Proof.
  apply (open_allocation_failure Script.starved "custom" None false false None None
           Script.starved_fresh Script.blank_ctx 7%N).
  - reflexivity.
  - reflexivity.
  - discriminate.
  - reflexivity.
  - vm_compute. exact I.
Defined.

(** ** doOpen *)

(** X8.  [doOpen] with a custom I/O handler installed, outside CLOSED and
    ERROR and on a context.  The handler is opened first.  If that fails, the
    library open is not attempted, the handler is neither closed nor released
    and stays installed, and the failure is the result.  Otherwise the library
    open gets the context, the url, the format of the context and the
    options, and what it leaves in the context pointer is stored; if it fails,
    the I/O context is flushed, the handler is closed and released and no
    handler is installed any more, and the result is that of the library open,
    whatever closing the handler returned. *)
Theorem doOpen_with_handler (L : Library) url options (s : Sys L) c h :
  closed_or_error (mState (this s)) = false ->
  mCtx (this s) = Some c ->
  mIOHandler (this s) = Some h ->
  let r0 := fst (url_open L (world s) h url) in
  let w1 := snd (url_open L (world s) h url) in
  let opened := avformat_open_input L w1 (Some c) url (iformat c) options in
  let r := fst (fst (fst opened)) in
  let ctx' := snd (fst (fst opened)) in
  let options' := snd (fst opened) in
  let w2 := snd opened in
  let w3 := match pb c with Some io => avio_flush L w2 io | None => w2 end in
  doOpen L url options s =
  if r0 <? 0 then
    (Returned (r0, options),
     {| world := w1; calls := calls s ++ [call_url_open h url r0]; this := this s |})
  else if r <? 0 then
    (Returned (r, options'),
     {| world := snd (url_close L w3 h);
        calls := calls s ++ [call_url_open h url r0; call_avformat_open_input url r]
                   ++ match pb c with Some io => [call_avio_flush io] | None => [] end
                   ++ [call_url_close h (fst (url_close L w3 h))]
                   ++ match pb c with Some io => [call_av_freep_buffer io] | None => [] end
                   ++ [call_av_free; call_delete_handler h];
        this := set_mIOHandler None (set_mCtx ctx' (this s)) |})
  else
    (Returned (r, options'),
     {| world := w2;
        calls := calls s ++ [call_url_open h url r0; call_avformat_open_input url r];
        this := set_mCtx ctx' (this s) |}).
Proof.
  intros Hst Hc Hh r0 w1 opened r ctx' options' w2 w3.
  unfold doOpen. rewrite bind_getFormatCtx by assumption.
  rewrite bind_get, Hh, bind_extern.
  subst r0 w1 opened r ctx' options' w2 w3.
  destruct (url_open L (world s) h url) as [r0 w1]. cbn [fst snd].
  destruct (r0 >=? 0) eqn:Hr0.
  2:{ replace (r0 <? 0) with true by lia. unfold ret, add_call, set_world. reflexivity. }
  replace (r0 <? 0) with false by lia.
  rewrite Hc. cbn [deref]. rewrite bind_ret. cbv zeta. rewrite bind_extern. norm.
  destruct (avformat_open_input L w1 (Some c) url (iformat c) options)
    as [[[r ctx'] options'] w2]. cbn [fst snd].
  rewrite bind_modify.
  destruct (r <? 0) eqn:Hr.
  2:{ unfold ret, add_call, set_world, set_this. norm. rewrite <- !app_assoc. reflexivity. }
  unfold doCloseFileHandles. rewrite !bind_assoc, bind_get. norm. rewrite Hh.
  rewrite !bind_assoc.
  destruct (pb c) as [io | ].
  - rewrite bind_extern_, bind_assoc, bind_extern. norm.
    destruct (url_close L (avio_flush L w2 io) h) as [rc w4]. cbn [fst snd].
    rewrite !bind_assoc, bind_log, !bind_assoc, bind_log, !bind_assoc, bind_log.
    rewrite !bind_assoc, bind_modify, !bind_ret. unfold ret.
    unfold add_call, set_world, set_this. norm. rewrite <- !app_assoc. reflexivity.
  - rewrite bind_ret, bind_assoc, bind_extern. norm.
    destruct (url_close L w2 h) as [rc w4]. cbn [fst snd].
    rewrite !bind_assoc, bind_ret, !bind_assoc, bind_log, !bind_assoc, bind_log.
    rewrite !bind_assoc, bind_modify, !bind_ret. unfold ret.
    unfold add_call, set_world, set_this. norm. rewrite <- !app_assoc. reflexivity.
Qed.

Lemma doOpen_with_handler_witness :
  let s := Script.sys STATE_INITED [-1] (Some 7%N) [] [] in
  let c := Script.ctx_of s in
  let h := 7%N in
  let url := "custom"%string in
  let options := [] : AVDictionary in
  let r0 := fst (url_open Script.lib (world s) h url) in
  let w1 := snd (url_open Script.lib (world s) h url) in
  let opened := avformat_open_input Script.lib w1 (Some c) url (iformat c) options in
  let r := fst (fst (fst opened)) in
  let ctx' := snd (fst (fst opened)) in
  let options' := snd (fst opened) in
  let w2 := snd opened in
  let w3 := match pb c with Some io => avio_flush Script.lib w2 io | None => w2 end in
  doOpen Script.lib url options s =
  if r0 <? 0 then
    (Returned (r0, options),
     {| world := w1; calls := calls s ++ [call_url_open h url r0]; this := this s |})
  else if r <? 0 then
    (Returned (r, options'),
     {| world := snd (url_close Script.lib w3 h);
        calls := calls s ++ [call_url_open h url r0; call_avformat_open_input url r]
                   ++ match pb c with Some io => [call_avio_flush io] | None => [] end
                   ++ [call_url_close h (fst (url_close Script.lib w3 h))]
                   ++ match pb c with Some io => [call_av_freep_buffer io] | None => [] end
                   ++ [call_av_free; call_delete_handler h];
        this := set_mIOHandler None (set_mCtx ctx' (this s)) |})
  else
    (Returned (r, options'),
     {| world := w2;
        calls := calls s ++ [call_url_open h url r0; call_avformat_open_input url r];
        this := set_mCtx ctx' (this s) |}).
Proof.
  intros s c h url options.
  apply (doOpen_with_handler Script.lib url options s c h).
  - reflexivity.
  - reflexivity.
  - reflexivity.
Defined.

(** ** open without custom I/O *)

Lemma canStreamsBeAddedDynamically_live (L : Library) (s : Sys L) c :
  closed_or_error (mState (this s)) = false ->
  mCtx (this s) = Some c ->
  canStreamsBeAddedDynamically L s =
  (Returned (negb (Z.land (ctx_flags c) (AVFMTCTX_NOHEADER L) =? 0)), s).
Proof.
  intros Hst Hc. unfold canStreamsBeAddedDynamically.
  rewrite bind_getFormatCtx by assumption. rewrite Hc. reflexivity.
Qed.

(** X9.  [open] that succeeds, on a url without custom I/O handler and
    without the query of the stream information.  The library open gets the
    context (with the format of the [format] argument, if one is given), the
    url and the options; when it returns a value that is not negative, with a
    context, and no interrupt is pending, [open] returns that value, the state
    is OPENED, the context is the one the library left, no handler is
    installed, the format wrapper is made anew exactly when the library
    changed the format, the options left over are copied to [optionsNotSet]
    and released, and afterwards [canStreamsBeAddedDynamically] answers true
    if [streamsCanBeAddedDynamically] was given (and the flag is a bit), and
    else what the flags of the library's context say. *)
Theorem open_succeeds (L : Library) url fmt dyn opts unset (s : Sys L) c c1 :
  mState (this s) = STATE_INITED ->
  mCtx (this s) = Some c ->
  url <> EmptyString ->
  fst (findHandler L (world s) url) = None ->
  let c0 := match fmt with Some f => set_iformat (getCtx f) c | None => c end in
  let tmp := match opts with Some d => d | None => [] end in
  let opened :=
    avformat_open_input L (snd (findHandler L (world s) url)) (Some c0) url (iformat c0) tmp in
  let r := fst (fst (fst opened)) in
  let tmp' := snd (fst opened) in
  snd (fst (fst opened)) = Some c1 ->
  0 <= r ->
  check_passes L (snd opened) r ->
  exists s',
    open L (Some url) fmt dyn false opts unset s = (Returned r, s') /\
    mState (this s') = STATE_OPENED /\
    mCtx (this s') =
      Some (if dyn then set_ctx_flags (Z.lor (ctx_flags c1) (AVFMTCTX_NOHEADER L)) c1 else c1) /\
    mIOHandler (this s') = None /\
    mFormat (this s') =
      (if bool_decide (iformat c0 <> iformat c1) then SourceFormat_make L (iformat c1)
       else match fmt with Some f => Some f | None => mFormat (this s) end) /\
    calls s' =
      calls s ++ [call_findHandler url]
        ++ match opts with Some _ => [call_av_dict_copy] | None => [] end
        ++ [call_avformat_open_input url r; call_VS_CHECK_INTERRUPT r]
        ++ match unset with Some bag => [call_KeyValueBag_copy bag tmp'] | None => [] end
        ++ (if bool_decide (tmp' <> []) then [call_av_dict_free] else []) /\
    canStreamsBeAddedDynamically L s' =
      (Returned (if dyn then negb (AVFMTCTX_NOHEADER L =? 0)
                 else negb (Z.land (ctx_flags c1) (AVFMTCTX_NOHEADER L) =? 0)), s').
Proof.
  intros Hst Hc Hurl Hh c0 tmp opened r tmp' Hc1 Hr Hpass.
  rewrite (open_start L url fmt dyn false opts unset s c Hst Hc Hurl).
  set (s0 := match fmt with Some f => _ | None => s end).
  assert (Hs0 : mCtx (this s0) = Some c0 /\ mState (this s0) = STATE_INITED /\
                world s0 = world s /\ calls s0 = calls s /\
                mFormat (this s0) = match fmt with Some f => Some f | None => mFormat (this s) end).
  { subst s0 c0. destruct fmt; norm; split_and!; auto. }
  destruct Hs0 as (Hc0 & Hst0 & Hw0 & Hl0 & Hf0).
  clearbody s0.
  rewrite (bind_the_ctx L _ s0 c0 Hc0). cbv zeta.
  rewrite bind_extern, Hw0.
  destruct (findHandler L (world s) url) as [h w1] eqn:Hfind. simpl in Hh. subst h.
  cbn [snd] in opened. rewrite bind_modify.
  unfold open_tail.
  set (s1 := set_this _ _).
  assert (Hs1 : mCtx (this s1) = Some c0 /\ mState (this s1) = STATE_INITED /\
                world s1 = w1 /\ calls s1 = calls s ++ [call_findHandler url] /\
                mFormat (this s1) = mFormat (this s0) /\ mIOHandler (this s1) = None).
  { subst s1. norm. rewrite Hl0. split_and!; auto. }
  destruct Hs1 as (Hc1' & Hst1 & Hw1 & Hl1 & Hf1 & Hh1). clearbody s1.
  set (s2 := match opts with Some _ => add_call call_av_dict_copy s1 | None => s1 end).
  assert (Hopts : forall A (k : AVDictionary -> M L A),
             bind (match opts with
                   | Some d => log call_av_dict_copy ;; ret d
                   | None => ret []
                   end) k s1 = k tmp s2).
  { intros A k. subst s2 tmp. destruct opts; reflexivity. }
  rewrite Hopts. clear Hopts.
  assert (Hs2 : mCtx (this s2) = Some c0 /\ mState (this s2) = STATE_INITED /\
                world s2 = w1 /\
                calls s2 = calls s ++ [call_findHandler url]
                             ++ match opts with Some _ => [call_av_dict_copy] | None => [] end /\
                mFormat (this s2) = mFormat (this s0) /\ mIOHandler (this s2) = None).
  { subst s2. destruct opts; norm; rewrite Hl1, <- ?app_assoc, ?app_nil_r; split_and!; auto. }
  destruct Hs2 as (Hc2 & Hst2 & Hw2 & Hl2 & Hf2 & Hh2). clearbody s2.
  (* doOpen *)
  unfold doOpen. rewrite !bind_assoc.
  rewrite bind_getFormatCtx by (rewrite Hst2; reflexivity).
  rewrite bind_assoc, bind_get, Hh2, !bind_assoc, bind_ret.
  cbn [Z.geb Z.compare]. rewrite Hc2. cbn [deref]. rewrite !bind_assoc, bind_ret.
  cbv zeta. rewrite !bind_assoc, bind_extern, Hw2.
  subst r tmp' opened.
  destruct (avformat_open_input L w1 (Some c0) url (iformat c0) tmp)
    as [[[r ctx'] tmp'] w2] eqn:Hopen.
  cbn [fst snd] in *. subst ctx'.
  rewrite !bind_assoc, bind_modify.
  replace (r <? 0) with false by lia.
  rewrite bind_ret.
  rewrite bind_check_interrupt by (norm; assumption).
  replace (r >=? 0) with true by lia.
  rewrite !bind_assoc, bind_modify.
  rewrite !bind_assoc, (bind_the_ctx L _ _ c1) by reflexivity.
  norm.
  set (fmt' := if bool_decide (iformat c0 <> iformat c1) then SourceFormat_make L (iformat c1)
               else match fmt with Some f => Some f | None => mFormat (this s) end).
  set (cf := if dyn then set_ctx_flags (Z.lor (ctx_flags c1) (AVFMTCTX_NOHEADER L)) c1 else c1).
  match goal with
  | |- exists s', ?m ?sa = _ /\ _ =>
      assert (Hrun : m sa =
        (Returned r,
         {| world := snd (VS_CHECK_INTERRUPT L w2 r);
            calls := (calls s2 ++ [call_avformat_open_input url r; call_VS_CHECK_INTERRUPT r])
                       ++ match unset with
                          | Some bag => [call_KeyValueBag_copy bag tmp']
                          | None => []
                          end
                       ++ (if bool_decide (tmp' <> []) then [call_av_dict_free] else []);
            this := set_mCtx (Some cf) (set_mFormat fmt' (set_mState STATE_OPENED (this s2))) |}))
  end.
  { subst fmt' cf. rewrite <- Hf0, <- Hf2.
    destruct s2 as [w l o]. destruct o. norm. simpl in Hc2. subst.
    case_bool_decide; destruct dyn; destruct unset; case_bool_decide;
      cbn -[Z.lor Z.ltb]; unfold set_this, add_call, set_world; cbn -[Z.lor Z.ltb];
      replace (r <? 0) with false by lia; cbn -[Z.lor];
      rewrite <- ?app_assoc, ?app_nil_r; cbn -[Z.lor]; reflexivity. }
  rewrite Hrun. eexists. split; [reflexivity | ]. norm.
  split_and!; try reflexivity.
  - assumption.
  - rewrite Hl2, <- !app_assoc. reflexivity.
  - erewrite canStreamsBeAddedDynamically_live; [ | reflexivity | reflexivity].
    subst cf. destruct dyn; [ | reflexivity].
    cbn [ctx_flags set_ctx_flags]. rewrite land_lor_same. reflexivity.
Qed.

Lemma open_succeeds_witness :
  let L := Script.lib in
  let s := Script.fresh in
  let c := Script.ctx_of s in
  let c1 := set_streams Script.two_streams c in
  let url := "file"%string in
  let fmt := @None SourceFormat in
  let dyn := true in
  let opts := @None AVDictionary in
  let unset := @None KeyValueBagImpl in
  let c0 := match fmt with Some f => set_iformat (getCtx f) c | None => c end in
  let tmp := match opts with Some d => d | None => [] end in
  let opened :=
    avformat_open_input L (snd (findHandler L (world s) url)) (Some c0) url (iformat c0) tmp in
  let r := fst (fst (fst opened)) in
  let tmp' := snd (fst opened) in
  exists s',
    open L (Some url) fmt dyn false opts unset s = (Returned r, s') /\
    mState (this s') = STATE_OPENED /\
    mCtx (this s') =
      Some (if dyn then set_ctx_flags (Z.lor (ctx_flags c1) (AVFMTCTX_NOHEADER L)) c1 else c1) /\
    mIOHandler (this s') = None /\
    mFormat (this s') =
      (if bool_decide (iformat c0 <> iformat c1) then SourceFormat_make L (iformat c1)
       else match fmt with Some f => Some f | None => mFormat (this s) end) /\
    calls s' =
      calls s ++ [call_findHandler url]
        ++ match opts with Some _ => [call_av_dict_copy] | None => [] end
        ++ [call_avformat_open_input url r; call_VS_CHECK_INTERRUPT r]
        ++ match unset with Some bag => [call_KeyValueBag_copy bag tmp'] | None => [] end
        ++ (if bool_decide (tmp' <> []) then [call_av_dict_free] else []) /\
    canStreamsBeAddedDynamically L s' =
      (Returned (if dyn then negb (AVFMTCTX_NOHEADER L =? 0)
                 else negb (Z.land (ctx_flags c1) (AVFMTCTX_NOHEADER L) =? 0)), s').
Proof.
  intros L s c c1 url fmt dyn opts unset.
  apply (open_succeeds L url fmt dyn opts unset s c c1).
  - reflexivity.
  - reflexivity.
  - discriminate.
  - reflexivity.
  - reflexivity.
  - vm_compute. discriminate.
  - apply Script_check_passes.
Defined.

(** ** The context pointer along the lifecycle *)

Ltac live_side := intros; first [ assumption | simpl; discriminate ].

(** What a call among the hypotheses does to a context pointer that is not
    null. *)
Ltac live_fact H :=
  lazymatch type of H with
  | ?m ?s = (?r, ?s1) =>
      let V := fresh "V" in
      assert (V : preserves (fun o => mCtx o <> None) m)
        by first [ apply preserves_check_interrupt
                 | apply preserves_update_ctx; live_side
                 | apply preserves_the_ctx
                 | apply preserves_queryStreamMetaData; live_side
                 | apply preserves_getFormatCtx ];
      specialize (V _ _ _ H); cbv beta in V; norm
  end.

Ltac live_facts :=
  repeat match goal with
         | H : ?m ?s = (_, ?s1) |- _ => first [ live_fact H | idtac ]; revert H
         end;
  intros.

Section Live.

Context (L : Library).

Lemma the_ctx_inv (s : Sys L) c s' :
  the_ctx L s = (Returned c, s') -> s' = s /\ mCtx (this s) = Some c.
Proof.
  unfold the_ctx. rewrite bind_get. destruct (mCtx (this s)) as [c' | ]; simpl; intros H.
  - inversion H; subst. auto.
  - discriminate.
Qed.

Lemma doOpen_raises url d (s : Sys L) e s' :
  doOpen L url d s = (Thrown e, s') -> closed_or_error (mState (this s')) = true.
Proof.
  intros H. unfold doOpen in H.
  apply bind_inv in H as [(ctx & s1 & E & H) | [(e' & E & _) | (_ & E')]]; [ | | discriminate].
  - exfalso.
    match type of H with
    | ?m _ = _ => assert (N : nothrow m)
    end.
    { nothrow_auto.
      all: try match goal with
               | |- nothrow (let '(_, _) := ?x in _) => destruct x as [[? ?] ?]
               end.
      all: nothrow_auto. }
    exact (N _ _ _ H).
  - unfold getFormatCtx in E. rewrite bind_get in E.
    destruct (closed_or_error (mState (this s))) eqn:Hc; inversion E; subst. assumption.
Qed.

Lemma never_raised (Hq : check_never_raises L) e : raised_by_check L e -> False.
Proof. intros (w & x & w' & H). exact (Hq _ _ _ _ H). Qed.

Lemma open_tail_live url old dyn qmd opts unset (s : Sys L) r s' :
  check_never_raises L ->
  open_tail L url old dyn qmd opts unset s = (r, s') ->
  r <> Undefined ->
  closed_or_error (mState (this s')) = false ->
  mCtx (this s') <> None.
Proof.
  intros Hq H Hr. unfold open_tail in H. exec.
  all: try congruence.
  all: repeat match goal with
         | E : the_ctx L _ = (Returned _, _) |- _ =>
             apply the_ctx_inv in E as [-> E]
         end.
  all: live_facts; facts; norm.
  all: try discriminate.
  all: try (exfalso; eapply never_raised; [eassumption | ]; raised).
  all: try (exfalso; eapply never_raised; [eassumption | ];
            eapply check_interrupt_raises; eassumption).
  all: repeat match goal with
         | E : mCtx (this ?x) = Some _ |- _ =>
             assert (mCtx (this x) <> None) by congruence; clear E
         end.
  all: try tauto.
  all: try lia.
  all: try match goal with
           | E : doOpen L _ _ _ = (Thrown _, _) |- _ =>
               apply doOpen_raises in E; congruence
           end.
  all: absurd_throw.
Qed.

Lemma open_live url fmt dyn qmd opts unset (s : Sys L) r s' :
  check_never_raises L ->
  mCtx (this s) <> None ->
  open L url fmt dyn qmd opts unset s = (r, s') ->
  r <> Undefined ->
  closed_or_error (mState (this s')) = false ->
  mCtx (this s') <> None.
Proof.
  intros Hq Hlive H Hr. unfold open in H. exec.
  all: try congruence.
  all: try match goal with
           | E : open_tail L _ _ _ _ _ _ _ = _ |- _ =>
               exact (open_tail_live _ _ _ _ _ _ _ _ _ Hq E Hr)
           end.
  all: repeat match goal with
         | E : the_ctx L _ = (Returned _, _) |- _ =>
             apply the_ctx_inv in E as [-> E]
         end.
  all: live_facts; facts; norm.
  all: try discriminate.
  all: try tauto.
Qed.

Lemma run_fuel_0 op (s : Sys L) :
  run L 0 op s = None \/ run L 0 op s = run L 1 op s.
Proof.
  destruct op; try (right; reflexivity).
  destruct ipkt as [[pkt | id] | ]; [left | right | right]; reflexivity.
Qed.

(** A call on an object in state CLOSED or ERROR changes at most the retry
    count. *)
Lemma closed_frozen fuel op (s : Sys L) e s' :
  closed_or_error (mState (this s)) = true ->
  run L fuel op s = Some (e, s') ->
  this s' = set_mReadRetryMax (mReadRetryMax (this s')) (this s).
Proof.
  intros Hc Hrun.
  assert (H1 : exists n, run L (S n) op s = Some (e, s')).
  { destruct fuel as [ | n]; [ | eauto].
    destruct (run_fuel_0 op s) as [H0 | H0]; [congruence | ].
    exists 0%nat. congruence. }
  destruct H1 as (n & H1).
  destruct (closed_run L n op s Hc) as (e1 & s1 & E & Hthis & _).
  rewrite E in H1. inversion H1; subst. exact Hthis.
Qed.

Lemma pause_refused (s : Sys L) :
  mState (this s) <> STATE_PLAYING ->
  pause L s = (Thrown (HumbleRuntimeError "Can only pause containers in PLAYING state."), s).
Proof.
  intros H. unfold pause. rewrite bind_get.
  destruct (mState (this s)); try reflexivity. congruence.
Qed.

Lemma close_refused (s : Sys L) :
  opened_playing_or_paused (mState (this s)) = false ->
  close L s =
  (Thrown (HumbleRuntimeError "Attempt to close container when not opened, playing or paused"),
   s).
Proof. intros H. unfold close. rewrite bind_get, H. reflexivity. Qed.

(** [close] that does not run into undefined behaviour leaves an object
    that holds nothing, in state CLOSED. *)
Lemma close_releases (s : Sys L) r s' :
  opened_playing_or_paused (mState (this s)) = true ->
  close L s = (r, s') ->
  r <> Undefined ->
  mState (this s') = STATE_CLOSED /\ released (this s') /\
  exists z, r = Returned z /\ 0 <= z.
Proof.
  intros Hst H Hr.
  destruct (mCtx (this s)) as [c | ] eqn:Hc.
  - pose proof (close_spec L s c Hst Hc) as Hspec. cbv zeta in Hspec.
    destruct (mIOHandler (this s)) as [h | ] eqn:Hh.
    + match type of Hspec with
      | _ = if ?b then _ else _ => destruct b eqn:Hneg
      end; rewrite Hspec in H; inversion H; subst; [congruence | ].
      norm. split; [reflexivity | ]. split; [repeat split | ].
      eexists. split; [reflexivity | lia].
    + rewrite Hspec in H. inversion H; subst. norm.
      split; [reflexivity | ]. split; [repeat split; assumption | ].
      exists 0. split; [reflexivity | lia].
  - exfalso. apply Hr.
    unfold close in H. rewrite bind_get, Hst in H. cbn [negb] in H.
    rewrite bind_get in H. unfold bind at 1 in H.
    rewrite (close_streams_spec L _ s eq_refl) in H.
    rewrite bind_modify in H. norm.
    rewrite bind_getFormatCtx in H by (norm; apply opp_not_closed; assumption).
    norm. rewrite Hc in H. cbn [deref] in H. rewrite bind_undefined in H.
    inversion H; subst. reflexivity.
Qed.

End Live.

(** X10.  When the interrupt check raises nothing, the context pointer of
    an object made by [make] and used through the public interface is not
    null in any state but CLOSED and ERROR: the constructor sets it, the
    library calls leave a context behind, and the two places that clear it
    ([close], and the library open that fails) end in CLOSED or ERROR or in
    undefined behaviour. *)
Theorem context_live_until_closed (L : Library) (s : Sys L) :
  check_never_raises L ->
  reachable L s ->
  closed_or_error (mState (this s)) = false ->
  live s.
Proof.
  intros Hq Hreach. unfold live.
  induction Hreach as [w s Hmk | s fuel op e s' Hr IH Hrun He].
  - intros _. apply make_post in Hmk as (_ & _ & Hl). exact Hl.
  - intros Hc'.
    destruct (closed_or_error (mState (this s))) eqn:Hc.
    { apply (closed_frozen L _ _ _ _ _ Hc) in Hrun. rewrite Hrun in Hc'.
      norm. congruence. }
    specialize (IH eq_refl).
    destruct (moves_state op) eqn:Hm.
    2:{ apply (run_preserves_accessors L (fun o => mCtx o <> None)) in Hrun;
          try assumption; live_side. }
    destruct op; try discriminate Hm; simpl in Hrun;
      apply run_int_inv in Hrun as (r & Hrun & ->).
    + apply (open_live L _ _ _ _ _ _ _ _ _ Hq IH Hrun); [ | assumption].
      intros ->. apply He. reflexivity.
    + destruct (opened_playing_or_paused (mState (this s))) eqn:Ho.
      * apply close_releases in Hrun as (Hcl & _); [ | assumption | ].
        -- rewrite Hcl in Hc'. discriminate.
        -- intros ->. apply He. reflexivity.
      * rewrite close_refused in Hrun by assumption. inversion Hrun; subst. exact IH.
    + rewrite pause_refused in Hrun.
      * inversion Hrun; subst. exact IH.
      * apply reachable_states in Hr. intuition congruence.
    + rewrite play_raises in Hrun. inversion Hrun; subst. exact IH.
Qed.

Lemma context_live_until_closed_witness : live Script.opened.
Proof.
  apply (context_live_until_closed Script.lib Script.opened).
  - apply Script_check_never_raises.
  - apply (reach_run Script.lib Script.fresh 0%nat Script.open_file (Ret_int 0)).
    + apply (reach_make Script.lib ([] : World Script.lib)). vm_compute. reflexivity.
    + vm_compute. reflexivity.
    + discriminate.
  - reflexivity.
Defined.

(** X11.  An object made by [make] and used through the public interface
    that is in state CLOSED holds nothing any more: the context pointer is
    null, there is no stream wrapper and the stream count is 0, and no custom
    I/O handler is installed. *)
Theorem closed_container_released (L : Library) (s : Sys L) :
  reachable L s ->
  mState (this s) = STATE_CLOSED ->
  released (this s).
Proof.
  intros Hreach.
  induction Hreach as [w s Hmk | s fuel op e s' Hr IH Hrun He].
  - apply make_post in Hmk as (-> & _). discriminate.
  - intros Hc'.
    destruct (closed_or_error (mState (this s))) eqn:Hc.
    { apply (closed_frozen L _ _ _ _ _ Hc) in Hrun. rewrite Hrun in Hc' |- *.
      norm. exact (IH Hc'). }
    assert (Hn : mState (this s) <> STATE_CLOSED) by (intros E; rewrite E in Hc; discriminate).
    destruct (moves_state op) eqn:Hm.
    2:{ apply (run_preserves_accessors L (fun o => mState o <> STATE_CLOSED)) in Hrun;
          try assumption; try (intros; assumption). congruence. }
    destruct op; try discriminate Hm; simpl in Hrun;
      apply run_int_inv in Hrun as (r & Hrun & ->).
    + apply open_post in Hrun as [K | (_ & [(K & _) | (K & _)])]; congruence.
    + destruct (opened_playing_or_paused (mState (this s))) eqn:Ho.
      * apply close_releases in Hrun as (_ & Hrel & _); [assumption | assumption | ].
        intros ->. apply He. reflexivity.
      * rewrite close_refused in Hrun by assumption. inversion Hrun; subst. congruence.
    + rewrite pause_refused in Hrun.
      * inversion Hrun; subst. congruence.
      * apply reachable_states in Hr. intuition congruence.
    + rewrite play_raises in Hrun. inversion Hrun; subst. congruence.
Qed.

Lemma closed_container_released_witness :
  released (this (snd (Script.run_all [Script.open_file; op_close] Script.fresh))).
Proof.
  apply (closed_container_released Script.lib).
  - apply (reach_run Script.lib Script.opened 0%nat op_close (Ret_int 0)).
    + apply (reach_run Script.lib Script.fresh 0%nat Script.open_file (Ret_int 0)).
      * apply (reach_make Script.lib ([] : World Script.lib)). vm_compute. reflexivity.
      * vm_compute. reflexivity.
      * discriminate.
    + vm_compute. reflexivity.
    + discriminate.
  - vm_compute. reflexivity.
Defined.

(** ** Setting up the stream wrappers *)

Lemma set_streams_same c : set_streams (streams c) c = c.
Proof. destruct c. reflexivity. Qed.

Lemma set_streams_twice l l' c : set_streams l (set_streams l' c) = set_streams l c.
Proof. reflexivity. Qed.

Lemma find_goodTimebase_first l tb :
  find_goodTimebase l = Some tb ->
  exists k st0,
    l !! k = Some (Some st0) /\ time_base st0 = tb /\
    (num (time_base st0) =? 0) || (den (time_base st0) =? 0) = false /\
    forall k' st', (k' < k)%nat -> l !! k' = Some (Some st') ->
                   (num (time_base st') =? 0) || (den (time_base st') =? 0) = true.
Proof.
  induction l as [ | [st | ] l IH]; simpl; intros H; try discriminate.
  - destruct (negb (num (time_base st) =? 0) && negb (den (time_base st) =? 0)) eqn:E.
    + inversion H; subst. exists 0%nat, st. split_and!; try reflexivity; [lia | ].
      intros k' st' Hlt. lia.
    + destruct (IH H) as (k & st0 & Hk & Htb & Hnz & Hfirst).
      exists (S k), st0. split_and!; try assumption.
      intros [ | k'] st' Hlt Hlk.
      * inversion Hlk; subst. lia.
      * apply (Hfirst k'); [lia | exact Hlk].
  - destruct (IH H) as (k & st0 & Hk & Htb & Hnz & Hfirst).
    exists (S k), st0. split_and!; try assumption.
    intros [ | k'] st' Hlt Hlk; [discriminate | ].
    apply (Hfirst k'); [lia | exact Hlk].
Qed.

Lemma find_goodTimebase_none l :
  find_goodTimebase l = None ->
  forall k st, l !! k = Some (Some st) ->
               (num (time_base st) =? 0) || (den (time_base st) =? 0) = true.
Proof.
  induction l as [ | [st | ] l IH]; simpl; intros H k st' Hlk; try discriminate.
  - destruct (negb (num (time_base st) =? 0) && negb (den (time_base st) =? 0)) eqn:E;
      [discriminate | ].
    destruct k as [ | k]; [inversion Hlk; subst; lia | ].
    apply (IH H k). exact Hlk.
  - destruct k as [ | k]; [discriminate | ].
    apply (IH H k). exact Hlk.
Qed.

Lemma with_good_timebase_null g entry :
  with_good_timebase g entry = None <-> entry = None.
Proof.
  unfold with_good_timebase. destruct entry as [st | ]; [ | tauto].
  destruct g as [tb | ]; [ | tauto].
  destruct ((num (time_base st) =? 0) || (den (time_base st) =? 0)); split; discriminate.
Qed.

Lemma make_all_length (L : Library) l : forall w : World L,
  length (fst (make_all L w l)) = length l.
Proof.
  induction l as [ | st l IH]; intros w; [reflexivity | ].
  cbn [make_all]. destruct (SourceStreamImpl_make L w st) as [m w1].
  specialize (IH w1). destruct (make_all L w1 l) as [ms w2]. simpl in *. congruence.
Qed.

Lemma make_all_made (L : Library) l : forall w : World L,
  Forall (fun m => exists w' st, m = fst (SourceStreamImpl_make L w' st))
         (fst (make_all L w l)).
Proof.
  induction l as [ | st l IH]; intros w; [constructor | ].
  cbn [make_all]. destruct (SourceStreamImpl_make L w st) as [m w1] eqn:E.
  specialize (IH w1). destruct (make_all L w1 l) as [ms w2]. simpl in *.
  constructor; [ | assumption]. exists w, st. rewrite E. reflexivity.
Qed.

Section Setup.

Context (L : Library).

(** The second loop of [doSetupSourceStreams], from index [i] for [n]
    rounds, on a context: the entries of the stream table in that range get
    the good time base where theirs has a zero, the library is asked for one
    wrapper for every entry in the range that is not null, in the order of the
    table, and the wrappers it gave are appended to [mStreams]. *)
Lemma setup_new_streams_spec g n : forall i (s : Sys L) c,
  (0 <= i)%Z ->
  mCtx (this s) = Some c ->
  exists s1 l made,
    setup_new_streams L g n i s = (Returned tt, s1) /\
    mCtx (this s1) = Some (set_streams l c) /\
    length l = length (streams c) /\
    (forall j, l !! j =
               if bool_decide (Z.to_nat i <= j < Z.to_nat i + n)%nat
               then with_good_timebase g <$> streams c !! j
               else streams c !! j) /\
    calls s1 = calls s ++ map call_SourceStreamImpl_make made /\
    length made = length (omap id (take n (drop (Z.to_nat i) (streams c)))) /\
    mStreams (this s1) = mStreams (this s) ++ omap id made /\
    mState (this s1) = mState (this s) /\
    made = fst (make_all L (world s) (omap id (take n (drop (Z.to_nat i) l)))) /\
    world s1 = snd (make_all L (world s) (omap id (take n (drop (Z.to_nat i) l)))).
Proof.
  induction n as [ | n IH]; intros i s c Hi Hc.
  - exists s, (streams c), []. simpl. rewrite set_streams_same, !app_nil_r.
    split_and!; try reflexivity; try assumption.
    intros j. case_bool_decide; [lia | reflexivity].
  - cbn [setup_new_streams]. rewrite bind_get, Hc. cbn [deref]. rewrite bind_ret.
    assert (Hnat : Z.to_nat (i + 1) = S (Z.to_nat i)) by lia.
    destruct (streams c !! Z.to_nat i) as [[avStream | ] | ] eqn:Hlk.
    + match goal with
      | |- context [extern (fun w => SourceStreamImpl_make L w ?a)] =>
          set (avStream' := a)
      end.
      assert (Hpatch : with_good_timebase g (Some avStream) = Some avStream').
      { subst avStream'. unfold with_good_timebase. destruct g as [tb | ]; [ | reflexivity].
        destruct ((num (time_base avStream) =? 0) || (den (time_base avStream) =? 0));
          reflexivity. }
      pose proof (lookup_lt_Some _ _ _ Hlk) as Hlt.
      set (l0 := <[Z.to_nat i := Some avStream']> (streams c)).
      rewrite !bind_assoc, (bind_update_ctx L _ _ s c Hc).
      rewrite !bind_assoc, bind_extern. norm.
      destruct (SourceStreamImpl_make L (world s) avStream') as [stream w'] eqn:Hmk.
      assert (Hstep : forall s0 : Sys L,
                 mCtx (this s0) = Some (set_streams l0 c) ->
                 mState (this s0) = mState (this s) ->
                 calls s0 = calls s ++ [call_SourceStreamImpl_make stream] ->
                 mStreams (this s0) = mStreams (this s) ++ omap id [stream] ->
                 world s0 = w' ->
                 exists s1 l made,
                   setup_new_streams L g n (i + 1) s0 = (Returned tt, s1) /\
                   mCtx (this s1) = Some (set_streams l c) /\
                   length l = length (streams c) /\
                   (forall j, l !! j =
                              if bool_decide (Z.to_nat i <= j < Z.to_nat i + S n)%nat
                              then with_good_timebase g <$> streams c !! j
                              else streams c !! j) /\
                   calls s1 = calls s ++ map call_SourceStreamImpl_make made /\
                   length made =
                     length (omap id (take (S n) (drop (Z.to_nat i) (streams c)))) /\
                   mStreams (this s1) = mStreams (this s) ++ omap id made /\
                   mState (this s1) = mState (this s) /\
                   made = fst (make_all L (world s)
                                 (omap id (take (S n) (drop (Z.to_nat i) l)))) /\
                   world s1 = snd (make_all L (world s)
                                     (omap id (take (S n) (drop (Z.to_nat i) l))))).
      { intros s0 Hc0 Hst0 Hl0 Hv0 Hw0.
        destruct (IH (i + 1) s0 _ ltac:(lia) Hc0)
          as (s1 & l & made & E & Hc1 & Hlen & Hpt & Hcalls & Hmade & Hv & Hst & Hall & Hw).
        assert (Hli : l !! Z.to_nat i = Some (Some avStream')).
        { rewrite Hpt, Hnat. rewrite bool_decide_eq_false_2 by lia.
          cbn [streams set_streams]. subst l0.
          apply list_lookup_insert_eq. assumption. }
        assert (Hargs : make_all L (world s) (omap id (take (S n) (drop (Z.to_nat i) l)))
                        = (stream :: made, world s1)).
        { rewrite (drop_S _ _ _ Hli). cbn [take omap id].
          change (make_all L (world s)
                    (avStream' :: omap id (take n (drop (S (Z.to_nat i)) l)))
                  = (stream :: made, world s1)).
          cbn [make_all]. rewrite Hmk.
          rewrite Hnat, Hw0 in Hall, Hw.
          destruct (make_all L w' (omap id (take n (drop (S (Z.to_nat i)) l))))
            as [ms w2].
          simpl in Hall, Hw. subst. reflexivity. }
        exists s1, l, (stream :: made). split; [exact E | ].
        split; [exact Hc1 | ].
        split; [rewrite Hlen; subst l0; simpl; apply length_insert | ].
        split; [ | split; [ | split; [ | split; [ | split; [ | split]]]]].
        - intros j. rewrite Hpt, Hnat. cbn [streams set_streams]. subst l0.
          destruct (decide (j = Z.to_nat i)) as [-> | Hne].
          + rewrite list_lookup_insert_eq by assumption.
            rewrite Hlk.
            change (with_good_timebase g <$> Some (Some avStream))
              with (Some (with_good_timebase g (Some avStream))).
            rewrite Hpatch.
            repeat case_bool_decide; try lia; reflexivity.
          + rewrite list_lookup_insert_ne by congruence.
            repeat case_bool_decide; try lia; reflexivity.
        - rewrite Hcalls, Hl0, <- app_assoc. reflexivity.
        - rewrite (drop_S _ _ _ Hlk). cbn [take omap id length].
          rewrite Hmade, Hnat. cbn [streams set_streams]. subst l0.
          rewrite drop_insert_lt by lia. reflexivity.
        - rewrite Hv, Hv0, <- app_assoc. destruct stream; reflexivity.
        - congruence.
        - rewrite Hargs. reflexivity.
        - rewrite Hargs. reflexivity. }
      destruct stream as [st | ].
      * rewrite !bind_assoc, bind_get, !bind_assoc, bind_modify, !bind_assoc, bind_get,
          bind_modify. norm.
        apply Hstep; norm; try reflexivity.
      * rewrite bind_ret.
        apply Hstep; norm; try reflexivity. rewrite app_nil_r. reflexivity.
    + rewrite bind_ret.
      destruct (IH (i + 1) s c ltac:(lia) Hc)
        as (s1 & l & made & E & Hc1 & Hlen & Hpt & Hcalls & Hmade & Hv & Hst & Hall & Hw).
      assert (Hli : l !! Z.to_nat i = Some None).
      { rewrite Hpt, Hnat. rewrite bool_decide_eq_false_2 by lia. exact Hlk. }
      assert (Hargs : omap id (take (S n) (drop (Z.to_nat i) l))
                      = omap id (take n (drop (Z.to_nat (i + 1)) l))).
      { rewrite (drop_S _ _ _ Hli), Hnat. reflexivity. }
      exists s1, l, made. split_and!; try assumption.
      * intros j. rewrite Hpt, Hnat.
        destruct (decide (j = Z.to_nat i)) as [-> | Hne].
        -- rewrite Hlk. repeat case_bool_decide; try lia; reflexivity.
        -- repeat case_bool_decide; try lia; reflexivity.
      * rewrite (drop_S _ _ _ Hlk). cbn [take omap id]. rewrite Hmade, Hnat. reflexivity.
      * rewrite Hargs. assumption.
      * rewrite Hargs. assumption.
    + rewrite bind_ret.
      destruct (IH (i + 1) s c ltac:(lia) Hc)
        as (s1 & l & made & E & Hc1 & Hlen & Hpt & Hcalls & Hmade & Hv & Hst & Hall & Hw).
      apply lookup_ge_None in Hlk.
      assert (Hargs : omap id (take (S n) (drop (Z.to_nat i) l))
                      = omap id (take n (drop (Z.to_nat (i + 1)) l))).
      { rewrite !drop_ge by lia. rewrite !take_nil. reflexivity. }
      exists s1, l, made. split_and!; try assumption.
      * intros j. rewrite Hpt, Hnat.
        repeat case_bool_decide; try lia; try reflexivity.
        all: rewrite (lookup_ge_None_2 (streams c) j) by lia; reflexivity.
      * rewrite Hmade, Hnat. rewrite !drop_ge by lia. rewrite !take_nil. reflexivity.
      * rewrite Hargs. assumption.
      * rewrite Hargs. assumption.
Qed.

(** [doSetupSourceStreams] on a context, when there is something to do. *)
Lemma doSetupSourceStreams_spec (s : Sys L) c :
  mCtx (this s) = Some c ->
  mNumStreams (this s) <> wrap32 (nb_streams c) ->
  let first := Z.to_nat (to_uint32 (mNumStreams (this s))) in
  let good := find_goodTimebase (streams c) in
  exists s1 l made,
    doSetupSourceStreams L s = (Returned (-1), s1) /\
    mCtx (this s1) = Some (set_streams l c) /\
    length l = length (streams c) /\
    (forall j, l !! j =
               if bool_decide (first <= j)%nat
               then with_good_timebase good <$> streams c !! j
               else streams c !! j) /\
    calls s1 = calls s ++ map call_SourceStreamImpl_make made /\
    length made = length (omap id (drop first (streams c))) /\
    mStreams (this s1) = mStreams (this s) ++ omap id made /\
    mState (this s1) = mState (this s) /\
    made = fst (make_all L (world s) (omap id (drop first l))) /\
    world s1 = snd (make_all L (world s) (omap id (drop first l))).
Proof.
  intros Hc Hk first good. unfold doSetupSourceStreams.
  rewrite bind_get, Hc. cbn [deref]. rewrite bind_ret, bind_get.
  rewrite bool_decide_eq_false_2 by assumption.
  cbv zeta. fold good.
  assert (Hi : 0 <= to_uint32 (mNumStreams (this s))).
  { unfold to_uint32. apply Z.mod_pos_bound. lia. }
  destruct (setup_new_streams_spec good
              (Z.to_nat (nb_streams c - to_uint32 (mNumStreams (this s))))
              (to_uint32 (mNumStreams (this s))) s c Hi Hc)
    as (s1 & l & made & E & Hc1 & Hlen & Hpt & Hcalls & Hmade & Hv & Hst & Hall & Hw).
  unfold bind at 1. rewrite E.
  exists s1, l, made. split; [reflexivity | ]. split; [assumption | ].
  split; [assumption | ]. fold first in Hpt, Hmade, Hall, Hw.
  assert (Hall_from : forall l' : list (option AVStream),
             length l' = length (streams c) ->
             take (Z.to_nat (nb_streams c - to_uint32 (mNumStreams (this s))))
                  (drop first l') = drop first l').
  { intros l' Hl'. destruct (decide (first <= length l')%nat).
    - apply firstn_all2. rewrite length_drop. unfold nb_streams. lia.
    - rewrite drop_ge by lia. apply take_nil. }
  rewrite (Hall_from l Hlen) in Hall, Hw.
  rewrite (Hall_from (streams c) eq_refl) in Hmade.
  split_and!; try assumption.
  intros j. rewrite Hpt.
  repeat case_bool_decide; try lia; try reflexivity.
  unfold nb_streams in *.
  rewrite (lookup_ge_None_2 (streams c) j) by lia. reflexivity.
Qed.

End Setup.

(** X12.  [doSetupSourceStreams] and the time bases.  When the stream count
    of the object is the number of streams of the context the call returns 0
    and changes nothing.  Otherwise it returns -1 and only the stream table of
    the context may change, in this way.  If every stream of the table has a
    zero numerator or denominator in its time base, the table stays as it is.
    If not, take the stream at the lowest index of the whole table whose time
    base has no zero: every stream from the index [mNumStreams] on whose time
    base has a zero numerator or denominator has got the time base of that
    stream, and every other entry of the table, null or not, is as before. *)
Theorem doSetupSourceStreams_time_bases (L : Library) (s : Sys L) c :
  mCtx (this s) = Some c ->
  let first := Z.to_nat (to_uint32 (mNumStreams (this s))) in
  let zero (st : AVStream) := (num (time_base st) =? 0) || (den (time_base st) =? 0) in
  exists r s' l,
    doSetupSourceStreams L s = (Returned r, s') /\
    mCtx (this s') = Some (set_streams l c) /\
    if bool_decide (mNumStreams (this s) = wrap32 (nb_streams c))
    then r = 0 /\ s' = s /\ l = streams c
    else r = -1 /\
         ((forall k st, streams c !! k = Some (Some st) -> zero st = true) /\
          l = streams c
          \/
          exists k st0,
            streams c !! k = Some (Some st0) /\
            zero st0 = false /\
            (forall k' st', (k' < k)%nat -> streams c !! k' = Some (Some st') ->
                            zero st' = true) /\
            length l = length (streams c) /\
            forall j,
              l !! j =
              match streams c !! j with
              | Some (Some st) =>
                  if bool_decide (first <= j)%nat && zero st
                  then Some (Some {| time_base := time_base st0 |})
                  else Some (Some st)
              | other => other
              end).
Proof.
  intros Hc first zero.
  case_bool_decide as Hk.
  - exists 0, s, (streams c). unfold doSetupSourceStreams.
    rewrite bind_get, Hc. cbn [deref]. rewrite bind_ret, bind_get.
    rewrite bool_decide_eq_true_2 by assumption.
    rewrite set_streams_same. split_and!; try reflexivity; assumption.
  - destruct (doSetupSourceStreams_spec L s c Hc Hk)
      as (s1 & l & made & E & Hc1 & Hlen & Hpt & _).
    exists (-1), s1, l. split; [assumption | ]. split; [assumption | ].
    split; [reflexivity | ].
    destruct (find_goodTimebase (streams c)) as [tb | ] eqn:Hg.
    + right. apply find_goodTimebase_first in Hg as (k & st0 & Hk0 & <- & Hnz & Hfirst).
      exists k, st0. split_and!; try assumption.
      intros j. rewrite Hpt. fold first.
      destruct (streams c !! j) as [[st | ] | ] eqn:Hj;
        case_bool_decide; try reflexivity.
      cbn [andb]. unfold with_good_timebase. simpl. subst zero. cbv beta.
      destruct ((num (time_base st) =? 0) || (den (time_base st) =? 0)); reflexivity.
    + left. split; [exact (find_goodTimebase_none _ Hg) | ].
      apply list_eq. intros j. rewrite Hpt. fold first.
      case_bool_decide; [ | reflexivity].
      destruct (streams c !! j) as [[st | ] | ]; reflexivity.
Qed.

Lemma doSetupSourceStreams_time_bases_witness :
  exists s',
    doSetupSourceStreams Script.lib Script.opened = (Returned (-1), s') /\
    streams (Script.ctx_of Script.opened) =
      [Some {| time_base := {| num := 1; den := 25 |} |};
       Some {| time_base := {| num := 0; den := 0 |} |}] /\
    streams (Script.ctx_of s') =
      [Some {| time_base := {| num := 1; den := 25 |} |};
       Some {| time_base := {| num := 1; den := 25 |} |}].
Proof.
  destruct (doSetupSourceStreams_time_bases Script.lib Script.opened
              (Script.ctx_of Script.opened) eq_refl)
    as (r & s' & l & E & Hc & Hcase).
  rewrite bool_decide_eq_false_2 in Hcase by (vm_compute; discriminate).
  destruct Hcase as [-> Hcase].
  exists s'. split; [exact E | ]. split; [reflexivity | ].
  unfold Script.ctx_of at 1. rewrite Hc. cbn [streams set_streams].
  destruct Hcase as [[Hnone _] | (k & st0 & Hk & Hnz & _ & Hlen & Hpt)].
  - specialize (Hnone 0%nat _ eq_refl). discriminate.
  - assert (Hst0 : time_base st0 = {| num := 1; den := 25 |}).
    { destruct k as [ | [ | k]].
      - inversion Hk. reflexivity.
      - inversion Hk; subst. discriminate.
      - discriminate. }
    pose proof (Hpt 0%nat) as H0. pose proof (Hpt 1%nat) as H1.
    rewrite Hst0 in H0, H1.
    destruct l as [ | e0 [ | e1 [ | e2 l]]]; try discriminate.
    inversion H0. inversion H1. reflexivity.
Defined.

(** X13.  [doSetupSourceStreams] and the wrappers, when the stream count of
    the object is not the number of streams of the context.  The stream table
    of the context keeps its length and its null entries.
    [SourceStreamImpl::make] is called once on every entry of the table from
    the index [mNumStreams] on that is not null, on the stream as it then
    stands in the table, in the order of the table and whether or not the
    stream has a wrapper already, each call in the world the call before it
    left; nothing else is called.  The wrappers that were given are appended
    to [mStreams] in that order, the state stays, and the result is -1 even
    when every wrapper was made. *)
Theorem doSetupSourceStreams_wrappers (L : Library) (s : Sys L) c :
  mCtx (this s) = Some c ->
  mNumStreams (this s) <> wrap32 (nb_streams c) ->
  let first := Z.to_nat (to_uint32 (mNumStreams (this s))) in
  exists s' l,
    doSetupSourceStreams L s = (Returned (-1), s') /\
    mCtx (this s') = Some (set_streams l c) /\
    length l = length (streams c) /\
    (forall j, l !! j = Some None <-> streams c !! j = Some None) /\
    calls s' =
      calls s ++ map call_SourceStreamImpl_make
                   (fst (make_all L (world s) (omap id (drop first l)))) /\
    world s' = snd (make_all L (world s) (omap id (drop first l))) /\
    mStreams (this s') =
      mStreams (this s) ++ omap id (fst (make_all L (world s) (omap id (drop first l)))) /\
    mState (this s') = mState (this s).
Proof.
  intros Hc Hk first.
  destruct (doSetupSourceStreams_spec L s c Hc Hk)
    as (s1 & l & made & E & Hc1 & Hlen & Hpt & Hcalls & Hmade & Hv & Hst & Hall & Hw).
  fold first in Hpt, Hall, Hw. subst made.
  exists s1, l. split_and!; try assumption.
  intros j. rewrite Hpt.
  case_bool_decide; [ | reflexivity].
  destruct (streams c !! j) as [entry | ]; [ | split; discriminate].
  change (with_good_timebase (find_goodTimebase (streams c)) <$> Some entry)
    with (Some (with_good_timebase (find_goodTimebase (streams c)) entry)).
  split; intros Hn; inversion Hn as [Hn'].
  - apply with_good_timebase_null in Hn'. rewrite Hn'. reflexivity.
  - reflexivity.
Qed.

Lemma doSetupSourceStreams_wrappers_witness :
  exists s',
    doSetupSourceStreams Script.lib Script.opened = (Returned (-1), s') /\
    calls s' = calls Script.opened
               ++ [call_SourceStreamImpl_make (Some 25%N);
                   call_SourceStreamImpl_make (Some 25%N)] /\
    mStreams (this s') = [25%N; 25%N].
Proof.
  destruct (doSetupSourceStreams_wrappers Script.lib Script.opened
              (Script.ctx_of Script.opened) eq_refl)
    as (s' & l & E & Hc & Hlen & Hnull & Hcalls & Hw & Hv & Hst).
  { vm_compute. discriminate. }
  exists s'. split; [exact E | ].
  pose proof E as E'. vm_compute in E'. inversion E'; subst s'.
  split; reflexivity.
Defined.

(** ** Counting the streams *)

Lemma omap_id_length {A} (l : list (option A)) :
  Forall (fun x => x <> None) l -> length (omap id l) = length l.
Proof.
  induction l as [ | [a | ] l IH]; intros H; [reflexivity | | ].
  - inversion H; subst. cbn [omap id length]. change (length (a :: omap id l) = S (length l)).
    simpl. rewrite IH by assumption. reflexivity.
  - inversion H; subst. congruence.
Qed.

(** Bringing the wrappers up to date when no entry of the stream table is
    null and the library makes every wrapper it is asked for. *)
Lemma sync_streams_complete (L : Library) (s : Sys L) c :
  mCtx (this s) = Some c ->
  streams_ok (this s) ->
  mNumStreams (this s) <= nb_streams c <= INT32_MAX ->
  Forall (fun x => x <> None) (drop (Z.to_nat (mNumStreams (this s))) (streams c)) ->
  (forall w st, fst (SourceStreamImpl_make L w st) <> None) ->
  exists s1 c1 made,
    sync_streams L s = (Returned tt, s1) /\
    mCtx (this s1) = Some c1 /\
    nb_streams c1 = nb_streams c /\
    mNumStreams (this s1) = nb_streams c /\
    streams_ok (this s1) /\
    mState (this s1) = mState (this s) /\
    calls s1 = calls s ++ map call_SourceStreamImpl_make made /\
    (mNumStreams (this s) = nb_streams c -> s1 = s /\ made = []).
Proof.
  intros Hc Hok Hle Hall Hmake.
  pose proof Hok as [Hlen Hmax].
  assert (Hw : wrap32 (nb_streams c) = nb_streams c).
  { apply wrap32_small. unfold nb_streams, INT32_MIN, INT32_MAX in *. lia. }
  destruct (sync_streams_ok L s c Hc) as (s1 & c1 & E & Hc1 & Hnb & Hst & Hok1 & Hsame).
  specialize (Hok1 Hok ltac:(lia)).
  destruct (decide (mNumStreams (this s) = nb_streams c)) as [Heq | Hne].
  - rewrite Hsame in * by congruence.
    exists s, c, []. simpl. rewrite app_nil_r.
    split_and!; try reflexivity; try assumption. auto.
  - unfold sync_streams in E. rewrite bind_get, Hc in E. cbn [deref] in E.
    rewrite bind_ret, bind_get in E.
    rewrite bool_decide_eq_false_2 in E by (rewrite Hw; congruence).
    destruct (doSetupSourceStreams_spec L s c Hc ltac:(rewrite Hw; assumption))
      as (s2 & l & made & E2 & Hc2 & Hl & Hpt & Hcalls & Hmade & Hv & Hst2 & Hfrom & _).
    unfold bind at 1 in E. rewrite E2 in E. inversion E; subst s2. clear E.
    exists s1, c1, made.
    split.
    { unfold sync_streams. rewrite bind_get, Hc. cbn [deref].
      rewrite bind_ret, bind_get.
      rewrite bool_decide_eq_false_2 by (rewrite Hw; congruence).
      unfold bind at 1. rewrite E2. reflexivity. }
    split; [assumption | ]. split; [assumption | ].
    split; [ | split; [assumption | split; [assumption | split; [assumption | ]]]].
    2:{ intros; contradiction. }
    destruct Hok1 as [Hlen1 _]. rewrite <- Hlen1, Hv, length_app.
    assert (Hsome : Forall (fun x : option SourceStreamImpl => x <> None) made).
    { rewrite Hfrom. eapply Forall_impl; [apply make_all_made | ].
      intros m (w & st & ->). apply Hmake. }
    rewrite (omap_id_length _ Hsome), Hmade.
    rewrite to_uint32_small in * by lia.
    rewrite (omap_id_length _ Hall), length_drop.
    unfold nb_streams in *. lia.
Qed.



(** ** close, in general *)

(** After [close] on a context the object holds nothing, however the call
    ended. *)
Lemma close_leaves_nothing (L : Library) (s : Sys L) c :
  opened_playing_or_paused (mState (this s)) = true ->
  mCtx (this s) = Some c ->
  exists r s', close L s = (r, s') /\ released (this s').
Proof.
  intros Hst Hc.
  pose proof (close_spec L s c Hst Hc) as Hspec. cbv zeta in Hspec.
  destruct (mIOHandler (this s)) as [h | ] eqn:Hh.
  - match type of Hspec with
    | _ = if ?b then _ else _ => destruct b
    end; rewrite Hspec; eexists _, _; (split; [reflexivity | repeat split]).
  - rewrite Hspec. eexists _, _. split; [reflexivity | ]. repeat split; assumption.
Qed.

(** X15.  [close] in state OPENED, PLAYING or PAUSED on a context.  Every
    stream wrapper is told that the container closes and is released, from the
    last to the first, then the library closes the context; after that the
    object holds nothing any more, however the call ends.  Without a custom
    I/O handler nothing else is called, the result is 0 and the state is
    CLOSED.  With a handler, the handler is closed and released; the result of
    closing it is the result of [close] and the state is CLOSED, unless that
    result is negative: then the call ends in undefined behaviour with the
    state as it was.  The result does not pass through the interrupt check. *)
Theorem close_tells_streams (L : Library) (s : Sys L) c :
  opened_playing_or_paused (mState (this s)) = true ->
  mCtx (this s) = Some c ->
  exists r s' l,
    close L s = (r, s') /\
    calls s' = calls s ++ closing_calls (mStreams (this s))
                 ++ call_avformat_close_input :: l /\
    released (this s') /\
    match mIOHandler (this s) with
    | None => l = [] /\ r = Returned 0 /\ mState (this s') = STATE_CLOSED
    | Some h =>
        exists rc,
          In (call_url_close h rc) l /\ In (call_delete_handler h) l /\
          ~ In (call_VS_CHECK_INTERRUPT rc) l /\
          if rc <? 0
          then r = Undefined /\ mState (this s') = mState (this s)
          else r = Returned rc /\ mState (this s') = STATE_CLOSED
    end.
Proof.
  intros Hst Hc.
  pose proof (close_spec L s c Hst Hc) as Hspec. cbv zeta in Hspec.
  destruct (mIOHandler (this s)) as [h | ] eqn:Hh.
  - match type of Hspec with
    | _ = if ?rc <? 0 then _ else _ => set (x := rc) in *
    end.
    assert (Hl : forall pre post : list Call,
               In (call_url_close h x) (pre ++ [call_url_close h x] ++ post
                                          ++ [call_av_free; call_delete_handler h]) /\
               In (call_delete_handler h) (pre ++ [call_url_close h x] ++ post
                                          ++ [call_av_free; call_delete_handler h])).
    { intros pre post. rewrite !in_app_iff. simpl. tauto. }
    destruct (x <? 0) eqn:Hneg; rewrite Hspec.
    + eexists _, _, _. split; [reflexivity | ]. norm.
      split; [rewrite <- !app_assoc; reflexivity | ].
      split; [repeat split | ].
      exists x. rewrite Hneg.
      split; [apply Hl | ]. split; [apply Hl | ].
      split; [ | split; reflexivity].
      destruct (pb c); rewrite !in_app_iff; simpl; intuition discriminate.
    + eexists _, _, _. split; [reflexivity | ]. norm.
      split; [rewrite <- !app_assoc; reflexivity | ].
      split; [repeat split | ].
      exists x. rewrite Hneg.
      split; [apply Hl | ]. split; [apply Hl | ].
      split; [ | split; reflexivity].
      destruct (pb c); rewrite !in_app_iff; simpl; intuition discriminate.
  - rewrite Hspec. eexists (Returned 0), _, []. split; [reflexivity | ]. norm.
    split; [reflexivity | ].
    split; [repeat split; assumption | ].
    split_and!; reflexivity.
Qed.

Lemma close_tells_streams_witness :
  let s := Script.queried in
  let c := Script.ctx_of s in
  exists r s' l,
    close Script.lib s = (r, s') /\
    calls s' = calls s ++ closing_calls (mStreams (this s))
                 ++ call_avformat_close_input :: l /\
    released (this s') /\
    match mIOHandler (this s) with
    | None => l = [] /\ r = Returned 0 /\ mState (this s') = STATE_CLOSED
    | Some h =>
        exists rc,
          In (call_url_close h rc) l /\ In (call_delete_handler h) l /\
          ~ In (call_VS_CHECK_INTERRUPT rc) l /\
          if rc <? 0
          then r = Undefined /\ mState (this s') = mState (this s)
          else r = Returned rc /\ mState (this s') = STATE_CLOSED
    end.
Proof.
  intros s c.
  apply (close_tells_streams Script.lib s c).
  - reflexivity.
  - reflexivity.
Defined.

(** ** The destructor *)

Lemma getURL_live (L : Library) (s : Sys L) c :
  closed_or_error (mState (this s)) = false ->
  mCtx (this s) = Some c ->
  getURL L s = (Returned (filename c), s).
Proof.
  intros Hst Hc. unfold getURL. rewrite bind_getFormatCtx by assumption.
  rewrite Hc. reflexivity.
Qed.

(** X16.  The destructor.  On an object in state OPENED, PLAYING or PAUSED
    with a context it does what [close] does and ends as [close] ends; the
    context, which [close] has handed to the library and cleared, is not
    handed to [avformat_free_context] again.  In every other state it calls
    nothing but [avformat_free_context], once, on the context of the object,
    and not at all when the context pointer is null. *)
Theorem destructor_closes_or_frees (L : Library)
    (avformat_free_context : World L -> AVFormatContext -> World L) (s : Sys L) :
  if opened_playing_or_paused (mState (this s)) then
    forall c,
      mCtx (this s) = Some c ->
      exists r s',
        close L s = (r, s') /\
        mCtx (this s') = None /\
        SourceImpl_dtor L avformat_free_context s =
        (match r with
         | Returned _ => Returned None
         | Thrown e => Thrown e
         | Undefined => Undefined
         end, s')
  else
    SourceImpl_dtor L avformat_free_context s =
    (Returned (mCtx (this s)),
     match mCtx (this s) with
     | Some c => set_world (avformat_free_context (world s) c) s
     | None => s
     end).
Proof.
  destruct (opened_playing_or_paused (mState (this s))) eqn:Hst.
  - intros c Hc.
    destruct (close_leaves_nothing L s c Hst Hc) as (r & s' & E & (Hnull & _)).
    exists r, s'. split; [assumption | ]. split; [assumption | ].
    unfold SourceImpl_dtor. rewrite bind_get, Hst.
    rewrite !bind_assoc.
    unfold bind at 1. rewrite (getURL_live L s c) by (auto using opp_not_closed).
    rewrite !bind_assoc. unfold bind at 1. rewrite E.
    destruct r as [z | e | ]; try reflexivity.
    rewrite bind_ret, bind_get, Hnull. reflexivity.
  - unfold SourceImpl_dtor. rewrite bind_get, Hst, bind_ret, bind_get.
    destruct (mCtx (this s)); reflexivity.
Qed.

(** ** read at the ends of its range *)

(** X17.  [read] on a [MediaPacketImpl] in state CLOSED or ERROR raises the
    exception of [getFormatCtx], but only after the packet has been reset and
    marked incomplete: the caller gets it back in that condition.  No library
    read is made and the object does not change. *)
Theorem read_on_closed_container (L : Library) fuel pkt (s : Sys L) :
  closed_or_error (mState (this s)) = true ->
  read L (S fuel) (Some (IsMediaPacketImpl pkt)) s =
  Some (Thrown (runtime_error_copy closed_message),
        Some (IsMediaPacketImpl
                (setComplete false (getSize (reset L pkt 0)) (reset L pkt 0))),
        {| world := world s;
           calls := calls s ++ [call_MediaPacketImpl_reset; call_setComplete false];
           this := this s |}).
Proof.
  intros Hst. cbn [read read_frames].
  rewrite getFormatCtx_closed by (norm; assumption).
  unfold add_call. norm. rewrite <- app_assoc.
  destruct (setComplete false (getSize (reset L pkt 0)) (reset L pkt 0)). reflexivity.
Qed.

Lemma read_on_closed_container_witness :
  let s := Script.sys STATE_CLOSED [] None [] [] in
  read Script.lib 1 (Some (IsMediaPacketImpl Script.blank)) s =
  Some (Thrown (runtime_error_copy closed_message),
        Some (IsMediaPacketImpl
                (setComplete false (getSize (reset Script.lib Script.blank 0))
                   (reset Script.lib Script.blank 0))),
        {| world := world s;
           calls := calls s ++ [call_MediaPacketImpl_reset; call_setComplete false];
           this := this s |}).
Proof.
  intros s.
  apply (read_on_closed_container Script.lib 0 Script.blank s).
  reflexivity.
Defined.

Lemma read_frames_busy (L : Library) fuel : forall packet n (s : Sys L) c,
  always_busy L ->
  closed_or_error (mState (this s)) = false ->
  mCtx (this s) = Some c ->
  mReadRetryMax (this s) = INT32_MAX ->
  read_frames L fuel packet n s = None.
Proof.
  induction fuel as [ | fuel IH]; intros packet n s c Hbusy Hst Hc Hmax; [reflexivity | ].
  cbn [read_frames]. rewrite getFormatCtx_open by assumption. rewrite Hc.
  pose proof (Hbusy (world s) c packet) as Hb.
  destruct (av_read_frame L (world s) c packet) as [[[r c'] packet'] w'].
  simpl in Hb. subst r. norm. rewrite Hmax.
  assert (Hle : (wrap32 (n + 1) <=? INT32_MAX) = true)
    by (pose proof (wrap32_range (n + 1)); lia).
  rewrite Hle, bool_decide_eq_true_2 by reflexivity.
  rewrite orb_true_r. cbn [andb].
  apply (IH _ _ _ c'); norm; auto.
Qed.

(** X18.  With the retry count at INT32_MAX, which [setReadRetryCount]
    accepts, the count of library reads can never pass the retry count: while
    the library reports EAGAIN, [read] on a [MediaPacketImpl] outside CLOSED
    and ERROR reads again, and against a library that reports EAGAIN for ever
    it does not return, whatever the fuel. *)
Theorem read_never_gives_up (L : Library) fuel pkt (s : Sys L) c :
  always_busy L ->
  closed_or_error (mState (this s)) = false ->
  mCtx (this s) = Some c ->
  mReadRetryMax (this s) = INT32_MAX ->
  (exists s1, setReadRetryCount L INT32_MAX s = (Returned tt, s1) /\
              mReadRetryMax (this s1) = INT32_MAX) /\
  read L fuel (Some (IsMediaPacketImpl pkt)) s = None.
Proof.
  intros Hbusy Hst Hc Hmax. split.
  - eexists. split; reflexivity.
  - unfold read. erewrite read_frames_busy; try eassumption; reflexivity.
Qed.

Lemma read_never_gives_up_witness :
  (exists s1, setReadRetryCount Script.busy INT32_MAX Script.patient = (Returned tt, s1) /\
              mReadRetryMax (this s1) = INT32_MAX) /\
  read Script.busy 1000 (Some (IsMediaPacketImpl Script.blank)) Script.patient = None.
Proof.
  apply (read_never_gives_up Script.busy 1000 Script.blank Script.patient
           (Script.ctx_of (Script.sys STATE_OPENED [] None [] []))).
  - intros w c p. reflexivity.
  - reflexivity.
  - reflexivity.
  - reflexivity.
Defined.

(** ** The positions of the stream wrappers *)

Lemma sync_streams_appends (L : Library) (s : Sys L) c s1 :
  mCtx (this s) = Some c ->
  sync_streams L s = (Returned tt, s1) ->
  exists more, mStreams (this s1) = mStreams (this s) ++ more.
Proof.
  intros Hc E. unfold sync_streams in E. rewrite bind_get, Hc in E. cbn [deref] in E.
  rewrite bind_ret, bind_get in E.
  case_bool_decide as Hk.
  - inversion E; subst. exists []. rewrite app_nil_r. reflexivity.
  - destruct (doSetupSourceStreams_spec L s c Hc ltac:(congruence))
      as (s2 & l & made & E2 & _ & _ & _ & _ & _ & Hv & _).
    unfold bind at 1 in E. rewrite E2 in E. inversion E; subst.
    eauto.
Qed.

(** X19.  [getSourceStream] at a position that is not negative, in state
    OPENED, PLAYING or PAUSED with the stream wrappers counted by
    [mNumStreams]: the result is the wrapper at that position of [mStreams]
    after the wrappers were brought up to date, or null beyond the last one.
    Bringing them up to date only appends wrappers, so a position that had a
    wrapper keeps it: the call returns that very wrapper. *)
Theorem getSourceStream_positions_stable (L : Library) position (s : Sys L) c :
  opened_playing_or_paused (mState (this s)) = true ->
  mCtx (this s) = Some c ->
  streams_ok (this s) ->
  nb_streams c <= INT32_MAX ->
  0 <= position ->
  exists s' more,
    getSourceStream L position s =
      (Returned (mStreams (this s') !! Z.to_nat position), s') /\
    mStreams (this s') = mStreams (this s) ++ more /\
    mState (this s') = mState (this s) /\
    (forall st,
        mStreams (this s) !! Z.to_nat position = Some st ->
        getSourceStream L position s = (Returned (Some st), s')).
Proof.
  intros Hst Hc Hok Hnb Hpos.
  destruct (sync_streams_ok L s c Hc) as (s1 & c1 & E & Hc1 & _ & Hst1 & Hok1 & _).
  destruct (Hok1 Hok Hnb) as [Hlen Hmax].
  destruct (sync_streams_appends L s c s1 Hc E) as (more & Hmore).
  assert (Hres : getSourceStream L position s =
                 (Returned (mStreams (this s1) !! Z.to_nat position), s1)).
  { unfold getSourceStream. rewrite bind_get, Hst. cbn [negb].
    unfold bind at 1. rewrite E. rewrite bind_get.
    destruct (position <? mNumStreams (this s1)) eqn:Hlt.
    - rewrite bind_get. unfold vector_at.
      rewrite to_size_t_small by lia.
      destruct (mStreams (this s1) !! Z.to_nat position) as [st | ] eqn:Hlk; [reflexivity | ].
      apply lookup_ge_None in Hlk. lia.
    - rewrite (lookup_ge_None_2 (mStreams (this s1)) (Z.to_nat position)) by lia.
      reflexivity. }
  exists s1, more. split; [exact Hres | ]. split; [exact Hmore | ].
  split; [exact Hst1 | ].
  intros st Hlk. rewrite Hres, Hmore.
  rewrite lookup_app_l by (eapply lookup_lt_Some; eassumption).
  rewrite Hlk. reflexivity.
Qed.

Lemma getSourceStream_positions_stable_witness :
  let s := Script.queried in
  let c := Script.ctx_of s in
  let position := 1 in
  exists s' more,
    getSourceStream Script.lib position s =
      (Returned (mStreams (this s') !! Z.to_nat position), s') /\
    mStreams (this s') = mStreams (this s) ++ more /\
    mState (this s') = mState (this s) /\
    (forall st,
        mStreams (this s) !! Z.to_nat position = Some st ->
        getSourceStream Script.lib position s = (Returned (Some st), s')).
Proof.
  intros s c position.
  apply (getSourceStream_positions_stable Script.lib position s c).
  - reflexivity.
  - reflexivity.
  - split; vm_compute; [reflexivity | discriminate].
  - vm_compute. discriminate.
  - vm_compute. discriminate.
Defined.

(** ** The stream count *)

Lemma wrap32_succ z : wrap32 (wrap32 z + 1) = wrap32 (z + 1).
Proof.
  unfold wrap32.
  replace ((z + 2147483648) mod 4294967296 - 2147483648 + 1 + 2147483648)
    with ((z + 2147483648) mod 4294967296 + 1) by lia.
  replace (z + 1 + 2147483648) with (z + 2147483648 + 1) by lia.
  rewrite Zplus_mod_idemp_l. reflexivity.
Qed.

(** The methods keep a property that the second loop of
    [doSetupSourceStreams] keeps and that no write to the state, the
    stream-info mark, the handler, the context and the format can break. *)
Section PreservedGivenSetup.

Context (L : Library) (P : SourceImpl -> Prop).

Hypothesis P_mState : forall v o, P o -> P (set_mState v o).
Hypothesis P_mStreamInfoGotten : forall v o, P o -> P (set_mStreamInfoGotten v o).
Hypothesis P_mIOHandler : forall v o, P o -> P (set_mIOHandler v o).
Hypothesis P_mCtx : forall c o, P o -> P (set_mCtx (Some c) o).
Hypothesis P_mCtx_null : forall o, P o -> P (set_mCtx None o).
Hypothesis P_mFormat : forall v o, P o -> P (set_mFormat v o).
Hypothesis P_setup : forall g n i, preserves P (setup_new_streams L g n i).

#[local] Hint Resolve P_mState P_mStreamInfoGotten P_mIOHandler P_mCtx P_mCtx_null
  P_mFormat P_setup : preserves.

Lemma setup_update_ctx g : preserves P (update_ctx L g).
Proof. unfold update_ctx. preserves_auto. Qed.
#[local] Hint Resolve setup_update_ctx : preserves.

Lemma setup_doSetupSourceStreams : preserves P (doSetupSourceStreams L).
Proof. unfold doSetupSourceStreams. preserves_auto. Qed.
#[local] Hint Resolve setup_doSetupSourceStreams : preserves.

Lemma setup_sync_streams : preserves P (sync_streams L).
Proof. unfold sync_streams. preserves_auto. Qed.
#[local] Hint Resolve setup_sync_streams : preserves.

Lemma setup_queryStreamMetaData : preserves P (queryStreamMetaData L).
Proof. unfold queryStreamMetaData, getFormatCtx, the_ctx. preserves_auto. Qed.
#[local] Hint Resolve setup_queryStreamMetaData : preserves.

Lemma setup_doCloseFileHandles io : preserves P (doCloseFileHandles L io).
Proof. unfold doCloseFileHandles. preserves_auto. Qed.
#[local] Hint Resolve setup_doCloseFileHandles : preserves.

Lemma setup_open url fmt dyn qmd opts unset :
  preserves P (open L url fmt dyn qmd opts unset).
Proof. unfold open, open_tail, doOpen, getFormatCtx, the_ctx. preserves_auto. Qed.

Lemma setup_getNumStreams : preserves P (getNumStreams L).
Proof. unfold getNumStreams. preserves_auto. Qed.

Lemma setup_getSourceStream position : preserves P (getSourceStream L position).
Proof. unfold getSourceStream, vector_at. preserves_auto. Qed.
#[local] Hint Resolve setup_getSourceStream : preserves.

Lemma setup_set_packet_time_base pkt : preserves P (set_packet_time_base L pkt).
Proof. unfold set_packet_time_base. preserves_auto. Qed.

Lemma setup_read_frames fuel : forall packet numReads s r packet' s',
  read_frames L fuel packet numReads s = Some (r, packet', s') ->
  P (this s) -> P (this s').
Proof.
  induction fuel as [ | fuel IH]; intros packet numReads s r packet' s' H HP;
    simpl in H; [discriminate | ].
  destruct (getFormatCtx L s) as [r0 s1] eqn:E.
  assert (HP1 : P (this s1)) by exact (preserves_getFormatCtx L P _ _ _ E HP).
  destruct r0 as [[c | ] | e | ]; try (inversion H; subst; assumption).
  destruct (av_read_frame L (world s1) c packet) as [[[retval c'] pk'] w'].
  match type of H with
  | (if ?b then _ else _) = _ => destruct b
  end.
  - eapply IH; [eassumption | ]. simpl. auto.
  - inversion H; subst. simpl. auto.
Qed.

Lemma setup_read fuel ipkt s r ipkt' s' :
  read L fuel ipkt s = Some (r, ipkt', s') -> P (this s) -> P (this s').
Proof.
  unfold read. intros H HP.
  assert (Hc : forall x r1 s0 s1, check_interrupt L x s0 = (r1, s1) ->
                                  P (this s0) -> P (this s1))
    by (intros x r1 s0 s1; apply preserves_check_interrupt).
  destruct ipkt as [[pkt | id] | ].
  - match type of H with
    | context [read_frames L fuel ?p 0 ?s0] =>
        destruct (read_frames L fuel p 0 s0) as [[[r0 packet] s1] | ] eqn:E
    end; try discriminate.
    assert (HP1 : P (this s1)) by exact (setup_read_frames _ _ _ _ _ _ _ E HP).
    destruct r0 as [retval | e | ]; try (inversion H; subst; assumption).
    destruct (retval >=? 0).
    + destruct (set_packet_time_base L _ s1) as [r2 s2] eqn:E2.
      assert (HP2 : P (this s2)) by exact (setup_set_packet_time_base _ _ _ _ E2 HP1).
      destruct r2 as [pkt' | e | ]; try (inversion H; subst; assumption).
      destruct (check_interrupt L retval _) as [r3 s3] eqn:E3.
      apply Hc in E3; [ | exact HP2].
      inversion H; subst. assumption.
    + destruct (check_interrupt L retval s1) as [r3 s3] eqn:E3.
      apply Hc in E3; [ | exact HP1].
      inversion H; subst. assumption.
  - destruct (check_interrupt L (-1) s) as [r3 s3] eqn:E3. apply Hc in E3; [ | exact HP].
    inversion H; subst. assumption.
  - destruct (check_interrupt L (-1) s) as [r3 s3] eqn:E3. apply Hc in E3; [ | exact HP].
    inversion H; subst. assumption.
Qed.

End PreservedGivenSetup.

Section Counted.

Context (L : Library).

Lemma counted_setup_new_streams g n : forall i, preserves counted (setup_new_streams L g n i).
Proof.
  induction n as [ | n IH]; intros i; cbn [setup_new_streams]; [apply preserves_ret | ].
  apply preserves_bind; [apply preserves_get | intros p].
  apply preserves_bind; [apply preserves_deref | intros c].
  apply preserves_bind; [ | intros _; apply IH].
  destruct (streams c !! Z.to_nat i) as [[avStream | ] | ]; try apply preserves_ret.
  apply preserves_bind.
  { unfold update_ctx. preserves_auto; intros; assumption. }
  intros _. apply preserves_bind; [apply preserves_extern | intros [st | ]].
  2:{ apply preserves_ret. }
  intros s r s' H Hc. cbv [bind get modify] in H. inversion H; subst.
  unfold counted in *. norm. rewrite Hc, length_app, wrap32_succ. simpl length.
  f_equal. lia.
Qed.

Lemma counted_close (s : Sys L) r s' :
  close L s = (r, s') -> counted (this s) -> counted (this s').
Proof.
  intros H Hc.
  destruct (opened_playing_or_paused (mState (this s))) eqn:Hst.
  2:{ rewrite close_refused in H by assumption. inversion H; subst. assumption. }
  destruct (mCtx (this s)) as [c | ] eqn:Hctx.
  - destruct (close_leaves_nothing L s c Hst Hctx) as (r1 & s1 & E & (_ & Hv & Hn & _)).
    rewrite E in H. inversion H; subst.
    unfold counted. rewrite Hv, Hn. reflexivity.
  - unfold close in H. rewrite bind_get, Hst in H. cbn [negb] in H.
    rewrite bind_get in H. unfold bind at 1 in H.
    rewrite (close_streams_spec L _ s eq_refl) in H.
    rewrite bind_modify in H. norm.
    rewrite bind_getFormatCtx in H by (norm; apply opp_not_closed; assumption).
    norm. rewrite Hctx in H. cbn [deref] in H. rewrite bind_undefined in H.
    inversion H; subst. reflexivity.
Qed.

Lemma counted_run fuel op (s : Sys L) e s' :
  run L fuel op s = Some (e, s') -> counted (this s) -> counted (this s').
Proof.
  intros Hrun Hc.
  pose proof counted_setup_new_streams as Hsetup.
  destruct (moves_state op) eqn:Hm.
  - destruct op; try discriminate Hm; simpl in Hrun;
      apply run_int_inv in Hrun as (r & Hrun & ->).
    + eapply (setup_open L counted); try eassumption; intros; assumption.
    + eapply counted_close; eassumption.
    + eapply (preserves_pause L counted); try eassumption; intros; assumption.
    + rewrite play_raises in Hrun. inversion Hrun; subst. assumption.
  - destruct op; try discriminate Hm.
    all: simpl in Hrun;
      try (apply run_int_inv in Hrun as (r & Hrun & ->));
      try (apply run_other_inv in Hrun as (r & Hrun & ->)).
    all: try (pose proof (preserves_getters L counted) as G;
              destruct G as (G1 & G2 & G3 & G4 & G5 & G6 & G7 & G8 & G9 & G10);
              match goal with
              | Hm : ?m ?s = (_, ?s1) |- _ =>
                  let K := fresh "K" in
                  assert (K : preserves counted m) by solve [eauto];
                  exact (K _ _ _ Hm Hc)
              end).
    all: try (pose proof (preserves_setters L counted ltac:(intros; assumption)) as S;
              destruct S as (S1 & S2 & S3 & S4 & S5 & S6);
              match goal with
              | Hm : ?m ?s = (_, ?s1) |- _ =>
                  let K := fresh "K" in
                  assert (K : preserves counted m) by solve [eauto];
                  exact (K _ _ _ Hm Hc)
              end).
    + eapply (preserves_setInputBufferLength L counted); try eassumption; intros; assumption.
    + eapply (setup_getNumStreams L counted); try eassumption; intros; assumption.
    + eapply (setup_getSourceStream L counted); try eassumption; intros; assumption.
    + destruct (read L fuel ipkt s) as [[[r p] s1] | ] eqn:E; [ | discriminate].
      inversion Hrun; subst.
      eapply (setup_read L counted); try eassumption; intros; assumption.
    + eapply (setup_queryStreamMetaData L counted); try eassumption; intros; assumption.
    + eapply (preserves_getURL L counted); try eassumption; intros; assumption.
    + eapply (preserves_setReadRetryCount L counted); try eassumption; intros; assumption.
    + eapply (preserves_getMetaData L counted); try eassumption; intros; assumption.
Qed.

End Counted.

(** X20.  On every object made by [make] and used through the public
    interface the stream count [mNumStreams] is the number of stream wrappers
    in [mStreams], as a 32-bit integer: a wrapper is appended and the count
    raised together, and [close] empties the one and clears the other.  With
    fewer than 2^31 wrappers the count is that number itself. *)
Theorem stream_count_is_number_of_wrappers (L : Library) (s : Sys L) :
  reachable L s ->
  counted (this s) /\
  (Z.of_nat (length (mStreams (this s))) <= INT32_MAX -> streams_ok (this s)).
Proof.
  intros Hreach.
  assert (Hc : counted (this s)).
  { induction Hreach as [w s Hmk | s fuel op e s' Hr IH Hrun He].
    - unfold make, SourceImpl_ctor in Hmk.
      destruct (avformat_alloc_context L (Global_init L w)) as [[ctx | ] w'];
        inversion Hmk; subst. reflexivity.
    - eapply counted_run; eassumption. }
  split; [exact Hc | ].
  intros Hle. unfold streams_ok. unfold counted in Hc.
  rewrite wrap32_small in Hc by (unfold INT32_MIN, INT32_MAX in *; lia).
  rewrite Hc. split; [reflexivity | assumption].
Qed.

Lemma stream_count_is_number_of_wrappers_witness :
  counted (this Script.queried) /\
  (Z.of_nat (length (mStreams (this Script.queried))) <= INT32_MAX ->
   streams_ok (this Script.queried)).
Proof.
  apply (stream_count_is_number_of_wrappers Script.lib Script.queried).
  apply (reach_run Script.lib Script.opened 0%nat op_queryStreamMetaData (Ret_int 0)).
  - apply (reach_run Script.lib Script.fresh 0%nat Script.open_file (Ret_int 0)).
    + apply (reach_make Script.lib ([] : World Script.lib)). vm_compute. reflexivity.
    + vm_compute. reflexivity.
    + discriminate.
  - vm_compute. reflexivity.
  - discriminate.
Defined.

(** ** open and the query of the stream information *)

(** [open] without custom I/O handler, up to the query of the stream
    information (line 169), when the library open succeeds and no interrupt is
    pending. *)
Lemma open_until_query (L : Library) url fmt dyn opts unset (s : Sys L) c c1 :
  mState (this s) = STATE_INITED ->
  mCtx (this s) = Some c ->
  url <> EmptyString ->
  fst (findHandler L (world s) url) = None ->
  let c0 := match fmt with Some f => set_iformat (getCtx f) c | None => c end in
  let tmp := match opts with Some d => d | None => [] end in
  let opened :=
    avformat_open_input L (snd (findHandler L (world s) url)) (Some c0) url (iformat c0) tmp in
  let r := fst (fst (fst opened)) in
  let tmp' := snd (fst opened) in
  snd (fst (fst opened)) = Some c1 ->
  0 <= r ->
  check_passes L (snd opened) r ->
  exists s1,
    mState (this s1) = STATE_OPENED /\
    forall qmd,
      open L (Some url) fmt dyn qmd opts unset s =
      (let* retval := if qmd then queryStreamMetaData L else ret r in
       (if bool_decide (tmp' <> []) then log call_av_dict_free else ret tt) ;;
       (if retval <? 0 then modify (set_mState STATE_ERROR) else ret tt) ;;
       ret retval) s1.
Proof.
  intros Hst Hc Hurl Hh c0 tmp opened r tmp' Hc1 Hr Hpass.
  destruct (findHandler L (world s) url) as [h w1] eqn:Hfind. simpl in Hh. subst h.
  cbn [snd] in opened.
  subst r tmp' opened.
  destruct (avformat_open_input L w1 (Some c0) url (iformat c0) tmp)
    as [[[r ctx'] tmp'] w2] eqn:Hopen.
  cbn [fst snd] in *. subst ctx'.
  eexists. split; cycle 1.
  { intros qmd.
    rewrite (open_start L url fmt dyn qmd opts unset s c Hst Hc Hurl).
    rewrite (bind_the_ctx L _ _ c0) by (subst c0; destruct fmt; norm; auto).
    cbv zeta. rewrite bind_extern.
    replace (world match fmt with Some f => _ | None => s end) with (world s)
      by (destruct fmt; reflexivity).
    rewrite Hfind. rewrite bind_modify.
    unfold open_tail.
    match goal with
    | |- bind _ _ ?st = _ => set (s1 := st)
    end.
    assert (Hopts : forall A (k : AVDictionary -> M L A),
               bind (match opts with
                     | Some d => log call_av_dict_copy ;; ret d
                     | None => ret []
                     end) k s1 =
               k tmp (match opts with Some _ => add_call call_av_dict_copy s1 | None => s1 end)).
    { intros A k. subst tmp. destruct opts; reflexivity. }
    rewrite Hopts. clear Hopts.
    match goal with
    | |- bind _ _ ?st = _ => set (s2 := st)
    end.
    assert (Hs2 : mCtx (this s2) = Some c0 /\ mState (this s2) = STATE_INITED /\
                  world s2 = w1 /\ mIOHandler (this s2) = None).
    { subst s2 s1 c0. destruct opts, fmt; norm; split_and!; auto. }
    destruct Hs2 as (Hc2 & Hst2 & Hw2 & Hh2).
    unfold doOpen. rewrite !bind_assoc.
    rewrite bind_getFormatCtx by (rewrite Hst2; reflexivity).
    rewrite bind_assoc, bind_get, Hh2, !bind_assoc, bind_ret.
    cbn [Z.geb Z.compare]. rewrite Hc2. cbn [deref]. rewrite !bind_assoc, bind_ret.
    cbv zeta. rewrite !bind_assoc, bind_extern, Hw2, Hopen.
    rewrite !bind_assoc, bind_modify.
    replace (r <? 0) with false by lia.
    rewrite bind_ret.
    rewrite bind_check_interrupt by (norm; assumption).
    norm.
    replace (r >=? 0) with true by lia.
    rewrite !bind_assoc, bind_modify.
    rewrite !bind_assoc, (bind_the_ctx L _ _ c1) by reflexivity.
    rewrite !bind_assoc.
    match goal with
    | |- bind _ _ ?st = _ => set (s4 := st)
    end.
    assert (H5 : forall A (k : unit -> M L A),
               bind (if bool_decide (iformat c0 <> iformat c1)
                     then modify (set_mFormat (SourceFormat_make L (iformat c1)))
                     else ret tt) k s4 =
               k tt (if bool_decide (iformat c0 <> iformat c1)
                     then set_this (set_mFormat (SourceFormat_make L (iformat c1)) (this s4)) s4
                     else s4)).
    { intros A k. case_bool_decide; reflexivity. }
    rewrite H5. clear H5. cbv beta. rewrite ?bind_assoc.
    match goal with
    | |- bind _ _ ?st = _ => set (s5 := st)
    end.
    assert (Hc5 : mCtx (this s5) = Some c1).
    { subst s5 s4. case_bool_decide; reflexivity. }
    assert (H6 : forall A (k : unit -> M L A),
               bind (if dyn
                     then update_ctx L (fun c => set_ctx_flags
                                         (Z.lor (ctx_flags c) (AVFMTCTX_NOHEADER L)) c)
                     else ret tt) k s5 =
               k tt (if dyn
                     then set_this
                            (set_mCtx (Some (set_ctx_flags
                                               (Z.lor (ctx_flags c1) (AVFMTCTX_NOHEADER L)) c1))
                               (this s5)) s5
                     else s5)).
    { intros A k. destruct dyn; [ | reflexivity].
      rewrite (bind_update_ctx L _ _ s5 c1 Hc5). reflexivity. }
    rewrite H6. clear H6. cbv beta. rewrite ?bind_assoc.
    match goal with
    | |- bind _ _ ?st = _ => set (s6 := st)
    end.
    assert (H7 : forall A (k : unit -> M L A),
               bind (match unset with
                     | Some bag => log (call_KeyValueBag_copy bag tmp')
                     | None => ret tt
                     end) k s6 =
               k tt (match unset with
                     | Some bag => add_call (call_KeyValueBag_copy bag tmp') s6
                     | None => s6
                     end)).
    { intros A k. destruct unset; reflexivity. }
    rewrite H7. clear H7. cbv beta. rewrite ?bind_assoc.
    subst s6 s5 s4 s2 s1. reflexivity. }
  destruct unset, dyn; case_bool_decide; reflexivity.
Qed.

(** X21.  [open] with the query of the stream information, on a url
    without custom I/O handler, when the library open succeeds, leaves no
    option over and no interrupt is pending: the call is [open] without the
    query followed by [queryStreamMetaData], whose result it returns, except
    that a negative result of the query takes the state to ERROR although the
    container was opened; the context stays with the object and is not closed. *)
Theorem open_then_query (L : Library) url fmt dyn opts unset (s : Sys L) c c1 :
  mState (this s) = STATE_INITED ->
  mCtx (this s) = Some c ->
  url <> EmptyString ->
  fst (findHandler L (world s) url) = None ->
  let c0 := match fmt with Some f => set_iformat (getCtx f) c | None => c end in
  let tmp := match opts with Some d => d | None => [] end in
  let opened :=
    avformat_open_input L (snd (findHandler L (world s) url)) (Some c0) url (iformat c0) tmp in
  let r := fst (fst (fst opened)) in
  snd (fst (fst opened)) = Some c1 ->
  snd (fst opened) = [] ->
  0 <= r ->
  check_passes L (snd opened) r ->
  exists s1,
    open L (Some url) fmt dyn false opts unset s = (Returned r, s1) /\
    mState (this s1) = STATE_OPENED /\
    open L (Some url) fmt dyn true opts unset s =
    match queryStreamMetaData L s1 with
    | (Returned q, s2) =>
        (Returned q, if q <? 0 then set_this (set_mState STATE_ERROR (this s2)) s2 else s2)
    | other => other
    end.
Proof.
  intros Hst Hc Hurl Hh c0 tmp opened r Hc1 Htmp Hr Hpass.
  destruct (open_until_query L url fmt dyn opts unset s c c1 Hst Hc Hurl Hh Hc1 Hr Hpass)
    as (s1 & Hst1 & Hopen).
  fold c0 tmp opened r in Hopen. rewrite Htmp in Hopen.
  exists s1. split; [ | split; [exact Hst1 | ]].
  - rewrite Hopen. rewrite bind_ret.
    rewrite bool_decide_eq_false_2 by (intros H; apply H; reflexivity).
    rewrite bind_ret. replace (r <? 0) with false by lia. reflexivity.
  - rewrite Hopen. unfold bind at 1.
    destruct (queryStreamMetaData L s1) as [[q | e | ] s2]; try reflexivity.
    rewrite bool_decide_eq_false_2 by (intros H; apply H; reflexivity).
    rewrite bind_ret. destruct (q <? 0); reflexivity.
Qed.

Lemma open_then_query_witness :
  let L := Script.lib in
  let s := Script.fresh in
  let c := Script.ctx_of s in
  let c1 := set_streams Script.two_streams c in
  let url := "file"%string in
  let fmt := @None SourceFormat in
  let dyn := false in
  let opts := @None AVDictionary in
  let unset := @None KeyValueBagImpl in
  exists s1,
    open L (Some url) fmt dyn false opts unset s =
      (Returned
         (fst (fst (fst (avformat_open_input L (snd (findHandler L (world s) url))
                           (Some match fmt with
                                 | Some f => set_iformat (getCtx f) c
                                 | None => c
                                 end) url
                           (iformat match fmt with
                                    | Some f => set_iformat (getCtx f) c
                                    | None => c
                                    end)
                           match opts with Some d => d | None => [] end)))), s1) /\
    mState (this s1) = STATE_OPENED /\
    open L (Some url) fmt dyn true opts unset s =
    match queryStreamMetaData L s1 with
    | (Returned q, s2) =>
        (Returned q, if q <? 0 then set_this (set_mState STATE_ERROR (this s2)) s2 else s2)
    | other => other
    end.
Proof.
  intros L s c c1 url fmt dyn opts unset.
  apply (open_then_query L url fmt dyn opts unset s c c1).
  - reflexivity.
  - reflexivity.
  - discriminate.
  - reflexivity.
  - reflexivity.
  - reflexivity.
  - vm_compute. discriminate.
  - apply Script_check_passes.
Defined.

